(** * CDLOD terrain: quadtree, LOD selection, chunk lifecycle, morph factor

    A shallow embedding of [src/cdlod.ts] (classes [CDLOD] and [Chunk])
    and of [getMorphValue] of the terrain vertex shader.

    Numbers.  The JavaScript and GLSL numbers are floats; they are read
    here as exact rationals ([Q]), so rounding, infinities and NaN are
    outside the model.  Integer-valued quantities that the code uses as
    array indices or recursion counters ([lodLevels], [level]) are [Z].

    Object identity.  A [Chunk] object lives at a fixed place of the
    quadtree, which is built once and never restructured.  A reference to
    a chunk is its address: the list of child indices leading from the
    root to it.  The draw list and the render set hold such references,
    and the only mutable field of a chunk, [mesh], is kept in a store
    indexed by addresses. *)

From Stdlib Require Import ZArith QArith Qminmax Qround Qabs Lia Lqa List Bool.
From stdpp Require Import gmap.
From Equations Require Import Equations.
Import ListNotations.
#[local] Open Scope Q_scope.

(** ** Numbers *)

(** [a < b] on numbers, as a boolean. *)
Definition Qltb (a b : Q) : bool := negb (Qle_bool b a).

(** [Math.pow(2, i)] for a loop counter [i]. *)
Definition pow2 (i : nat) : Q := inject_Z (2 ^ Z.of_nat i).

(** ** Engine value types: vectors, planes, boxes, cameras *)

Module Vector3.
Record t : Type := mk { x : Q; y : Q; z : Q }.

(** [Vector3.Center(a, b)]. *)
Definition Center (a b : t) : t :=
  mk ((x a + x b) / 2) ((y a + y b) / 2) ((z a + z b) / 2).

Definition DistanceSquared (a b : t) : Q :=
  (x a - x b) * (x a - x b) + (y a - y b) * (y a - y b)
  + (z a - z b) * (z a - z b).

(** [Vector3.Distance(a, b) < r].  The distance is the square root of
    [DistanceSquared a b]; over exact numbers it is below [r] exactly
    when [r] is positive and the squared distance is below [r * r]. *)
Definition DistanceLt (a b : t) (r : Q) : bool :=
  Qltb 0 r && Qltb (DistanceSquared a b) (r * r).
End Vector3.

Record Vector2 : Type := mkVector2 { v2x : Q; v2y : Q }.
Record Vector4 : Type := mkVector4 { v4x : Q; v4y : Q; v4z : Q; v4w : Q }.

Module Plane.
Record t : Type := mk { normal : Vector3.t; d : Q }.

(** [plane.dotCoordinate(p)]: signed distance of [p], scaled by the
    length of the normal. *)
Definition dotCoordinate (pl : t) (p : Vector3.t) : Q :=
  Vector3.x (normal pl) * Vector3.x p + Vector3.y (normal pl) * Vector3.y p
  + Vector3.z (normal pl) * Vector3.z p + d pl.
End Plane.

Module BoundingBox.
Record t : Type := mk { minimum : Vector3.t; maximum : Vector3.t }.

(** [boundingBox.center]. *)
Definition center (bb : t) : Vector3.t :=
  Vector3.Center (minimum bb) (maximum bb).

(** The corner of the box lying furthest along the direction [n]. *)
Definition positiveVertex (bb : t) (n : Vector3.t) : Vector3.t :=
  Vector3.mk
    (if Qle_bool 0 (Vector3.x n) then Vector3.x (maximum bb) else Vector3.x (minimum bb))
    (if Qle_bool 0 (Vector3.y n) then Vector3.y (maximum bb) else Vector3.y (minimum bb))
    (if Qle_bool 0 (Vector3.z n) then Vector3.z (maximum bb) else Vector3.z (minimum bb)).

(** Modelled from the spec: [BoundingBox.isInFrustum] is a routine of
    the rendering engine, which is not part of the repository.  Spec
    4.2, step 1: the box is rejected if it lies entirely on the outside
    of any plane, a box/plane test on the box's positive vertex
    relative to each plane's normal. *)
Definition isInFrustum (bb : t) (planes : list Plane.t) : bool :=
  forallb (fun pl => Qle_bool 0 (Plane.dotCoordinate pl (positiveVertex bb (Plane.normal pl))))
          planes.
End BoundingBox.

(** A [Vector3] object of the JavaScript heap, known by its address.
    Two expressions that evaluate to the same object have the same
    address, and a write through one is read through the other. *)
Abbreviation Loc := nat (only parsing).

(** A [FreeCamera] as a call of the terrain code finds it, reduced to
    what the code reads from it: [camera.position], which is an object
    ([positionRef] is its address, [position] what it holds when the call
    is made), and the clipping planes that
    [Frustum.GetPlanes(camera.getTransformationMatrix())] yields.  Both
    routines belong to the engine, so the camera carries their result.
    A camera that moves in place keeps [positionRef] and changes
    [position]; assigning a new vector to [camera.position] changes
    both. *)
Record FreeCamera : Type := mkCamera {
  position : Vector3.t;
  frustumPlanes : list Plane.t;
  positionRef : Loc
}.

(** ** Chunks and their addresses *)

(** Class [Chunk], without its mutable [mesh] field (see [CDLOD.meshes]). *)
#[local] Unset Elimination Schemes.
Inductive Chunk : Type := mkChunk {
  boundingBox : BoundingBox.t;
  lodLevel : Z;
  minHeight : Q;
  maxHeight : Q;
  children : list Chunk
}.
#[local] Set Elimination Schemes.

(** The address of a chunk: child indices from the root down. *)
Abbreviation Addr := (list nat) (only parsing).

(** A reference to a chunk object, as held by the draw list: the address
    is the identity of the object, the second component the object read
    through it. *)
Abbreviation ChunkRef := (list nat * Chunk)%type (only parsing).

(** The loop [for (const child of chunk.children) ...] (and
    [chunk.children.forEach(...)]) over a state of type [St]: the body
    receives the child together with its index, from which the child's
    address is formed. *)
Definition forChildren {St : Type} (body : nat -> Chunk -> St -> St)
  : list Chunk -> nat -> St -> St :=
  fix loop (cs : list Chunk) (i : nat) (st : St) {struct cs} : St :=
    match cs with
    | [] => st
    | child :: rest => loop rest (S i) (body i child st)
    end.

(** [chunk.frustumIntersect(planes)]. *)
Definition frustumIntersect (chunk : Chunk) (planes : list Plane.t) : bool :=
  BoundingBox.isInFrustum (boundingBox chunk) planes.

(** [chunk.sphereIntersect(distance, cameraPos)]. *)
Definition sphereIntersect (chunk : Chunk) (distance : Q) (cameraPos : Vector3.t) : bool :=
  Vector3.DistanceLt (BoundingBox.center (boundingBox chunk)) cameraPos distance.

(** The chunk found at an address below [c], if there is one. *)
Fixpoint chunkAt (c : Chunk) (a : Addr) : option Chunk :=
  match a with
  | [] => Some c
  | i :: a' =>
      match nth_error (children c) i with
      | Some child => chunkAt child a'
      | None => None
      end
  end.

(** ** Quadtree construction *)

(** The four quadrant boxes of [buildQuadtree], in the order of the source. *)
Definition quadrantBoxes (terrainHeight : Q) (boundingBox : BoundingBox.t)
  : list BoundingBox.t :=
  let min := BoundingBox.minimum boundingBox in
  let max := BoundingBox.maximum boundingBox in
  let mid := Vector3.Center min max in
  [ BoundingBox.mk (Vector3.mk (Vector3.x min) 0 (Vector3.z min))
                   (Vector3.mk (Vector3.x mid) terrainHeight (Vector3.z mid));
    BoundingBox.mk (Vector3.mk (Vector3.x mid) 0 (Vector3.z min))
                   (Vector3.mk (Vector3.x max) terrainHeight (Vector3.z mid));
    BoundingBox.mk (Vector3.mk (Vector3.x min) 0 (Vector3.z mid))
                   (Vector3.mk (Vector3.x mid) terrainHeight (Vector3.z max));
    BoundingBox.mk (Vector3.mk (Vector3.x mid) 0 (Vector3.z mid))
                   (Vector3.mk (Vector3.x max) terrainHeight (Vector3.z max)) ].

(** [buildQuadtree(boundingBox, level)].  The recursion ends because
    [level] drops by one at each call and stops below zero. *)
Equations? buildQuadtree (terrainHeight : Q) (boundingBox : BoundingBox.t) (level : Z)
  : Chunk by wf (Z.to_nat (level + 1)) lt :=
  buildQuadtree terrainHeight boundingBox level with Z_lt_dec level 0 => {
    | left _ := mkChunk boundingBox 0 0 terrainHeight [];
    | right _ :=
        let boxes := quadrantBoxes terrainHeight boundingBox in
        mkChunk boundingBox level 0 terrainHeight
          (map (fun box => buildQuadtree terrainHeight box (level - 1)) boxes) }.
Proof. lia. Qed.

(** ** Meshes and shader materials *)

(** A [ShaderMaterial] of the terrain shader: the [wireframe] flag and the
    uniforms the terrain code sets.  A uniform that has not been set is
    [None].  [setVector3] keeps the object it is given, so
    [u_cameraPosition] is the address of a vector, not its content.  The
    other vectors that the code sets are objects made for the call, and
    the range table is never written after the constructor, so these
    uniforms are given by their content. *)
Record ShaderMaterial : Type := mkShaderMaterial {
  wireframe : bool;
  u_terrainHeight : option Q;
  u_terrainSize : option Q;
  u_detailStrength : option Q;
  u_detailScale : option Q;
  u_uvOffset : option Vector2;
  u_uvScale : option Vector2;
  u_chunkColor : option Vector4;
  u_mixFactor : option Q;
  u_mesh_dim : option Q;
  u_lodLevel : option Q;
  u_lodRangesLUT : option (list Q);
  u_cameraPosition : option Loc
}.

(** A [Mesh], with the fields the terrain code reads or writes (its debug
    name is not kept). *)
Record Mesh : Type := mkMesh {
  isEnabled : bool;
  checkCollisions : bool;
  scaling : Vector3.t;
  meshPosition : Vector3.t;
  material : option ShaderMaterial;
  meshShowBoundingBox : bool;
  boundingInfo : BoundingBox.t
}.

(** The [clone] and [dispose] calls of the terrain code, recorded in the
    order they are made: [Cloned a] is [baseGrid.clone], which creates
    the mesh of the chunk at [a]; [ClonedShader a] is
    [terrainShader.clone], which creates the material of that mesh;
    [Disposed a] is [chunk.mesh.dispose()].  The code disposes of no
    material. *)
Inductive EngineCall : Type :=
| Cloned (a : Addr)
| ClonedShader (a : Addr)
| Disposed (a : Addr).

(** ** The vertex shader's morph factor *)

Module TerrainVertexShader.
(** [#define NUM_LOD_LEVELS 6]. *)
Definition NUM_LOD_LEVELS : Z := 6.

(** GLSL [int(f)]: conversion of a float to an integer drops the
    fractional part. *)
Definition int (f : Q) : Z := (Qnum f ÷ Zpos (Qden f))%Z.

(** Reading [lodRangesLUT[i]] where the uniform is declared
    [float lodRangesLUT[NUM_LOD_LEVELS]] and [values] are the floats
    pushed to it.  Within the declared bounds the read yields the pushed
    value, or the initial value 0 of an entry that was not written;
    outside them it is undefined, which is [None]. *)
Definition lutRead (values : list Q) (i : Z) : option Q :=
  if ((0 <=? i) && (i <? NUM_LOD_LEVELS))%Z
  then Some (nth (Z.to_nat i) values 0)
  else None.

(** GLSL [clamp(x, minVal, maxVal)] is [min(max(x, minVal), maxVal)]. *)
Definition clamp (x minVal maxVal : Q) : Q := Qmin (Qmax x minVal) maxVal.

(** [getMorphValue(dist, lodLvl)]; [None] when an array read is out of
    the declared bounds. *)
Definition getMorphValue (lodRangesLUT : list Q) (dist lodLvl : Q) : option Q :=
  match (if Qltb 0 lodLvl then lutRead lodRangesLUT (int lodLvl - 1) else Some 0) with
  | None => None
  | Some low =>
      match lutRead lodRangesLUT (int lodLvl) with
      | None => None
      | Some high =>
          let delta := high - low in
          let factor := (dist - low) / delta in
          Some (clamp (factor / (3 # 10) - 1) 0 1)
      end
  end.
End TerrainVertexShader.

(** The morph factor as the specification words it:
    [t = clamp(((d - low) / (high - low)) / 0.3 - 1.0, 0.0, 1.0)]. *)
Definition morphFactorSpec (d low high : Q) : Q :=
  Qmin (Qmax (((d - low) / (high - low)) / (3 # 10) - 1) 0) 1.

(** ** The CDLOD system *)

(** Interface [ICDLODOptions]; an optional property that is absent is
    [None]. *)
Record ICDLODOptions : Type := mkOptions {
  opt_terrainSize : Q;
  opt_terrainHeight : Q;
  opt_minLodDistance : option Q;
  opt_lodLevels : option Z;
  opt_subdivisions : option Q;
  opt_showChunk : option bool;
  opt_showBoundingBox : option bool
}.

Module CDLOD.
(** The fields of class [CDLOD].  [meshes] holds the [mesh] field of
    every chunk object ([None] at an address is [null]); [engineLog]
    records the engine calls made so far. *)
Record t : Type := mk {
  showChunk : bool;
  showBoundingBox : bool;
  root : Chunk;
  lodRanges : list Q;
  lodLevels : Z;
  terrainSize : Q;
  terrainHeight : Q;
  terrainShader : ShaderMaterial;
  subdivisions : Q;
  baseGrid : Mesh;
  meshes : gmap Addr Mesh;
  engineLog : list EngineCall
}.

Definition setMeshes (s : t) (m : gmap Addr Mesh) (log : list EngineCall) : t :=
  mk (showChunk s) (showBoundingBox s) (root s) (lodRanges s) (lodLevels s)
     (terrainSize s) (terrainHeight s) (terrainShader s) (subdivisions s)
     (baseGrid s) m log.

Definition setShowChunk (s : t) (b : bool) : t :=
  mk b (showBoundingBox s) (root s) (lodRanges s) (lodLevels s)
     (terrainSize s) (terrainHeight s) (terrainShader s) (subdivisions s)
     (baseGrid s) (meshes s) (engineLog s).

Definition setShowBoundingBox (s : t) (b : bool) : t :=
  mk (showChunk s) b (root s) (lodRanges s) (lodLevels s)
     (terrainSize s) (terrainHeight s) (terrainShader s) (subdivisions s)
     (baseGrid s) (meshes s) (engineLog s).

(** JavaScript [!x] for an optional number: true when [x] is absent or 0. *)
Definition falsy (x : option Q) : bool :=
  match x with
  | None => true
  | Some v => Qeq_bool v 0
  end.

(** [config.minLodDistance] once the constructor has applied its
    defaulting rule. *)
Definition configMinLodDistance (options : ICDLODOptions) : Q :=
  if falsy (opt_minLodDistance options)
  then opt_terrainSize options / 15
  else default 25 (opt_minLodDistance options).

(** The loop [for (i = 0; i < lodLevels; i++) lodRanges[i] = ...]. *)
Definition computeLodRanges (minLodDistance : Q) (lodLevels : Z) : list Q :=
  map (fun i => minLodDistance * pow2 i) (seq 0 (Z.to_nat lodLevels)).

(** The base grid: a 1 x 1 ground mesh, disabled, without material. *)
Definition createBaseGrid : Mesh :=
  mkMesh false false (Vector3.mk 1 1 1) (Vector3.mk 0 0 0) None false
         (BoundingBox.mk (Vector3.mk (- (1 # 2)) 0 (- (1 # 2)))
                         (Vector3.mk (1 # 2) 0 (1 # 2))).

(** The constructor's bounding box for the entire terrain (centered at
    0,0,0). *)
Definition terrainBoundingBox (terrainSize : Q) : BoundingBox.t :=
  BoundingBox.mk
    (Vector3.mk (- terrainSize * (1 # 2)) (- terrainSize * (1 # 2)) (- terrainSize * (1 # 2)))
    (Vector3.mk (terrainSize * (1 # 2)) (terrainSize * (1 # 2)) (terrainSize * (1 # 2))).

(** [new CDLOD(scene, options)]. *)
Definition constructor (options : ICDLODOptions) : t :=
  let terrainSize := opt_terrainSize options in
  let terrainHeight := opt_terrainHeight options in
  let lodLevels := default 7%Z (opt_lodLevels options) in
  let subdivisions := default 32 (opt_subdivisions options) in
  let showChunk := default false (opt_showChunk options) in
  let showBoundingBox := default false (opt_showBoundingBox options) in
  let minLodDistance := configMinLodDistance options in
  let lodRanges := computeLodRanges minLodDistance lodLevels in
  let boundingBox := terrainBoundingBox terrainSize in
  let root := buildQuadtree terrainHeight boundingBox lodLevels in
  let terrainShader :=
    mkShaderMaterial false (Some terrainHeight) (Some terrainSize) (Some (1 # 2)) (Some 200)
                     None None None None None None None None in
  mk showChunk showBoundingBox root lodRanges lodLevels terrainSize terrainHeight
     terrainShader subdivisions createBaseGrid ∅ [].

(** [isChunkWithinLodRange(chunk, camera, lodLevel)].  An index outside
    the array reads [undefined], and a comparison with [undefined] is
    false. *)
Definition isChunkWithinLodRange (s : t) (chunk : Chunk) (camera : FreeCamera)
           (lodLevel : Z) : bool :=
  let center := BoundingBox.center (boundingBox chunk) in
  let cameraPos := position camera in
  match (if (lodLevel <? 0)%Z then None else lodRanges s !! Z.to_nat lodLevel) with
  | Some range => Vector3.DistanceLt center cameraPos range
  | None => false
  end.

(** [traverseAndSelect(chunk, lodLevel, camera, drawList)]; [addr] is the
    address of [chunk], and the result is the draw list after the call. *)
Fixpoint traverseAndSelect (s : t) (chunk : Chunk) (addr : Addr) (lodLevel : Z)
         (camera : FreeCamera) (drawList : list ChunkRef) {struct chunk}
  : list ChunkRef :=
  let planes := frustumPlanes camera in
  if negb (frustumIntersect chunk planes) then drawList
  else if negb (isChunkWithinLodRange s chunk camera lodLevel)
       then drawList ++ [(addr, chunk)]
       else forChildren
              (fun i child dl =>
                 traverseAndSelect s child (addr ++ [i]) (lodLevel - 1) camera dl)
              (children chunk) 0%nat drawList.

(** [selectLods(camera)]. *)
Definition selectLods (s : t) (camera : FreeCamera) : list ChunkRef :=
  traverseAndSelect s (root s) [] (lodLevels s - 1) camera [].

(** The palette [lodColors] of [updateChunkMesh]. *)
Definition lodColors : list Vector4 :=
  [ mkVector4 1 0 0 1; mkVector4 1 (1 # 2) 0 1; mkVector4 1 1 0 1; mkVector4 0 1 0 1;
    mkVector4 0 1 1 1; mkVector4 0 0 1 1; mkVector4 (1 # 2) 0 1 1; mkVector4 1 0 1 1 ].

(** [lodColors[l % lodColors.length]]; the remainder has the sign of [l],
    and a negative index reads [undefined]. *)
Definition lodColor (l : Z) : option Vector4 :=
  let i := Z.rem l (Z.of_nat (length lodColors)) in
  if (i <? 0)%Z then None else lodColors !! Z.to_nat i.

(** The mesh that [updateChunkMesh] creates for a chunk that has none:
    a clone of the base grid, scaled and placed on the chunk's box, with
    a clone of the terrain shader carrying the chunk's uniforms. *)
Definition createChunkMesh (s : t) (chunk : Chunk) (camera : FreeCamera) : Mesh :=
  let bb := boundingBox chunk in
  let width := Vector3.x (BoundingBox.maximum bb) - Vector3.x (BoundingBox.minimum bb) in
  let height := Vector3.z (BoundingBox.maximum bb) - Vector3.z (BoundingBox.minimum bb) in
  let centerX := (Vector3.x (BoundingBox.maximum bb) + Vector3.x (BoundingBox.minimum bb)) * (1 # 2) in
  let centerZ := (Vector3.z (BoundingBox.maximum bb) + Vector3.z (BoundingBox.minimum bb)) * (1 # 2) in
  let uvOffset :=
    mkVector2 ((Vector3.x (BoundingBox.minimum bb) + terrainSize s * (1 # 2)) / terrainSize s)
              ((Vector3.z (BoundingBox.minimum bb) + terrainSize s * (1 # 2)) / terrainSize s) in
  let uvScale := mkVector2 (width / terrainSize s) (height / terrainSize s) in
  let color := lodColor (lodLevel chunk) in
  let base := terrainShader s in
  let chunkMat :=
    mkShaderMaterial
      (if showChunk s then true else wireframe base)
      (u_terrainHeight base) (u_terrainSize base) (u_detailStrength base) (u_detailScale base)
      (Some uvOffset) (Some uvScale) color (u_mixFactor base)
      (Some (subdivisions s)) (Some (inject_Z (lodLevel chunk)))
      (Some (lodRanges s)) (Some (positionRef camera)) in
  let currentMin := BoundingBox.minimum (boundingInfo (baseGrid s)) in
  let currentMax := BoundingBox.maximum (boundingInfo (baseGrid s)) in
  mkMesh true true
         (Vector3.mk width (Vector3.y (scaling (baseGrid s))) height)
         (Vector3.mk centerX 0 centerZ)
         (Some chunkMat)
         (if showBoundingBox s then true else meshShowBoundingBox (baseGrid s))
         (BoundingBox.mk
            (Vector3.mk (Vector3.x currentMin) 0 (Vector3.z currentMin))
            (Vector3.mk (Vector3.x currentMax) (terrainHeight s) (Vector3.z currentMax))).

(** [updateChunkMesh(chunk, camera)].  [baseGrid] is set by the
    constructor and never cleared, so the guard reduces to
    [!chunk.mesh]; everything else happens under that guard. *)
Definition updateChunkMesh (s : t) (chunk : ChunkRef) (camera : FreeCamera) : t :=
  match meshes s !! chunk.1 with
  | Some _ => s
  | None =>
      setMeshes s (<[chunk.1 := createChunkMesh s chunk.2 camera]> (meshes s))
                (engineLog s ++ [Cloned chunk.1; ClonedShader chunk.1])
  end.

(** The first statement of [disposeUnusedMeshes], for the chunk at
    [addr]: if it is not in the render set and has a mesh, the mesh is
    disposed of and the field is set to [null]. *)
Definition disposeIfUnused (renderSet : gset Addr) (s : t) (addr : Addr) : t :=
  if decide (addr ∈ renderSet) then s
  else match meshes s !! addr with
       | Some _ => setMeshes s (delete addr (meshes s)) (engineLog s ++ [Disposed addr])
       | None => s
       end.

(** [disposeUnusedMeshes(chunk, renderSet)]; [addr] is the address of
    [chunk]. *)
Fixpoint disposeUnusedMeshes (chunk : Chunk) (addr : Addr) (renderSet : gset Addr)
         (s : t) {struct chunk} : t :=
  forChildren
    (fun i child st => disposeUnusedMeshes child (addr ++ [i]) renderSet st)
    (children chunk) 0%nat (disposeIfUnused renderSet s addr).

(** [update(camera)]. *)
Definition update (s : t) (camera : FreeCamera) : t :=
  let chunksToRender := selectLods s camera in
  let renderSet : gset Addr := list_to_set (map fst chunksToRender) in
  let s1 := fold_left (fun st chunk => updateChunkMesh st chunk camera) chunksToRender s in
  disposeUnusedMeshes (root s) [] renderSet s1.

(** The tree walk shared by the three setters: [f] is applied to the
    mesh of every chunk that has one. *)
Fixpoint forEachMesh (f : Mesh -> Mesh) (chunk : Chunk) (addr : Addr)
         (m : gmap Addr Mesh) {struct chunk} : gmap Addr Mesh :=
  forChildren
    (fun i child m' => forEachMesh f child (addr ++ [i]) m')
    (children chunk) 0%nat (alter f addr m).

Definition withMaterial (g : ShaderMaterial -> ShaderMaterial) (mesh : Mesh) : Mesh :=
  mkMesh (isEnabled mesh) (checkCollisions mesh) (scaling mesh) (meshPosition mesh)
         (g <$> material mesh) (meshShowBoundingBox mesh) (boundingInfo mesh).

(** [setMixFactor(factor)]. *)
Definition setMixFactor (s : t) (factor : Q) : t :=
  let applyMixFactor :=
    withMaterial (fun mat =>
      mkShaderMaterial (wireframe mat) (u_terrainHeight mat) (u_terrainSize mat)
        (u_detailStrength mat) (u_detailScale mat) (u_uvOffset mat) (u_uvScale mat)
        (u_chunkColor mat) (Some factor) (u_mesh_dim mat) (u_lodLevel mat)
        (u_lodRangesLUT mat) (u_cameraPosition mat)) in
  setMeshes s (forEachMesh applyMixFactor (root s) [] (meshes s)) (engineLog s).

(** [setWireframe(enabled)]. *)
Definition setWireframe (s : t) (enabled : bool) : t :=
  let s' := setShowChunk s enabled in
  let applyWireframe :=
    withMaterial (fun mat =>
      mkShaderMaterial enabled (u_terrainHeight mat) (u_terrainSize mat)
        (u_detailStrength mat) (u_detailScale mat) (u_uvOffset mat) (u_uvScale mat)
        (u_chunkColor mat) (u_mixFactor mat) (u_mesh_dim mat) (u_lodLevel mat)
        (u_lodRangesLUT mat) (u_cameraPosition mat)) in
  setMeshes s' (forEachMesh applyWireframe (root s') [] (meshes s')) (engineLog s').

(** [setBoundingBox(enabled)]. *)
Definition setBoundingBox (s : t) (enabled : bool) : t :=
  let s' := setShowBoundingBox s enabled in
  let applyBoundingBox := fun mesh =>
    mkMesh (isEnabled mesh) (checkCollisions mesh) (scaling mesh) (meshPosition mesh)
           (material mesh) enabled (boundingInfo mesh) in
  setMeshes s' (forEachMesh applyBoundingBox (root s') [] (meshes s')) (engineLog s').
End CDLOD.

(** ** Reading the claims: auxiliary definitions *)

(** Structural induction on chunks, with the hypothesis for all children. *)
Fixpoint Chunk_ind (P : Chunk -> Prop)
         (step : forall bb l mn mx cs, Forall P cs -> P (mkChunk bb l mn mx cs))
         (c : Chunk) {struct c} : P c :=
  match c with
  | mkChunk bb l mn mx cs =>
      step bb l mn mx cs
           ((fix all (cs : list Chunk) : Forall P cs :=
               match cs with
               | [] => List.Forall_nil P
               | c' :: cs' => List.Forall_cons P c' cs' (Chunk_ind P step c') (all cs')
               end) cs)
  end.

(** The band [low, high] of level [L] as the specification reads it off
    the range table: [low = L > 0 ? range[L-1] : 0], [high = range[L]]. *)
Definition bandOf (lodRangesLUT : list Q) (L : Z) : option (Q * Q) :=
  match (if (0 <? L)%Z then TerrainVertexShader.lutRead lodRangesLUT (L - 1) else Some 0),
        TerrainVertexShader.lutRead lodRangesLUT L with
  | Some low, Some high => Some (low, high)
  | _, _ => None
  end.

(** ** The selection, read off the tree *)

(** A reference found below a node, re-addressed from the node at [addr]. *)
Definition shift (addr : Addr) (r : ChunkRef) : ChunkRef := (addr ++ r.1, r.2).

(** The references [f] yields for each child of a node, re-addressed
    through the child's index; [i] is the index of the first chunk of the
    list. *)
Definition belowRefs (f : Chunk -> list ChunkRef) : list Chunk -> nat -> list ChunkRef :=
  fix below (cs : list Chunk) (i : nat) {struct cs} : list ChunkRef :=
    match cs with
    | [] => []
    | child :: rest => map (shift [i]) (f child) ++ below rest (S i)
    end.

(** All nodes of a tree with their addresses, in the order in which the
    tree walks of [CDLOD] visit them. *)
Fixpoint treeRefs (c : Chunk) : list ChunkRef :=
  ([], c) :: belowRefs treeRefs (children c) 0%nat.

(** What a call of [traverseAndSelect] on [c] with band [l] appends to the
    draw list, addressed from [c]. *)
Definition selection (s : CDLOD.t) (camera : FreeCamera) (c : Chunk) (l : Z)
  : list ChunkRef :=
  CDLOD.traverseAndSelect s c [] l camera [].

(** The calls [traverseAndSelect] makes: [Visits s camera c l rel c' l']
    says that the call on [c] with band [l] leads to a call on the node
    [c'] at address [rel] below [c], with band [l']. *)
Inductive Visits (s : CDLOD.t) (camera : FreeCamera)
  : Chunk -> Z -> Addr -> Chunk -> Z -> Prop :=
| visits_here c l :
    Visits s camera c l [] c l
| visits_below c l i child rel c' l' :
    frustumIntersect c (frustumPlanes camera) = true ->
    CDLOD.isChunkWithinLodRange s c camera l = true ->
    nth_error (children c) i = Some child ->
    Visits s camera child (l - 1) rel c' l' ->
    Visits s camera c l (i :: rel) c' l'.

(** [Selects s camera c l rel c']: the call on [c] with band [l] puts the
    node [c'] at address [rel] below [c] on the draw list. *)
Inductive Selects (s : CDLOD.t) (camera : FreeCamera)
  : Chunk -> Z -> Addr -> Chunk -> Prop :=
| selects_here c l :
    frustumIntersect c (frustumPlanes camera) = true ->
    CDLOD.isChunkWithinLodRange s c camera l = false ->
    Selects s camera c l [] c
| selects_below c l i child rel c' :
    frustumIntersect c (frustumPlanes camera) = true ->
    CDLOD.isChunkWithinLodRange s c camera l = true ->
    nth_error (children c) i = Some child ->
    Selects s camera child (l - 1) rel c' ->
    Selects s camera c l (i :: rel) c'.

(** ** Geometry of boxes and frusta *)

(** [Vector3.Distance(a, b) >= r], over exact numbers. *)
Definition DistanceGe (a b : Vector3.t) (r : Q) : Prop :=
  r <= 0 \/ r * r <= Vector3.DistanceSquared a b.

(** The distance from the centre of the chunk's box to the camera is at
    least [range[l]], for a band [l] that has an entry in the table. *)
Definition rangeReached (s : CDLOD.t) (c : Chunk) (camera : FreeCamera) (l : Z) : Prop :=
  exists r : Q,
    (0 <= l)%Z /\ CDLOD.lodRanges s !! Z.to_nat l = Some r
    /\ DistanceGe (BoundingBox.center (boundingBox c)) (position camera) r.

(** The point [p] lies in the (closed) box. *)
Definition boxContains (bb : BoundingBox.t) (p : Vector3.t) : Prop :=
  Vector3.x (BoundingBox.minimum bb) <= Vector3.x p <= Vector3.x (BoundingBox.maximum bb)
  /\ Vector3.y (BoundingBox.minimum bb) <= Vector3.y p <= Vector3.y (BoundingBox.maximum bb)
  /\ Vector3.z (BoundingBox.minimum bb) <= Vector3.z p <= Vector3.z (BoundingBox.maximum bb).

(** The ground position [(x, z)] lies strictly inside the footprint of the
    box. *)
Definition footprintInterior (bb : BoundingBox.t) (x z : Q) : Prop :=
  Vector3.x (BoundingBox.minimum bb) < x < Vector3.x (BoundingBox.maximum bb)
  /\ Vector3.z (BoundingBox.minimum bb) < z < Vector3.z (BoundingBox.maximum bb).

(** The point [p] is inside the frustum: on the inner side of every plane. *)
Definition inFrustum (planes : list Plane.t) (p : Vector3.t) : Prop :=
  Forall (fun pl => 0 <= Plane.dotCoordinate pl p) planes.

(** The property C1 asks of the boxes of a draw list: two different
    chunks of the list have no point in common. *)
Definition boxesDisjoint (drawList : list ChunkRef) : Prop :=
  forall (r1 r2 : ChunkRef) (p : Vector3.t),
    r1 ∈ drawList -> r2 ∈ drawList -> r1.1 <> r2.1 ->
    ~ (boxContains (boundingBox r1.2) p /\ boxContains (boundingBox r2.2) p).

(** Number of nodes of a tree. *)
Fixpoint nodeCount (c : Chunk) : nat :=
  S (list_sum (map nodeCount (children c))).

(** A complete 4-ary tree with [n] levels of internal nodes: the nodes at
    depth [n] are childless, all others have four children. *)
Fixpoint complete (n : nat) (c : Chunk) : Prop :=
  match n with
  | O => children c = []
  | S m => length (children c) = 4%nat /\ Forall (complete m) (children c)
  end.

(** The part of a [CDLOD] object that is fixed by the constructor. *)
Definition staticPart (s : CDLOD.t) : Chunk * list Q * Z * Q * Q :=
  (CDLOD.root s, CDLOD.lodRanges s, CDLOD.lodLevels s,
   CDLOD.terrainSize s, CDLOD.terrainHeight s).

(** The operations a client can invoke on a [CDLOD] object once it is
    constructed ([selectLods] returns a list and leaves the object as it
    is). *)
Inductive Step : CDLOD.t -> CDLOD.t -> Prop :=
| step_update s camera :
    Step s (CDLOD.update s camera)
| step_updateChunkMesh s chunk camera :
    Step s (CDLOD.updateChunkMesh s chunk camera)
| step_setMixFactor s factor :
    Step s (CDLOD.setMixFactor s factor)
| step_setWireframe s enabled :
    Step s (CDLOD.setWireframe s enabled)
| step_setBoundingBox s enabled :
    Step s (CDLOD.setBoundingBox s enabled).

(** The states an object can be in after construction. *)
Inductive Reachable (s0 : CDLOD.t) : CDLOD.t -> Prop :=
| reach_init : Reachable s0 s0
| reach_step s s' : Reachable s0 s -> Step s s' -> Reachable s0 s'.

(** A box spanning exactly the heights [0 .. th]. *)
Definition spansHeight (th : Q) (bb : BoundingBox.t) : Prop :=
  Vector3.y (BoundingBox.minimum bb) = 0 /\ Vector3.y (BoundingBox.maximum bb) = th.

(** The property C6 asks of a state: every node of the tree has the Y
    extent [0, terrainHeight]. *)
Definition everyNodeSpansTerrainHeight (s : CDLOD.t) : Prop :=
  forall (a : Addr) (c : Chunk),
    chunkAt (CDLOD.root s) a = Some c ->
    Vector3.y (BoundingBox.minimum (boundingBox c)) == 0
    /\ Vector3.y (BoundingBox.maximum (boundingBox c)) == CDLOD.terrainHeight s.

(** ** Sample configurations and cameras *)

(** The configuration of [main.ts]: [terrainSize: 2000],
    [terrainHeight: 200], [subdivisions: 16], everything else defaulted
    (so [lodLevels] is 7). *)
Definition mainOptions : ICDLODOptions :=
  mkOptions 2000 200 None None (Some 16) None None.

(** A small configuration: three LOD levels, [minLodDistance] 25. *)
Definition smallOptions : ICDLODOptions :=
  mkOptions 2000 200 (Some 25) (Some 3%Z) None None None.

(** A configuration with a negative number of levels: the root is built
    childless. *)
Definition leafOptions : ICDLODOptions :=
  mkOptions 2000 200 (Some 25) (Some (-1)%Z) None None None.

(** A terrain that is taller than half its side. *)
Definition tallOptions : ICDLODOptions :=
  mkOptions 100 200 (Some 25) (Some 1%Z) None None None.

(** A camera at height 150 whose view volume is the box
    [-1000, 1000] x [60, 1000] x [-1000, 1000]. *)
Definition highCamera : FreeCamera :=
  mkCamera (Vector3.mk 0 150 0)
    [ Plane.mk (Vector3.mk 1 0 0) 1000; Plane.mk (Vector3.mk (-1) 0 0) 1000;
      Plane.mk (Vector3.mk 0 1 0) (-60); Plane.mk (Vector3.mk 0 (-1) 0) 1000;
      Plane.mk (Vector3.mk 0 0 1) 1000; Plane.mk (Vector3.mk 0 0 (-1)) 1000 ]
    0%nat.

(** The six planes of a frustum that is the cube of half side [r] around
    the origin (an orthographic view volume); normals point inwards. *)
Definition cubeFrustum (r : Q) : list Plane.t :=
  [ Plane.mk (Vector3.mk 1 0 0) r; Plane.mk (Vector3.mk (-1) 0 0) r;
    Plane.mk (Vector3.mk 0 1 0) r; Plane.mk (Vector3.mk 0 (-1) 0) r;
    Plane.mk (Vector3.mk 0 0 1) r; Plane.mk (Vector3.mk 0 0 (-1)) r ].

(** A camera at [(x, y, z)] that sees the cube of half side 100000 and
    whose position is the object at [r]. *)
Definition cameraAtObject (r : Loc) (x y z : Q) : FreeCamera :=
  mkCamera (Vector3.mk x y z) (cubeFrustum 100000) r.

(** The same with the position object at address 0: two such cameras
    are one camera that has moved in place. *)
Definition cameraAt (x y z : Q) : FreeCamera := cameraAtObject 0 x y z.

(** What the shader receives as [cameraPosition] when a mesh with the
    material [mat] is drawn: the content that the object kept by
    [setVector3] has in the heap at that time. *)
Definition cameraPositionRead (heap : gmap Loc Vector3.t) (mat : ShaderMaterial)
  : option Vector3.t :=
  match u_cameraPosition mat with
  | Some r => heap !! r
  | None => None
  end.

(** The heap holds the camera's position object with the content the
    camera shows. *)
Definition cameraInHeap (heap : gmap Loc Vector3.t) (camera : FreeCamera) : Prop :=
  heap !! positionRef camera = Some (position camera).

(** The heap after [camera.position = new Vector3(0, 9500, 0)] on a
    camera that was at (0, 9000, 0): the new vector at address 1, and the
    vector the camera had before, untouched, at address 0. *)
Definition heapAfterReplacement : gmap Loc Vector3.t :=
  <[1%nat := Vector3.mk 0 9500 0]> (<[0%nat := Vector3.mk 0 9000 0]> ∅).

(** ** The rest of the shaders *)

(** GLSL [mat4], stored by columns, and [m * v] for a [vec4]. *)
Record Mat4 : Type := mkMat4 { col0 : Vector4; col1 : Vector4; col2 : Vector4; col3 : Vector4 }.

Definition mulMat4 (m : Mat4) (v : Vector4) : Vector4 :=
  mkVector4
    (v4x (col0 m) * v4x v + v4x (col1 m) * v4y v + v4x (col2 m) * v4z v + v4x (col3 m) * v4w v)
    (v4y (col0 m) * v4x v + v4y (col1 m) * v4y v + v4y (col2 m) * v4z v + v4y (col3 m) * v4w v)
    (v4z (col0 m) * v4x v + v4z (col1 m) * v4y v + v4z (col2 m) * v4z v + v4z (col3 m) * v4w v)
    (v4w (col0 m) * v4x v + v4w (col1 m) * v4y v + v4w (col2 m) * v4z v + v4w (col3 m) * v4w v).

(** GLSL [fract(x)] is [x - floor(x)]. *)
Definition fract (x : Q) : Q := x - inject_Z (Qfloor x).

(** GLSL [mix(x, y, a)] is [x * (1 - a) + y * a]. *)
Definition mix (x y a : Q) : Q := x * (1 - a) + y * a.

(** Equality of the numbers held by two vectors. *)
Definition Vector2_eq (a b : Vector2) : Prop := v2x a == v2x b /\ v2y a == v2y b.

Definition Vector4_eq (a b : Vector4) : Prop :=
  v4x a == v4x b /\ v4y a == v4y b /\ v4z a == v4z b /\ v4w a == v4w b.

Module TerrainVertexMain.
(** The attributes of a vertex. *)
Record Attributes : Type := mkAttributes { position : Vector3.t; uv : Vector2 }.

(** The uniforms of the vertex shader.  [heightMap] gives the red channel
    that [texture2D(heightMap, .)] samples. *)
Record Uniforms : Type := mkUniforms {
  worldViewProjection : Mat4;
  world : Mat4;
  heightMap : Vector2 -> Q;
  terrainHeight : Q;
  terrainSize : Q;
  uvOffset : Vector2;
  uvScale : Vector2;
  mesh_dim : Q;
  lodLevel : Q;
  lodRangesLUT : list Q;
  cameraPosition : Vector3.t
}.

(** What the shader writes. *)
Record Outputs : Type := mkOutputs { gl_Position : Vector4; vUV : Vector2; vFraction : Vector2 }.

(** [morphVertex(vertexXZ, uvCoord, morph)]. *)
Definition morphVertex (mesh_dim : Q) (vertexXZ uvCoord : Vector2) (morph : Q) : Vector2 :=
  let frac :=
    mkVector2 (fract (v2x uvCoord * mesh_dim * (1 # 2)) * 2 / mesh_dim)
              (fract (v2y uvCoord * mesh_dim * (1 # 2)) * 2 / mesh_dim) in
  mkVector2 (v2x vertexXZ - v2x frac * morph) (v2y vertexXZ - v2y frac * morph).

Section Main.
(** The GLSL built-in [distance(p0, p1)].  It takes a square root, which
    the rationals do not have, so the built-in is a parameter. *)
Variable distance : Vector3.t -> Vector3.t -> Q.

(** [main()] of the vertex shader; [None] when [getMorphValue] reads
    outside the declared bounds of [lodRangesLUT]. *)
Definition main (u : Uniforms) (a : Attributes) : option Outputs :=
  let uvFine :=
    mkVector2 (v2x (uv a) * v2x (uvScale u) + v2x (uvOffset u))
              (v2y (uv a) * v2y (uvScale u) + v2y (uvOffset u)) in
  let frac :=
    mkVector2 (fract (v2x (uv a) * (mesh_dim u * (1 # 2))) / (mesh_dim u * (1 # 2)))
              (fract (v2y (uv a) * (mesh_dim u * (1 # 2))) / (mesh_dim u * (1 # 2))) in
  let uvCoarse :=
    mkVector2 ((v2x (uv a) - v2x frac) * v2x (uvScale u) + v2x (uvOffset u))
              ((v2y (uv a) - v2y frac) * v2y (uvScale u) + v2y (uvOffset u)) in
  let fineH := heightMap u uvFine * terrainHeight u in
  let coarseH := heightMap u uvCoarse * terrainHeight u in
  let localPos := Vector3.mk (Vector3.x (position a)) fineH (Vector3.z (position a)) in
  let worldPos :=
    mulMat4 (world u)
            (mkVector4 (Vector3.x localPos) (Vector3.y localPos) (Vector3.z localPos) 1) in
  let dist :=
    distance (Vector3.mk (v4x worldPos) (v4y worldPos) (v4z worldPos)) (cameraPosition u) in
  match TerrainVertexShader.getMorphValue (lodRangesLUT u) dist (lodLevel u) with
  | None => None
  | Some morphValue =>
      let finalHeight := mix fineH coarseH morphValue in
      let displacedPosition :=
        Vector3.mk (Vector3.x (position a)) finalHeight (Vector3.z (position a)) in
      let newXZ :=
        morphVertex (mesh_dim u)
                    (mkVector2 (Vector3.x displacedPosition) (Vector3.z displacedPosition))
                    (uv a) morphValue in
      let displacedPosition :=
        Vector3.mk (v2x newXZ) (Vector3.y displacedPosition) (v2y newXZ) in
      Some (mkOutputs
              (mulMat4 (worldViewProjection u)
                       (mkVector4 (Vector3.x displacedPosition) (Vector3.y displacedPosition)
                                  (Vector3.z displacedPosition) 1))
              (mkVector2 (mix (v2x uvFine) (v2x uvCoarse) morphValue)
                         (mix (v2y uvFine) (v2y uvCoarse) morphValue))
              frac)
  end.
End Main.
End TerrainVertexMain.

Module TerrainFragmentShader.
(** The uniforms of the fragment shader; a sampler is the colour that
    [texture2D] reads at a coordinate. *)
Record Uniforms : Type := mkUniforms {
  diffuseTexture : Vector2 -> Vector4;
  detailTexture : Vector2 -> Vector4;
  chunkColor : Vector4;
  mixFactor : Q;
  detailStrength : Q;
  detailScale : Q
}.

(** [main()] of the fragment shader: the value of [gl_FragColor]. *)
Definition main (u : Uniforms) (vUV : Vector2) : Vector4 :=
  let diffuseColor := diffuseTexture u vUV in
  let detailColor :=
    detailTexture u (mkVector2 (v2x vUV * detailScale u) (v2y vUV * detailScale u)) in
  let colorWithDetail :=
    mkVector4 (v4x diffuseColor * mix 1 (v4x detailColor) (detailStrength u))
              (v4y diffuseColor * mix 1 (v4y detailColor) (detailStrength u))
              (v4z diffuseColor * mix 1 (v4z detailColor) (detailStrength u))
              (v4w diffuseColor * mix 1 (v4w detailColor) (detailStrength u)) in
  mkVector4 (mix (v4x colorWithDetail) (v4x (chunkColor u)) (mixFactor u))
            (mix (v4y colorWithDetail) (v4y (chunkColor u)) (mixFactor u))
            (mix (v4z colorWithDetail) (v4z (chunkColor u)) (mixFactor u))
            (mix (v4w colorWithDetail) (v4w (chunkColor u)) (mixFactor u)).
End TerrainFragmentShader.

(** The sum of the coordinate differences.  For two points on a line
    parallel to an axis it is their Euclidean distance, which is how the
    examples use it in place of the built-in [distance]. *)
Definition axisDistance (a b : Vector3.t) : Q :=
  Qabs (Vector3.x a - Vector3.x b) + Qabs (Vector3.y a - Vector3.y b)
  + Qabs (Vector3.z a - Vector3.z b).

(** The identity matrix. *)
Definition identityMat4 : Mat4 :=
  mkMat4 (mkVector4 1 0 0 0) (mkVector4 0 1 0 0) (mkVector4 0 0 1 0) (mkVector4 0 0 0 1).

(** The map from patch coordinates to terrain texture coordinates that
    the vertex shader applies: [p * uvScale + uvOffset]. *)
Definition patchUV (u : TerrainVertexMain.Uniforms) (p : Vector2) : Vector2 :=
  mkVector2 (v2x p * v2x (TerrainVertexMain.uvScale u) + v2x (TerrainVertexMain.uvOffset u))
            (v2y p * v2y (TerrainVertexMain.uvScale u) + v2y (TerrainVertexMain.uvOffset u)).

(** The height the shader samples at a patch coordinate. *)
Definition sampledHeight (u : TerrainVertexMain.Uniforms) (p : Vector2) : Q :=
  TerrainVertexMain.heightMap u (patchUV u p) * TerrainVertexMain.terrainHeight u.

(** The distance [dist] that [main] passes to [getMorphValue]: from the
    vertex, lifted to its fine height and moved to world space, to the
    camera. *)
Definition vertexDistance (distance : Vector3.t -> Vector3.t -> Q)
           (u : TerrainVertexMain.Uniforms) (a : TerrainVertexMain.Attributes) : Q :=
  let worldPos :=
    mulMat4 (TerrainVertexMain.world u)
            (mkVector4 (Vector3.x (TerrainVertexMain.position a))
                       (sampledHeight u (TerrainVertexMain.uv a))
                       (Vector3.z (TerrainVertexMain.position a)) 1) in
  distance (Vector3.mk (v4x worldPos) (v4y worldPos) (v4z worldPos))
           (TerrainVertexMain.cameraPosition u).

(** The sampler reads the same height at coordinates that hold the same
    numbers. *)
Definition samplerRespectsEq (u : TerrainVertexMain.Uniforms) : Prop :=
  forall p q : Vector2,
    Vector2_eq p q -> TerrainVertexMain.heightMap u p == TerrainVertexMain.heightMap u q.

(** A sample vertex program state: a flat height map of height 1/2, the
    identity transforms, a patch of 16 subdivisions at level 1 of the
    range table [10; 20; 40], the camera at the origin. *)
Definition sampleUniforms : TerrainVertexMain.Uniforms :=
  TerrainVertexMain.mkUniforms identityMat4 identityMat4 (fun _ => 1 # 2) 200 2000
    (mkVector2 0 0) (mkVector2 1 1) 16 (inject_Z 1) [10; 20; 40] (Vector3.mk 0 100 0).

(** ** Further readings of the tree and of the meshes *)

(** Extent of a box along X and along Z. *)
Definition widthX (bb : BoundingBox.t) : Q :=
  Vector3.x (BoundingBox.maximum bb) - Vector3.x (BoundingBox.minimum bb).

Definition depthZ (bb : BoundingBox.t) : Q :=
  Vector3.z (BoundingBox.maximum bb) - Vector3.z (BoundingBox.minimum bb).

(** The footprint of [box] lies within the footprint of [bb], and is not
    inverted. *)
Definition footprintWithin (bb box : BoundingBox.t) : Prop :=
  Vector3.x (BoundingBox.minimum bb) <= Vector3.x (BoundingBox.minimum box)
  /\ Vector3.x (BoundingBox.minimum box) <= Vector3.x (BoundingBox.maximum box)
  /\ Vector3.x (BoundingBox.maximum box) <= Vector3.x (BoundingBox.maximum bb)
  /\ Vector3.z (BoundingBox.minimum bb) <= Vector3.z (BoundingBox.minimum box)
  /\ Vector3.z (BoundingBox.minimum box) <= Vector3.z (BoundingBox.maximum box)
  /\ Vector3.z (BoundingBox.maximum box) <= Vector3.z (BoundingBox.maximum bb).

(** The part of a [CDLOD] object, besides [staticPart], that no method
    assigns: the shader to clone, the grid resolution and the base grid. *)
Definition resourcePart (s : CDLOD.t) : ShaderMaterial * Q * Mesh :=
  (CDLOD.terrainShader s, CDLOD.subdivisions s, CDLOD.baseGrid s).

(** The addresses of the chunks for which a call of [update] creates a
    mesh: the selected chunks that have none, in the order of the draw
    list. *)
Definition createdBy (s : CDLOD.t) (camera : FreeCamera) : list Addr :=
  filter (fun a => ~ is_Some (CDLOD.meshes s !! a)) (map fst (CDLOD.selectLods s camera)).

(** The addresses of the chunks whose mesh a call of [update] disposes
    of: the chunks of the tree that are not selected and have a mesh, in
    the order of the tree walk. *)
Definition disposedBy (s : CDLOD.t) (camera : FreeCamera) : list Addr :=
  filter (fun a => (a ∉ map fst (CDLOD.selectLods s camera)) /\ is_Some (CDLOD.meshes s !! a))
         (map fst (treeRefs (CDLOD.root s))).

(** The two [clone] calls by which [updateChunkMesh] creates the mesh of
    the chunk at [a], in the order of the source. *)
Definition creationCalls (a : Addr) : list EngineCall := [Cloned a; ClonedShader a].

#[export] Instance EngineCall_eq_dec : EqDecision EngineCall.
Proof. solve_decision. Defined.

(** How often the engine log records the creation, and the disposal, of
    a mesh for the chunk at [a]. *)
Definition timesCloned (a : Addr) (log : list EngineCall) : nat :=
  length (filter (fun e => e = Cloned a) log).

Definition timesDisposed (a : Addr) (log : list EngineCall) : nat :=
  length (filter (fun e => e = Disposed a) log).

(** The render loop of [main.ts]: one [update] per frame, each with the
    camera as it is at that frame. *)
Definition runFrames (s : CDLOD.t) (cameras : list FreeCamera) : CDLOD.t :=
  fold_left CDLOD.update cameras s.

(** The debug flags of the object are in force on a mesh: its bounding
    box is shown as [showBoundingBox] says and its material is drawn in
    wireframe as [showChunk] says. *)
Definition flagsInForce (s : CDLOD.t) (m : Mesh) : Prop :=
  meshShowBoundingBox m = CDLOD.showBoundingBox s
  /\ exists mat : ShaderMaterial, material m = Some mat /\ wireframe mat = CDLOD.showChunk s.

(** The invariant behind the debug flags: the templates carry no flag,
    and every mesh on the tree carries the current ones. *)
Definition flagsInvariant (s : CDLOD.t) : Prop :=
  wireframe (CDLOD.terrainShader s) = false
  /\ meshShowBoundingBox (CDLOD.baseGrid s) = false
  /\ forall (a : Addr) (m : Mesh),
       a ∈ map fst (treeRefs (CDLOD.root s)) ->
       CDLOD.meshes s !! a = Some m -> flagsInForce s m.

(** The engine log and the meshes agree on the chunk at [a]: its mesh has
    been created as often as it has been disposed of, plus once if it has
    one now. *)
Definition lifecycleBalanced (s : CDLOD.t) (a : Addr) : Prop :=
  timesCloned a (CDLOD.engineLog s)
  = (timesDisposed a (CDLOD.engineLog s)
     + if decide (is_Some (CDLOD.meshes s !! a)) then 1 else 0)%nat.

(** A configuration whose [minLodDistance] is negative. *)
Definition negativeRangeOptions : ICDLODOptions :=
  mkOptions 2000 200 (Some (-5)) (Some 3%Z) None None None.

(** * The morph factor *)

Section MorphFactor.
Import TerrainVertexShader.

Lemma Qltb_lt (a b : Q) : Qltb a b = true <-> a < b.
Proof.
  unfold Qltb. rewrite negb_true_iff, <- not_true_iff_false, Qle_bool_iff.
  split; [apply Qnot_le_lt | apply Qlt_not_le].
Qed.

Lemma Qltb_ge (a b : Q) : Qltb a b = false <-> b <= a.
Proof. unfold Qltb. rewrite negb_false_iff. apply Qle_bool_iff. Qed.

Lemma int_inject_Z (L : Z) : int (inject_Z L) = L.
Proof. unfold int, inject_Z. simpl. apply Z.quot_1_r. Qed.

Lemma Qltb_0_inject_Z (L : Z) : Qltb 0 (inject_Z L) = (0 <? L)%Z.
Proof.
  destruct (Z.ltb_spec 0 L) as [H | H].
  - apply Qltb_lt. change 0 with (inject_Z 0). now rewrite <- Zlt_Qlt.
  - apply Qltb_ge. change 0 with (inject_Z 0). now rewrite <- Zle_Qle.
Qed.

(** On an integral level the shader reads exactly the band [bandOf]. *)
Lemma getMorphValue_band lut d L low high :
  bandOf lut L = Some (low, high) ->
  getMorphValue lut d (inject_Z L)
  = Some (clamp (((d - low) / (high - low)) / (3 # 10) - 1) 0 1).
Proof.
  unfold bandOf, getMorphValue. rewrite Qltb_0_inject_Z, int_inject_Z.
  destruct (if (0 <? L)%Z then lutRead lut (L - 1) else Some 0) as [lo |]; [| discriminate].
  destruct (lutRead lut L) as [hi |]; [| discriminate].
  intros [= -> ->]. reflexivity.
Qed.

Lemma div_three_tenths (q : Q) : q / (3 # 10) == q * (10 # 3).
Proof. unfold Qdiv. reflexivity. Qed.

Lemma clamp_bounds (q : Q) : 0 <= clamp q 0 1 <= 1.
Proof.
  unfold clamp. split.
  - apply Q.min_glb; [apply Q.le_max_r | lra].
  - apply Q.le_min_r.
Qed.

Lemma clamp_low (q : Q) : q <= 0 -> clamp q 0 1 == 0.
Proof.
  intros H. unfold clamp. rewrite (Q.max_r q 0 H). apply Q.min_l. lra.
Qed.

Lemma clamp_high (q : Q) : 1 <= q -> clamp q 0 1 == 1.
Proof.
  intros H. unfold clamp. rewrite (Q.max_l q 0) by lra. now apply Q.min_r.
Qed.

Lemma clamp_mid (q : Q) : 0 <= q <= 1 -> clamp q 0 1 == q.
Proof.
  intros [H0 H1]. unfold clamp. rewrite (Q.max_l q 0 H0). now apply Q.min_l.
Qed.

(** Position of [d] in the band, as a fraction of its width. *)
Lemma factor_le (d low high c : Q) :
  low < high -> ((d - low) / (high - low) <= c <-> d <= low + c * (high - low)).
Proof.
  intros Hlt. assert (Hpos : 0 < high - low) by lra.
  split; intros H.
  - assert (H' : d - low <= c * (high - low)); [| lra].
    assert (E : d - low == (d - low) / (high - low) * (high - low)) by (field; lra).
    rewrite E.
    apply Qmult_le_compat_r; lra.
  - apply Qle_shift_div_r; [exact Hpos | lra].
Qed.

Lemma factor_ge (d low high c : Q) :
  low < high -> (c <= (d - low) / (high - low) <-> low + c * (high - low) <= d).
Proof.
  intros Hlt. assert (Hpos : 0 < high - low) by lra.
  split; intros H.
  - assert (H' : c * (high - low) <= d - low); [| lra].
    assert (E : d - low == (d - low) / (high - low) * (high - low)) by (field; lra).
    rewrite E.
    apply Qmult_le_compat_r; lra.
  - apply Qle_shift_div_l; [exact Hpos | lra].
Qed.
End MorphFactor.

(** C4.  For every distance [d] and every band index [L] whose table
    entries [range[L]] (and [range[L-1]] when [L > 0]) are defined, the
    shader's [getMorphValue(d, L)] is exactly
    [clamp(((d - low) / (high - low)) / 0.3 - 1.0, 0.0, 1.0)] with
    [low = L > 0 ? range[L-1] : 0] and [high = range[L]]. *)
Theorem getMorphValue_formula (lut : list Q) (d : Q) (L : Z) (low high : Q) :
  bandOf lut L = Some (low, high) ->
  TerrainVertexShader.getMorphValue lut d (inject_Z L)
  = Some (morphFactorSpec d low high).
Proof.
  intros Hband. rewrite (getMorphValue_band lut d L low high Hband).
  reflexivity.
Qed.

Lemma getMorphValue_formula_witness :
  bandOf [10; 20; 40] 1 = Some (10, 20)
  /\ TerrainVertexShader.getMorphValue [10; 20; 40] 15 (inject_Z 1)
     = Some (morphFactorSpec 15 10 20).
Proof.
  split; [reflexivity |].
  apply (getMorphValue_formula [10; 20; 40] 15 1 10 20). reflexivity.
Defined.

(** C3, as the code has it.  In a band [low < high] the morph factor is 0
    for every [d <= low + 0.3 * (high - low)], grows linearly from there,
    reaches 1 at [d = low + 0.6 * (high - low)] and stays 1 from there on,
    in particular at [d = high]; it lies in [0, 1] for every [d].  So the
    morph takes place between 30% and 60% of the band, not in its outer
    30%. *)
Theorem morph_band_profile (lut : list Q) (L : Z) (low high : Q) :
  bandOf lut L = Some (low, high) ->
  low < high ->
  forall d : Q,
  exists t : Q,
    TerrainVertexShader.getMorphValue lut d (inject_Z L) = Some t
    /\ 0 <= t <= 1
    /\ (d <= low + (3 # 10) * (high - low) -> t == 0)
    /\ (low + (3 # 10) * (high - low) <= d <= low + (6 # 10) * (high - low) ->
        t == ((d - low) / (high - low)) / (3 # 10) - 1)
    /\ (low + (6 # 10) * (high - low) <= d -> t == 1)
    /\ (d == high -> t == 1).
Proof.
  intros Hband Hlt d.
  eexists. split; [apply (getMorphValue_band lut d L low high Hband) |].
  set (f := (d - low) / (high - low)).
  assert (Hdiv : f / (3 # 10) - 1 == f * (10 # 3) - 1)
    by (rewrite div_three_tenths; reflexivity).
  split; [apply clamp_bounds |].
  split; [| split; [| split]].
  - intros Hd. apply clamp_low. rewrite Hdiv.
    apply (factor_le d low high (3 # 10) Hlt) in Hd. fold f in Hd. lra.
  - intros [Hd1 Hd2]. apply clamp_mid. rewrite Hdiv.
    apply (factor_ge d low high (3 # 10) Hlt) in Hd1.
    apply (factor_le d low high (6 # 10) Hlt) in Hd2. fold f in Hd1, Hd2. lra.
  - intros Hd. apply clamp_high. rewrite Hdiv.
    apply (factor_ge d low high (6 # 10) Hlt) in Hd. fold f in Hd. lra.
  - intros Hd. apply clamp_high. rewrite Hdiv.
    assert (Hd' : low + (6 # 10) * (high - low) <= d) by lra.
    apply (factor_ge d low high (6 # 10) Hlt) in Hd'. fold f in Hd'. lra.
Qed.

Lemma morph_band_profile_witness :
  bandOf [10; 20; 40] 1 = Some (10, 20) /\ 10 < 20
  /\ exists t : Q,
       TerrainVertexShader.getMorphValue [10; 20; 40] 15 (inject_Z 1) = Some t
       /\ 0 <= t <= 1.
Proof.
  split; [reflexivity |]. split; [reflexivity |].
  destruct (morph_band_profile [10; 20; 40] 1 10 20 eq_refl eq_refl 15)
    as (t & Ht & Hb & _).
  exists t. split; [exact Ht | exact Hb].
Defined.

(** C3 as stated fails: half way through the band [10, 20) of level 1,
    which is within its inner 70%, the morph factor is 2/3, not 0. *)
Lemma morph_inner_70_counterexample :
  bandOf [10; 20; 40] 1 = Some (10, 20)
  /\ 15 <= 10 + (7 # 10) * (20 - 10)
  /\ exists t : Q,
       TerrainVertexShader.getMorphValue [10; 20; 40] 15 (inject_Z 1) = Some t
       /\ t == 2 # 3 /\ ~ t == 0.
Proof.
  split; [reflexivity |]. split; [vm_compute; discriminate |].
  eexists. split; [vm_compute; reflexivity |].
  split; [reflexivity | intros H; discriminate H].
Qed.

(** * The range table *)

Section RangeTable.
Lemma computeLodRanges_length (m : Q) (N : Z) :
  length (CDLOD.computeLodRanges m N) = Z.to_nat N.
Proof. unfold CDLOD.computeLodRanges. now rewrite length_map, length_seq. Qed.

Lemma computeLodRanges_lookup (m : Q) (N : Z) (i : nat) :
  (i < Z.to_nat N)%nat ->
  CDLOD.computeLodRanges m N !! i = Some (m * pow2 i).
Proof.
  intros Hi. unfold CDLOD.computeLodRanges.
  rewrite list_lookup_fmap, lookup_seq_lt by exact Hi. reflexivity.
Qed.

Lemma computeLodRanges_lookup_inv (m : Q) (N : Z) (i : nat) (r : Q) :
  CDLOD.computeLodRanges m N !! i = Some r ->
  (i < Z.to_nat N)%nat /\ r = m * pow2 i.
Proof.
  intros H. assert (Hi : (i < Z.to_nat N)%nat).
  { rewrite <- (computeLodRanges_length m N). eapply lookup_lt_Some, H. }
  split; [exact Hi |].
  rewrite (computeLodRanges_lookup m N i Hi) in H. now injection H.
Qed.

Lemma pow2_lt (i j : nat) : (i < j)%nat -> pow2 i < pow2 j.
Proof.
  intros Hij. unfold pow2. rewrite <- Zlt_Qlt.
  apply Z.pow_lt_mono_r; lia.
Qed.

Lemma configMinLodDistance_given (options : ICDLODOptions) (m : Q) :
  opt_minLodDistance options = Some m -> 0 < m ->
  CDLOD.configMinLodDistance options = m.
Proof.
  intros Hm Hpos. unfold CDLOD.configMinLodDistance, CDLOD.falsy. rewrite Hm.
  destruct (Qeq_bool m 0) eqn:E; [| reflexivity].
  apply Qeq_bool_iff in E. lra.
Qed.

Lemma configMinLodDistance_default (options : ICDLODOptions) :
  opt_minLodDistance options = None ->
  CDLOD.configMinLodDistance options = opt_terrainSize options / 15.
Proof.
  intros Hm. unfold CDLOD.configMinLodDistance, CDLOD.falsy. now rewrite Hm.
Qed.

(** No operation writes the tree, the range table or the other
    configuration fields. *)
Lemma updateChunkMesh_staticPart s chunk camera :
  staticPart (CDLOD.updateChunkMesh s chunk camera) = staticPart s.
Proof. unfold CDLOD.updateChunkMesh. now destruct (CDLOD.meshes s !! chunk.1). Qed.

Lemma forChildren_preserves {St A : Type} (proj : St -> A)
      (body : nat -> Chunk -> St -> St) (cs : list Chunk) :
  Forall (fun child => forall i st, proj (body i child st) = proj st) cs ->
  forall i st, proj (forChildren body cs i st) = proj st.
Proof.
  induction 1 as [| child rest Hc _ IH]; intros i st; simpl; [reflexivity |].
  now rewrite IH, Hc.
Qed.

Lemma disposeUnusedMeshes_staticPart chunk :
  forall addr renderSet s,
    staticPart (CDLOD.disposeUnusedMeshes chunk addr renderSet s) = staticPart s.
Proof.
  induction chunk as [bb l mn mx cs IH] using Chunk_ind.
  intros addr renderSet s. simpl.
  rewrite (forChildren_preserves staticPart).
  - unfold CDLOD.disposeIfUnused.
    destruct (decide (addr ∈ renderSet)); [reflexivity |].
    now destruct (CDLOD.meshes s !! addr).
  - eapply Forall_impl; [exact IH |]. intros child Hc i st. apply Hc.
Qed.

Lemma fold_updateChunkMesh_staticPart camera (l : list ChunkRef) :
  forall s,
    staticPart (fold_left (fun st chunk => CDLOD.updateChunkMesh st chunk camera) l s)
    = staticPart s.
Proof.
  induction l as [| r l IH]; intros s; simpl; [reflexivity |].
  now rewrite IH, updateChunkMesh_staticPart.
Qed.

Lemma update_staticPart s camera :
  staticPart (CDLOD.update s camera) = staticPart s.
Proof.
  unfold CDLOD.update.
  now rewrite disposeUnusedMeshes_staticPart, fold_updateChunkMesh_staticPart.
Qed.

Lemma Step_staticPart s s' : Step s s' -> staticPart s' = staticPart s.
Proof.
  destruct 1; [apply update_staticPart | apply updateChunkMesh_staticPart | | |];
    reflexivity.
Qed.

Lemma Reachable_staticPart s0 s : Reachable s0 s -> staticPart s = staticPart s0.
Proof.
  induction 1 as [| s s' _ IH Hstep]; [reflexivity |].
  now rewrite (Step_staticPart s s' Hstep).
Qed.

Lemma staticPart_fields s s' :
  staticPart s = staticPart s' ->
  CDLOD.root s = CDLOD.root s' /\ CDLOD.lodRanges s = CDLOD.lodRanges s'
  /\ CDLOD.lodLevels s = CDLOD.lodLevels s'
  /\ CDLOD.terrainSize s = CDLOD.terrainSize s'
  /\ CDLOD.terrainHeight s = CDLOD.terrainHeight s'.
Proof. unfold staticPart. intros [= -> -> -> -> ->]. repeat split. Qed.

Lemma Reachable_lodRanges s0 s :
  Reachable s0 s -> CDLOD.lodRanges s = CDLOD.lodRanges s0.
Proof. intros H. now apply Reachable_staticPart, staticPart_fields in H. Qed.
End RangeTable.

(** C7.  For a configured number [N] of LOD levels and a
    [minLodDistance] [m > 0], given in the options or, when the options
    give none, defaulted to [terrainSize / 15], the table [lodRanges]
    computed by the constructor has length [N], holds [m * 2^i] at every
    index [i < N], is strictly increasing, and is the same in every state
    the object reaches afterwards. *)
Theorem lodRanges_table (options : ICDLODOptions) (m : Q) (N : Z) :
  opt_minLodDistance options = Some m
  \/ (opt_minLodDistance options = None /\ m = opt_terrainSize options / 15) ->
  0 < m ->
  CDLOD.lodLevels (CDLOD.constructor options) = N ->
  (0 <= N)%Z ->
  Z.of_nat (length (CDLOD.lodRanges (CDLOD.constructor options))) = N
  /\ (forall i : nat, (Z.of_nat i < N)%Z ->
        CDLOD.lodRanges (CDLOD.constructor options) !! i = Some (m * pow2 i))
  /\ (forall (i j : nat) (ri rj : Q),
        (i < j)%nat ->
        CDLOD.lodRanges (CDLOD.constructor options) !! i = Some ri ->
        CDLOD.lodRanges (CDLOD.constructor options) !! j = Some rj ->
        ri < rj)
  /\ (forall s : CDLOD.t,
        Reachable (CDLOD.constructor options) s ->
        CDLOD.lodRanges s = CDLOD.lodRanges (CDLOD.constructor options)).
Proof.
  intros Hm Hpos HN Hnonneg.
  assert (Hconfig : CDLOD.configMinLodDistance options = m).
  { destruct Hm as [Hm | [Hm ->]].
    - now apply configMinLodDistance_given.
    - now apply configMinLodDistance_default. }
  assert (Hranges : CDLOD.lodRanges (CDLOD.constructor options)
                    = CDLOD.computeLodRanges m N).
  { simpl in HN. simpl. now rewrite HN, Hconfig. }
  rewrite Hranges. repeat split.
  - rewrite computeLodRanges_length. lia.
  - intros i Hi. apply computeLodRanges_lookup. lia.
  - intros i j ri rj Hij Hi Hj.
    apply computeLodRanges_lookup_inv in Hi as [_ ->].
    apply computeLodRanges_lookup_inv in Hj as [_ ->].
    pose proof (pow2_lt i j Hij) as Hp. nra.
  - intros s Hs. rewrite <- Hranges. now apply Reachable_lodRanges.
Qed.

Lemma lodRanges_table_witness :
  Z.of_nat (length (CDLOD.lodRanges (CDLOD.constructor smallOptions))) = 3%Z
  /\ CDLOD.lodRanges (CDLOD.constructor smallOptions) !! 2%nat = Some (25 * pow2 2).
Proof.
  destruct (lodRanges_table smallOptions 25 3 (or_introl eq_refl) eq_refl eq_refl)
    as (Hlen & Hget & _).
  - discriminate.
  - split; [exact Hlen | apply Hget; reflexivity].
Defined.

(** * The quadtree *)

Section Quadtree.
Lemma buildQuadtree_leaf (th : Q) (bb : BoundingBox.t) (l : Z) :
  (l < 0)%Z -> buildQuadtree th bb l = mkChunk bb 0 0 th [].
Proof.
  intros Hl. simp buildQuadtree.
  destruct (Z_lt_dec l 0) as [Hy | Hn]; [reflexivity | contradiction].
Qed.

Lemma buildQuadtree_node (th : Q) (bb : BoundingBox.t) (l : Z) :
  (0 <= l)%Z ->
  buildQuadtree th bb l
  = mkChunk bb l 0 th
            (map (fun box => buildQuadtree th box (l - 1)) (quadrantBoxes th bb)).
Proof.
  intros Hl. simp buildQuadtree.
  destruct (Z_lt_dec l 0) as [Hn | Hy]; [lia | reflexivity].
Qed.

Lemma buildQuadtree_boundingBox (th : Q) (bb : BoundingBox.t) (l : Z) :
  boundingBox (buildQuadtree th bb l) = bb.
Proof.
  destruct (Z_lt_dec l 0) as [Hl | Hl].
  - now rewrite buildQuadtree_leaf.
  - now rewrite buildQuadtree_node by lia.
Qed.

Lemma buildQuadtree_complete (n : nat) :
  forall (th : Q) (bb : BoundingBox.t) (l : Z),
    Z.to_nat (l + 1) = n -> complete n (buildQuadtree th bb l).
Proof.
  induction n as [| n IH]; intros th bb l Hn.
  - rewrite buildQuadtree_leaf by lia. reflexivity.
  - rewrite buildQuadtree_node by lia. simpl. split; [reflexivity |].
    repeat constructor; apply IH; lia.
Qed.

Lemma nodeCount_unfold (c : Chunk) :
  nodeCount c = S (list_sum (map nodeCount (children c))).
Proof. now destruct c. Qed.

Lemma complete_nodeCount (n : nat) :
  forall c : Chunk,
    complete n c -> (3 * Z.of_nat (nodeCount c) + 1 = 4 ^ (Z.of_nat n + 1))%Z.
Proof.
  induction n as [| n IH]; intros c Hc; rewrite nodeCount_unfold.
  - simpl in Hc. rewrite Hc. reflexivity.
  - destruct Hc as [Hlen Hall].
    destruct (children c) as [| c1 [| c2 [| c3 [| c4 [| c5 rest]]]]];
      try discriminate Hlen.
    inversion Hall as [| ? ? H1 Hall1]; subst.
    inversion Hall1 as [| ? ? H2 Hall2]; subst.
    inversion Hall2 as [| ? ? H3 Hall3]; subst.
    inversion Hall3 as [| ? ? H4 _]; subst.
    apply IH in H1, H2, H3, H4. simpl list_sum.
    replace (Z.of_nat (S n) + 1)%Z with (1 + (Z.of_nat n + 1))%Z by lia.
    rewrite Z.pow_add_r by lia. lia.
Qed.

Lemma complete_chunkAt (a : Addr) :
  forall (n : nat) (c c' : Chunk),
    complete n c -> chunkAt c a = Some c' ->
    (length a <= n)%nat /\ complete (n - length a) c'.
Proof.
  induction a as [| i a IH]; intros n c c' Hc Hat; simpl in Hat.
  - injection Hat as Heq. subst c'. split; [simpl; lia |].
    now replace (n - length (@nil nat))%nat with n by (simpl; lia).
  - destruct (nth_error (children c) i) as [child |] eqn:Hi; [| discriminate].
    destruct n as [| n].
    + simpl in Hc. rewrite Hc in Hi. now destruct i.
    + destruct Hc as [_ Hall].
      assert (Hchild : complete n child).
      { rewrite List.Forall_forall in Hall. apply Hall.
        eapply nth_error_In, Hi. }
      destruct (IH n child c' Hchild Hat) as [Hle Hc'].
      split; [simpl; lia | exact Hc'].
Qed.

Lemma complete_children (n : nat) (c : Chunk) :
  complete n c ->
  (length (children c) = 0%nat \/ length (children c) = 4%nat)
  /\ (children c = [] <-> n = 0%nat).
Proof.
  destruct n as [| n]; simpl.
  - intros ->. split; [now left | tauto].
  - intros [Hlen _]. split; [now right |].
    split; [intros E; rewrite E in Hlen; discriminate | discriminate].
Qed.
End Quadtree.

(** C8.  For every depth [D >= 0] the tree built by [buildQuadtree] with
    root level [D] has exactly [(4^(D+2) - 1) / 3] nodes, each of its
    nodes has no or four children, and the childless nodes are exactly
    those at depth [D + 1]. *)
Theorem buildQuadtree_shape (th : Q) (bb : BoundingBox.t) (D : Z) :
  (0 <= D)%Z ->
  Z.of_nat (nodeCount (buildQuadtree th bb D)) = ((4 ^ (D + 2) - 1) / 3)%Z
  /\ (forall (a : Addr) (c : Chunk),
        chunkAt (buildQuadtree th bb D) a = Some c ->
        length (children c) = 0%nat \/ length (children c) = 4%nat)
  /\ (forall (a : Addr) (c : Chunk),
        chunkAt (buildQuadtree th bb D) a = Some c ->
        (children c = [] <-> Z.of_nat (length a) = (D + 1)%Z)).
Proof.
  intros HD.
  pose proof (buildQuadtree_complete (Z.to_nat (D + 1)) th bb D eq_refl) as Hc.
  split; [| split].
  - pose proof (complete_nodeCount _ _ Hc) as Hn.
    replace (Z.of_nat (Z.to_nat (D + 1)) + 1)%Z with (D + 2)%Z in Hn by lia.
    rewrite <- Hn.
    replace (3 * Z.of_nat (nodeCount (buildQuadtree th bb D)) + 1 - 1)%Z
      with (Z.of_nat (nodeCount (buildQuadtree th bb D)) * 3)%Z by lia.
    now rewrite Z.div_mul.
  - intros a c Hat.
    destruct (complete_chunkAt a _ _ _ Hc Hat) as [_ Hc'].
    now apply complete_children in Hc'.
  - intros a c Hat.
    destruct (complete_chunkAt a _ _ _ Hc Hat) as [Hle Hc'].
    apply complete_children in Hc' as [_ Hiff]. rewrite Hiff. lia.
Qed.

Lemma buildQuadtree_shape_witness :
  Z.of_nat (nodeCount (buildQuadtree 10 (BoundingBox.mk (Vector3.mk 0 0 0) (Vector3.mk 8 8 8)) 1))
  = 21%Z.
Proof.
  destruct (buildQuadtree_shape 10 (BoundingBox.mk (Vector3.mk 0 0 0) (Vector3.mk 8 8 8)) 1)
    as (Hcount & _).
  - discriminate.
  - exact Hcount.
Defined.

(** * Vertical extent of the boxes *)

Section VerticalExtent.
Lemma quadrantBoxes_spansHeight (th : Q) (bb : BoundingBox.t) :
  Forall (spansHeight th) (quadrantBoxes th bb).
Proof. repeat constructor. Qed.

Lemma chunkAt_child (c : Chunk) (i : nat) (a : Addr) (c' : Chunk) :
  chunkAt c (i :: a) = Some c' ->
  exists child, nth_error (children c) i = Some child /\ chunkAt child a = Some c'.
Proof.
  simpl. destruct (nth_error (children c) i) as [child |]; [| discriminate].
  intros H. now exists child.
Qed.

Lemma buildQuadtree_child (th : Q) (bb : BoundingBox.t) (l : Z) (i : nat)
      (child : Chunk) :
  nth_error (children (buildQuadtree th bb l)) i = Some child ->
  (0 <= l)%Z
  /\ exists box, nth_error (quadrantBoxes th bb) i = Some box
                 /\ child = buildQuadtree th box (l - 1).
Proof.
  destruct (Z_lt_dec l 0) as [Hl | Hl].
  - rewrite buildQuadtree_leaf by exact Hl. now destruct i.
  - rewrite buildQuadtree_node by lia. cbn [children].
    rewrite nth_error_map.
    destruct (nth_error (quadrantBoxes th bb) i) as [box |]; [| discriminate].
    intros [= <-]. split; [lia |]. now exists box.
Qed.

Lemma buildQuadtree_spansHeight (a : Addr) :
  forall (th : Q) (bb : BoundingBox.t) (l : Z) (c : Chunk),
    chunkAt (buildQuadtree th bb l) a = Some c ->
    a <> [] ->
    spansHeight th (boundingBox c).
Proof.
  induction a as [| i a IH]; intros th bb l c Hat Hne; [contradiction |].
  apply chunkAt_child in Hat as (child & Hi & Hat).
  apply buildQuadtree_child in Hi as (_ & box & Hbox & ->).
  assert (Hspan : spansHeight th box).
  { pose proof (quadrantBoxes_spansHeight th bb) as Hall.
    rewrite List.Forall_forall in Hall. apply Hall. eapply nth_error_In, Hbox. }
  destruct a as [| j a].
  - simpl in Hat. injection Hat as Heq. subst c.
    now rewrite buildQuadtree_boundingBox.
  - eapply IH; [exact Hat | discriminate].
Qed.

Lemma root_boundingBox (options : ICDLODOptions) :
  boundingBox (CDLOD.root (CDLOD.constructor options))
  = BoundingBox.mk
      (Vector3.mk (- opt_terrainSize options * (1 # 2))
                  (- opt_terrainSize options * (1 # 2))
                  (- opt_terrainSize options * (1 # 2)))
      (Vector3.mk (opt_terrainSize options * (1 # 2))
                  (opt_terrainSize options * (1 # 2))
                  (opt_terrainSize options * (1 # 2))).
Proof. unfold CDLOD.constructor, CDLOD.root. apply buildQuadtree_boundingBox. Qed.
End VerticalExtent.

(** C6, as the code has it.  Every node of the constructed quadtree other
    than the root has a bounding box whose Y extent is exactly
    [0, terrainHeight], whatever its depth; the root keeps the box it was
    given, the cube around the origin, whose Y extent is
    [-terrainSize/2, terrainSize/2]. *)
Theorem node_y_extent (options : ICDLODOptions) (a : Addr) (c : Chunk) :
  chunkAt (CDLOD.root (CDLOD.constructor options)) a = Some c ->
  (a <> [] ->
   Vector3.y (BoundingBox.minimum (boundingBox c)) = 0
   /\ Vector3.y (BoundingBox.maximum (boundingBox c)) = opt_terrainHeight options)
  /\ (a = [] ->
      Vector3.y (BoundingBox.minimum (boundingBox c)) = - opt_terrainSize options * (1 # 2)
      /\ Vector3.y (BoundingBox.maximum (boundingBox c)) = opt_terrainSize options * (1 # 2)).
Proof.
  intros Hat. split.
  - intros Hne. unfold CDLOD.constructor, CDLOD.root in Hat.
    exact (buildQuadtree_spansHeight a _ _ _ c Hat Hne).
  - intros ->.
    change (Some (CDLOD.root (CDLOD.constructor options)) = Some c) in Hat.
    assert (Heq : c = CDLOD.root (CDLOD.constructor options)) by congruence.
    rewrite Heq, root_boundingBox. split; reflexivity.
Qed.

Lemma node_y_extent_witness :
  exists c : Chunk,
    chunkAt (CDLOD.root (CDLOD.constructor smallOptions)) [1%nat; 2%nat] = Some c
    /\ Vector3.y (BoundingBox.minimum (boundingBox c)) = 0
    /\ Vector3.y (BoundingBox.maximum (boundingBox c)) = 200.
Proof.
  eexists. split; [vm_compute; reflexivity |].
  apply (node_y_extent smallOptions [1%nat; 2%nat]).
  - vm_compute. reflexivity.
  - discriminate.
Defined.

(** C6 as stated fails at the root: with the configuration of [main.ts]
    the root box starts at height -1000, not 0. *)
Lemma root_y_extent_counterexample :
  ~ everyNodeSpansTerrainHeight (CDLOD.constructor mainOptions).
Proof.
  intros H. destruct (H [] _ eq_refl) as [Hmin _].
  rewrite root_boundingBox in Hmin. discriminate Hmin.
Qed.

(** * The selection traversal *)

Section Traversal.
Variable s : CDLOD.t.
Variable camera : FreeCamera.

Lemma traverse_unfold (c : Chunk) (addr : Addr) (l : Z) (dl : list ChunkRef) :
  CDLOD.traverseAndSelect s c addr l camera dl
  = if negb (frustumIntersect c (frustumPlanes camera)) then dl
    else if negb (CDLOD.isChunkWithinLodRange s c camera l) then dl ++ [(addr, c)]
         else forChildren
                (fun i child dl' =>
                   CDLOD.traverseAndSelect s child (addr ++ [i]) (l - 1) camera dl')
                (children c) 0%nat dl.
Proof. now destruct c. Qed.

Lemma shift_shift (addr : Addr) (i : nat) (r : ChunkRef) :
  shift addr (shift [i] r) = shift (addr ++ [i]) r.
Proof. unfold shift. simpl. now rewrite <- app_assoc. Qed.

Lemma shift_nil (r : ChunkRef) : shift [] r = r.
Proof. now destruct r. Qed.

Lemma map_shift_nil (l : list ChunkRef) : map (shift []) l = l.
Proof.
  induction l as [| r l IH]; simpl; [reflexivity |].
  now rewrite shift_nil, IH.
Qed.

Lemma forChildren_traverse (addr : Addr) (l : Z) (cs : list Chunk) :
  Forall (fun child =>
            forall addr' dl,
              CDLOD.traverseAndSelect s child addr' (l - 1) camera dl
              = dl ++ map (shift addr') (selection s camera child (l - 1))) cs ->
  forall i dl,
    forChildren
      (fun i child dl' =>
         CDLOD.traverseAndSelect s child (addr ++ [i]) (l - 1) camera dl') cs i dl
    = dl ++ map (shift addr)
                (belowRefs (fun child => selection s camera child (l - 1)) cs i).
Proof.
  induction 1 as [| child rest Hc _ IH]; intros i dl; simpl.
  - now rewrite app_nil_r.
  - rewrite IH, Hc, map_app, map_map, <- app_assoc.
    f_equal. f_equal. apply map_ext. intros r. now rewrite shift_shift.
Qed.

(** A call appends to the draw list, and what it appends does not
    depend on the list or on the address other than by re-addressing. *)
Lemma traverse_shift (c : Chunk) :
  forall addr l dl,
    CDLOD.traverseAndSelect s c addr l camera dl
    = dl ++ map (shift addr) (selection s camera c l).
Proof.
  induction c as [bb lv mn mx cs IH] using Chunk_ind. intros addr l dl.
  unfold selection. rewrite !traverse_unfold. cbn [children].
  destruct (negb (frustumIntersect _ _)); [now rewrite app_nil_r |].
  destruct (negb (CDLOD.isChunkWithinLodRange _ _ _ _)).
  - simpl. unfold shift. simpl. now rewrite app_nil_r.
  - assert (IH' : Forall (fun child =>
              forall addr' dl,
                CDLOD.traverseAndSelect s child addr' (l - 1) camera dl
                = dl ++ map (shift addr') (selection s camera child (l - 1))) cs).
    { eapply Forall_impl; [exact IH |]. intros child Hc addr' dl'. apply Hc. }
    rewrite (forChildren_traverse addr l cs IH').
    rewrite (forChildren_traverse [] l cs IH'). simpl.
    now rewrite map_shift_nil.
Qed.

Lemma selection_unfold (c : Chunk) (l : Z) :
  selection s camera c l
  = if negb (frustumIntersect c (frustumPlanes camera)) then []
    else if negb (CDLOD.isChunkWithinLodRange s c camera l) then [([], c)]
         else belowRefs (fun child => selection s camera child (l - 1)) (children c) 0%nat.
Proof.
  unfold selection at 1. rewrite traverse_unfold.
  destruct (negb (frustumIntersect _ _)); [reflexivity |].
  destruct (negb (CDLOD.isChunkWithinLodRange _ _ _ _)); [reflexivity |].
  rewrite (forChildren_traverse [] l).
  - simpl. now rewrite map_shift_nil.
  - apply List.Forall_forall. intros child _ addr' dl. apply traverse_shift.
Qed.

Lemma selectLods_selection :
  CDLOD.selectLods s camera = selection s camera (CDLOD.root s) (CDLOD.lodLevels s - 1).
Proof. reflexivity. Qed.
End Traversal.

Section SelectionMembers.
Variable s : CDLOD.t.
Variable camera : FreeCamera.

Lemma elem_of_belowRefs (f : Chunk -> list ChunkRef) (cs : list Chunk) :
  forall (i : nat) (r : ChunkRef),
    r ∈ belowRefs f cs i
    <-> exists k child r',
          nth_error cs k = Some child /\ r' ∈ f child
          /\ r = ((i + k)%nat :: r'.1, r'.2).
Proof.
  induction cs as [| c rest IH]; intros i r; simpl.
  - split; [intros H; inversion H |].
    intros (k & child & r' & Hk & _). now destruct k.
  - rewrite elem_of_app, list_elem_of_fmap, IH. split.
    + intros [(r' & -> & Hr') | (k & child & r' & Hk & Hr' & ->)].
      * exists 0%nat, c, r'. rewrite Nat.add_0_r. now repeat split.
      * exists (S k), child, r'. rewrite Nat.add_succ_r. now repeat split.
    + intros (k & child & r' & Hk & Hr' & ->). destruct k as [| k].
      * left. injection Hk as <-. exists r'. rewrite Nat.add_0_r. now split.
      * right. exists k, child, r'. rewrite Nat.add_succ_r. now repeat split.
Qed.

(** The draw list holds exactly the nodes that [Selects] describes. *)
Lemma selection_Selects (c : Chunk) :
  forall (l : Z) (rel : Addr) (c' : Chunk),
    (rel, c') ∈ selection s camera c l <-> Selects s camera c l rel c'.
Proof.
  induction c as [bb lv mn mx cs IH] using Chunk_ind. intros l rel c'.
  rewrite selection_unfold. cbn [children].
  set (c := mkChunk bb lv mn mx cs).
  destruct (frustumIntersect c (frustumPlanes camera)) eqn:Hf; simpl.
  2:{ split; [intros H; inversion H |].
      intros H. inversion H; subst; congruence. }
  destruct (CDLOD.isChunkWithinLodRange s c camera l) eqn:Hw; simpl.
  - rewrite elem_of_belowRefs. split.
    + intros (k & child & r' & Hk & Hr' & Heq). injection Heq as -> ->.
      rewrite List.Forall_forall in IH.
      apply (selects_below s camera c l k child); try assumption.
      apply (IH child (nth_error_In _ _ Hk)). now destruct r'.
    + intros H.
      inversion H as [| ? ? i child rel' ? Hf' Hw' Hn Hs]; subst; [congruence |].
      exists i, child, (rel', c'). repeat split; [exact Hn |].
      rewrite List.Forall_forall in IH.
      apply (IH child (nth_error_In _ _ Hn)). exact Hs.
  - rewrite list_elem_of_singleton. split.
    + intros [= -> ->]. now apply selects_here.
    + intros H. inversion H; subst; [reflexivity | congruence].
Qed.

Lemma belowRefs_head (f : Chunk -> list ChunkRef) (cs : list Chunk) (i : nat)
      (a : Addr) :
  a ∈ map fst (belowRefs f cs i) -> exists k t, a = (i + k)%nat :: t.
Proof.
  rewrite list_elem_of_fmap. intros (r & -> & Hr).
  apply elem_of_belowRefs in Hr as (k & child & r' & _ & _ & ->).
  now exists k, r'.1.
Qed.

Lemma NoDup_belowRefs (f : Chunk -> list ChunkRef) (cs : list Chunk) :
  Forall (fun child => NoDup (map fst (f child))) cs ->
  forall i, NoDup (map fst (belowRefs f cs i)).
Proof.
  induction 1 as [| c rest Hc _ IH]; intros i; [constructor |].
  change (belowRefs f (c :: rest) i)
    with (map (shift [i]) (f c) ++ belowRefs f rest (S i)).
  assert (E : map fst (map (shift [i]) (f c)) = map (cons i) (map fst (f c)))
    by (rewrite !map_map; reflexivity).
  rewrite map_app, E. apply NoDup_app. split; [| split].
  - apply (NoDup_fmap_2 (cons i)), Hc.
  - intros a Ha Hb.
    apply list_elem_of_fmap in Ha as (r & -> & _).
    apply belowRefs_head in Hb as (k & t & Heq).
    simpl in Heq. injection Heq as Heq _. lia.
  - apply IH.
Qed.

(** No chunk is put on the draw list twice. *)
Lemma NoDup_selection (c : Chunk) :
  forall l, NoDup (map fst (selection s camera c l)).
Proof.
  induction c as [bb lv mn mx cs IH] using Chunk_ind. intros l.
  rewrite selection_unfold. cbn [children].
  destruct (negb (frustumIntersect _ _)); [constructor |].
  destruct (negb (CDLOD.isChunkWithinLodRange _ _ _ _)).
  - simpl. apply NoDup_singleton.
  - apply NoDup_belowRefs. eapply Forall_impl; [exact IH |].
    intros child Hc. apply Hc.
Qed.
End SelectionMembers.

(** * Constructed trees and the band of a visited node *)

Section Bands.
Variable s : CDLOD.t.
Variable camera : FreeCamera.

Lemma DistanceLt_false (a b : Vector3.t) (r : Q) :
  Vector3.DistanceLt a b r = false <-> DistanceGe a b r.
Proof.
  unfold Vector3.DistanceLt, DistanceGe.
  rewrite andb_false_iff, !Qltb_ge. reflexivity.
Qed.

Lemma within_negative (c : Chunk) (l : Z) :
  (l < 0)%Z -> CDLOD.isChunkWithinLodRange s c camera l = false.
Proof.
  intros Hl. unfold CDLOD.isChunkWithinLodRange.
  destruct (Z.ltb_spec l 0); [reflexivity | lia].
Qed.

Lemma within_band (c : Chunk) (l : Z) :
  CDLOD.isChunkWithinLodRange s c camera l = true -> (0 <= l)%Z.
Proof.
  intros Hw. destruct (Z_lt_dec l 0) as [Hl | Hl]; [| lia].
  rewrite (within_negative c l Hl) in Hw. discriminate.
Qed.

Lemma rangeReached_not_within (c : Chunk) (l : Z) :
  rangeReached s c camera l -> CDLOD.isChunkWithinLodRange s c camera l = false.
Proof.
  intros (r & Hl & Hr & Hge). unfold CDLOD.isChunkWithinLodRange.
  destruct (Z.ltb_spec l 0); [reflexivity |].
  rewrite Hr. now apply DistanceLt_false.
Qed.

(** In a constructed tree the band of a call stays at the same offset
    from the level the visited node was built with. *)
Lemma Visits_built (th : Q) (c : Chunk) (l : Z) (rel : Addr) (c' : Chunk) (l' : Z) :
  Visits s camera c l rel c' l' ->
  forall bb lev,
    c = buildQuadtree th bb lev ->
    exists bb' lev', c' = buildQuadtree th bb' lev' /\ (l' - lev' = l - lev)%Z.
Proof.
  induction 1 as [c l | c l i child rel c' l' Hf Hw Hi _ IH]; intros bb lev Hc.
  - now exists bb, lev.
  - subst c. apply buildQuadtree_child in Hi as (_ & box & _ & Hchild).
    destruct (IH box (lev - 1)%Z Hchild) as (bb' & lev' & Hc' & Hoff).
    exists bb', lev'. split; [exact Hc' | lia].
Qed.

Lemma Visits_Selects (c : Chunk) (l : Z) (rel : Addr) (c' : Chunk) (l' : Z) :
  Visits s camera c l rel c' l' ->
  forall rel' c'',
    Selects s camera c' l' rel' c'' -> Selects s camera c l (rel ++ rel') c''.
Proof.
  induction 1 as [c l | c l i child rel c' l' Hf Hw Hi _ IH]; intros rel' c'' Hs.
  - exact Hs.
  - simpl. eapply selects_below; eauto.
Qed.

Lemma buildQuadtree_childless (th : Q) (bb : BoundingBox.t) (lev : Z) :
  children (buildQuadtree th bb lev) = [] -> (lev < 0)%Z.
Proof.
  intros Hc. destruct (Z_lt_dec lev 0) as [Hl | Hl]; [exact Hl |].
  rewrite buildQuadtree_node in Hc by lia. discriminate Hc.
Qed.
End Bands.

Lemma Reachable_root (options : ICDLODOptions) (s : CDLOD.t) :
  Reachable (CDLOD.constructor options) s ->
  CDLOD.root s
  = buildQuadtree (CDLOD.terrainHeight s) (CDLOD.terrainBoundingBox (CDLOD.terrainSize s))
                  (CDLOD.lodLevels s).
Proof.
  intros H. apply Reachable_staticPart, staticPart_fields in H
    as (-> & _ & -> & -> & ->).
  reflexivity.
Qed.

(** C5.  In the traversal that [selectLods] runs, every visited node that
    passes the frustum test and either lies at a distance of at least
    [range[band]] from the camera or has no children is appended to the
    draw list, and the call on it does nothing else: the recursion stops
    there. *)
Theorem visited_node_selected (options : ICDLODOptions) (s : CDLOD.t)
        (camera : FreeCamera) (rel : Addr) (c : Chunk) (l : Z) :
  Reachable (CDLOD.constructor options) s ->
  Visits s camera (CDLOD.root s) (CDLOD.lodLevels s - 1) rel c l ->
  frustumIntersect c (frustumPlanes camera) = true ->
  rangeReached s c camera l \/ children c = [] ->
  (rel, c) ∈ CDLOD.selectLods s camera
  /\ forall drawList : list ChunkRef,
       CDLOD.traverseAndSelect s c rel l camera drawList = drawList ++ [(rel, c)].
Proof.
  intros Hreach Hvisit Hfrustum Hstop.
  assert (Hout : CDLOD.isChunkWithinLodRange s c camera l = false).
  { destruct Hstop as [Hrange | Hleaf].
    - now apply rangeReached_not_within.
    - destruct (Visits_built s camera (CDLOD.terrainHeight s) _ _ _ _ _ Hvisit
                  _ _ (Reachable_root options s Hreach))
        as (bb' & lev' & -> & Hoff).
      apply buildQuadtree_childless in Hleaf. apply within_negative. lia. }
  split.
  - rewrite selectLods_selection. apply selection_Selects.
    rewrite <- (app_nil_r rel).
    apply (Visits_Selects s camera _ _ _ _ _ Hvisit).
    now apply selects_here.
  - intros drawList. rewrite traverse_unfold, Hfrustum, Hout. reflexivity.
Qed.

Lemma visited_node_selected_witness :
  (([], CDLOD.root (CDLOD.constructor smallOptions))
     ∈ CDLOD.selectLods (CDLOD.constructor smallOptions) (cameraAt 0 9000 0)
   /\ CDLOD.traverseAndSelect (CDLOD.constructor smallOptions)
        (CDLOD.root (CDLOD.constructor smallOptions)) [] 2 (cameraAt 0 9000 0) []
      = [([], CDLOD.root (CDLOD.constructor smallOptions))])
  /\ ([], CDLOD.root (CDLOD.constructor leafOptions))
       ∈ CDLOD.selectLods (CDLOD.constructor leafOptions) (cameraAt 0 50 0).
Proof.
  split.
  - destruct (visited_node_selected smallOptions (CDLOD.constructor smallOptions)
                (cameraAt 0 9000 0) [] (CDLOD.root (CDLOD.constructor smallOptions)) 2)
      as [Hin Hstop].
    + apply reach_init.
    + apply visits_here.
    + unfold frustumIntersect. rewrite root_boundingBox. vm_compute. reflexivity.
    + left. exists (25 * pow2 2). split; [lia |]. split; [reflexivity |].
      right. rewrite root_boundingBox. vm_compute. discriminate.
    + split; [exact Hin | exact (Hstop [])].
  - apply (visited_node_selected leafOptions (CDLOD.constructor leafOptions)
             (cameraAt 0 50 0) [] (CDLOD.root (CDLOD.constructor leafOptions)) (-2)).
    + apply reach_init.
    + apply visits_here.
    + unfold frustumIntersect. rewrite root_boundingBox. vm_compute. reflexivity.
    + right. vm_compute. reflexivity.
Defined.

(** * Geometry of the quadrants *)

Section Geometry.
Lemma half_sum (a b : Q) : (a + b) / 2 == (a + b) * (1 # 2).
Proof. unfold Qdiv. reflexivity. Qed.

Lemma Qle_bool_false (a b : Q) : Qle_bool a b = false -> b < a.
Proof.
  intros E. apply Qnot_le_lt. intros H. apply Qle_bool_iff in H. congruence.
Qed.

(** Along one axis the positive vertex is at least as far along the
    normal as any point between the two faces. *)
Lemma positive_coordinate (n p lo hi : Q) :
  lo <= p <= hi -> n * p <= n * (if Qle_bool 0 n then hi else lo).
Proof.
  intros [Hlo Hhi]. destruct (Qle_bool 0 n) eqn:E.
  - apply Qle_bool_iff in E. nra.
  - apply Qle_bool_false in E. nra.
Qed.

(** A box is kept by the frustum test whenever it holds a point that is
    inside the frustum. *)
Lemma isInFrustum_conservative (bb : BoundingBox.t) (planes : list Plane.t)
      (p : Vector3.t) :
  boxContains bb p -> inFrustum planes p ->
  BoundingBox.isInFrustum bb planes = true.
Proof.
  intros (Hx & Hy & Hz) Hin. unfold BoundingBox.isInFrustum.
  apply forallb_forall. intros pl Hpl.
  unfold inFrustum in Hin. rewrite List.Forall_forall in Hin.
  specialize (Hin pl Hpl). apply Qle_bool_iff.
  unfold Plane.dotCoordinate in *. unfold BoundingBox.positiveVertex.
  cbn [Vector3.x Vector3.y Vector3.z].
  pose proof (positive_coordinate (Vector3.x (Plane.normal pl)) _ _ _ Hx) as Ex.
  pose proof (positive_coordinate (Vector3.y (Plane.normal pl)) _ _ _ Hy) as Ey.
  pose proof (positive_coordinate (Vector3.z (Plane.normal pl)) _ _ _ Hz) as Ez.
  lra.
Qed.

(** The quadrants of a box: where they lie within it. *)
Lemma quadrantBoxes_nth (th : Q) (bb : BoundingBox.t) (i : nat) (box : BoundingBox.t) :
  nth_error (quadrantBoxes th bb) i = Some box ->
  (i < 4)%nat
  /\ Vector3.x (BoundingBox.minimum box)
     = (if Nat.even i then Vector3.x (BoundingBox.minimum bb)
        else Vector3.x (BoundingBox.center bb))
  /\ Vector3.x (BoundingBox.maximum box)
     = (if Nat.even i then Vector3.x (BoundingBox.center bb)
        else Vector3.x (BoundingBox.maximum bb))
  /\ Vector3.z (BoundingBox.minimum box)
     = (if (i <? 2)%nat then Vector3.z (BoundingBox.minimum bb)
        else Vector3.z (BoundingBox.center bb))
  /\ Vector3.z (BoundingBox.maximum box)
     = (if (i <? 2)%nat then Vector3.z (BoundingBox.center bb)
        else Vector3.z (BoundingBox.maximum bb))
  /\ Vector3.y (BoundingBox.minimum box) = 0
  /\ Vector3.y (BoundingBox.maximum box) = th.
Proof.
  destruct i as [| [| [| [| i]]]]; simpl; intros H;
    try (injection H as <-; repeat split; simpl; lia).
  now destruct i.
Qed.

Lemma center_x (bb : BoundingBox.t) :
  Vector3.x (BoundingBox.center bb)
  == (Vector3.x (BoundingBox.minimum bb) + Vector3.x (BoundingBox.maximum bb)) * (1 # 2).
Proof. apply half_sum. Qed.

Lemma center_z (bb : BoundingBox.t) :
  Vector3.z (BoundingBox.center bb)
  == (Vector3.z (BoundingBox.minimum bb) + Vector3.z (BoundingBox.maximum bb)) * (1 # 2).
Proof. apply half_sum. Qed.

Lemma quadrant_interior_nested (th : Q) (bb : BoundingBox.t) (i : nat)
      (box : BoundingBox.t) (x z : Q) :
  nth_error (quadrantBoxes th bb) i = Some box ->
  footprintInterior box x z -> footprintInterior bb x z.
Proof.
  intros Hi. apply quadrantBoxes_nth in Hi as (_ & Ex0 & Ex1 & Ez0 & Ez1 & _).
  unfold footprintInterior. rewrite Ex0, Ex1, Ez0, Ez1.
  pose proof (center_x bb) as Hcx. pose proof (center_z bb) as Hcz.
  destruct (Nat.even i), (i <? 2)%nat; lra.
Qed.

Lemma quadrant_interiors_disjoint (th : Q) (bb : BoundingBox.t) (i j : nat)
      (bi bj : BoundingBox.t) (x z : Q) :
  nth_error (quadrantBoxes th bb) i = Some bi ->
  nth_error (quadrantBoxes th bb) j = Some bj ->
  i <> j ->
  ~ (footprintInterior bi x z /\ footprintInterior bj x z).
Proof.
  intros Hi Hj Hne.
  apply quadrantBoxes_nth in Hi as (Hi4 & Ei0 & Ei1 & Ei2 & Ei3 & _).
  apply quadrantBoxes_nth in Hj as (Hj4 & Ej0 & Ej1 & Ej2 & Ej3 & _).
  unfold footprintInterior.
  rewrite Ei0, Ei1, Ei2, Ei3, Ej0, Ej1, Ej2, Ej3.
  destruct i as [| [| [| [| i]]]]; try lia;
    destruct j as [| [| [| [| j]]]]; try lia; simpl; lra.
Qed.

Lemma quadrant_cover (th : Q) (bb : BoundingBox.t) (p : Vector3.t) :
  boxContains bb p -> 0 <= Vector3.y p <= th ->
  exists i box,
    nth_error (quadrantBoxes th bb) i = Some box /\ boxContains box p.
Proof.
  intros (Hx & _ & Hz) Hy.
  pose proof (center_x bb) as Hcx. pose proof (center_z bb) as Hcz.
  unfold BoundingBox.center in Hcx, Hcz.
  destruct (Qlt_le_dec (Vector3.x p) (Vector3.x (BoundingBox.center bb))) as [Hpx | Hpx];
    destruct (Qlt_le_dec (Vector3.z p) (Vector3.z (BoundingBox.center bb))) as [Hpz | Hpz];
    unfold BoundingBox.center in Hpx, Hpz.
  - exists 0%nat. eexists. split; [reflexivity |]. unfold boxContains.
    cbn [BoundingBox.minimum BoundingBox.maximum Vector3.x Vector3.y Vector3.z]. lra.
  - exists 2%nat. eexists. split; [reflexivity |]. unfold boxContains.
    cbn [BoundingBox.minimum BoundingBox.maximum Vector3.x Vector3.y Vector3.z]. lra.
  - exists 1%nat. eexists. split; [reflexivity |]. unfold boxContains.
    cbn [BoundingBox.minimum BoundingBox.maximum Vector3.x Vector3.y Vector3.z]. lra.
  - exists 3%nat. eexists. split; [reflexivity |]. unfold boxContains.
    cbn [BoundingBox.minimum BoundingBox.maximum Vector3.x Vector3.y Vector3.z]. lra.
Qed.
End Geometry.

(** * The selection is a disjoint cover *)

Section DisjointCover.
Variable s : CDLOD.t.
Variable camera : FreeCamera.

Lemma Selects_chunkAt (c : Chunk) (l : Z) (rel : Addr) (c' : Chunk) :
  Selects s camera c l rel c' -> chunkAt c rel = Some c'.
Proof.
  induction 1 as [c l Hf Hw | c l i child rel c' Hf Hw Hi _ IH]; simpl.
  - reflexivity.
  - now rewrite Hi.
Qed.

(** Of two selected nodes, none lies on the path from the root of the
    traversal to the other. *)
Lemma Selects_prefix_unique (c : Chunk) (l : Z) (rel1 : Addr) (c1 : Chunk) :
  Selects s camera c l rel1 c1 ->
  forall rel2 c2,
    Selects s camera c l rel2 c2 -> rel1 `prefix_of` rel2 ->
    rel1 = rel2 /\ c1 = c2.
Proof.
  induction 1 as [c l Hf Hw | c l i child rel c1 Hf Hw Hi _ IH];
    intros rel2 c2 H2 Hpre.
  - inversion H2; subst; [split; reflexivity | congruence].
  - inversion H2 as [? ? Hf2 Hw2 | ? ? j child2 rel2' ? Hf2 Hw2 Hj Hs2]; subst.
    + now apply prefix_nil_not in Hpre.
    + pose proof (prefix_cons_inv_1 _ _ _ _ Hpre) as Heq. subst j.
      apply prefix_cons_inv_2 in Hpre.
      rewrite Hi in Hj. injection Hj as Heq. subst child2.
      destruct (IH _ _ Hs2 Hpre) as [-> ->]. split; reflexivity.
Qed.

Variable th : Q.

Lemma chunkAt_interior_nested (x z : Q) (rel : Addr) :
  forall (bb : BoundingBox.t) (lev : Z) (c' : Chunk),
    chunkAt (buildQuadtree th bb lev) rel = Some c' ->
    footprintInterior (boundingBox c') x z -> footprintInterior bb x z.
Proof.
  induction rel as [| i rel IH]; intros bb lev c' Hat Hin.
  - simpl in Hat. injection Hat as Heq. subst c'.
    now rewrite buildQuadtree_boundingBox in Hin.
  - apply chunkAt_child in Hat as (child & Hi & Hat).
    apply buildQuadtree_child in Hi as (_ & box & Hbox & ->).
    eapply quadrant_interior_nested; [exact Hbox |].
    eapply IH; eauto.
Qed.

(** Two different selected nodes of a constructed tree have footprints
    with no common interior point. *)
Lemma Selects_interiors_disjoint (x z : Q) (c : Chunk) (l : Z) (rel1 : Addr)
      (c1 : Chunk) :
  Selects s camera c l rel1 c1 ->
  forall bb lev rel2 c2,
    c = buildQuadtree th bb lev ->
    Selects s camera c l rel2 c2 ->
    rel1 <> rel2 ->
    ~ (footprintInterior (boundingBox c1) x z /\ footprintInterior (boundingBox c2) x z).
Proof.
  induction 1 as [c l Hf Hw | c l i child rel c1 Hf Hw Hi Hs1 IH];
    intros bb lev rel2 c2 Hc H2 Hne.
  - inversion H2; subst; [now contradiction Hne | congruence].
  - inversion H2 as [? ? Hf2 Hw2 | ? ? j child2 rel2' ? Hf2 Hw2 Hj Hs2];
      subst; [congruence |].
    destruct (decide (i = j)) as [-> | Hij].
    + rewrite Hi in Hj. injection Hj as Heq. subst child2.
      apply buildQuadtree_child in Hi as (_ & box & _ & Hchild).
      apply (IH box (lev - 1)%Z rel2' c2 Hchild Hs2).
      intros E. apply Hne. now rewrite E.
    + apply buildQuadtree_child in Hi as (_ & bi & Hbi & ->).
      apply buildQuadtree_child in Hj as (_ & bj & Hbj & ->).
      intros [Hin1 Hin2].
      apply (quadrant_interiors_disjoint th bb i j bi bj x z Hbi Hbj Hij).
      split.
      * eapply chunkAt_interior_nested; [eapply Selects_chunkAt, Hs1 | exact Hin1].
      * eapply chunkAt_interior_nested; [eapply Selects_chunkAt, Hs2 | exact Hin2].
Qed.

Lemma buildQuadtree_nth_child (bb : BoundingBox.t) (lev : Z) (i : nat)
      (box : BoundingBox.t) :
  (0 <= lev)%Z ->
  nth_error (quadrantBoxes th bb) i = Some box ->
  nth_error (children (buildQuadtree th bb lev)) i
  = Some (buildQuadtree th box (lev - 1)).
Proof.
  intros Hlev Hbox. rewrite buildQuadtree_node by exact Hlev. cbn [children].
  now rewrite nth_error_map, Hbox.
Qed.

(** Every point of the terrain volume inside the frustum lies in the box
    of a selected node. *)
Lemma buildQuadtree_cover (p : Vector3.t) (n : nat) :
  forall (bb : BoundingBox.t) (lev : Z),
    Z.to_nat (lev + 1) = n ->
    boxContains bb p -> 0 <= Vector3.y p <= th ->
    inFrustum (frustumPlanes camera) p ->
    exists rel c',
      Selects s camera (buildQuadtree th bb lev) (lev - 1) rel c'
      /\ boxContains (boundingBox c') p.
Proof.
  induction n as [| n IH]; intros bb lev Hn Hbox Hy Hin;
    (assert (Hf : frustumIntersect (buildQuadtree th bb lev) (frustumPlanes camera) = true)
      by (unfold frustumIntersect; rewrite buildQuadtree_boundingBox;
          eapply isInFrustum_conservative; eauto));
    destruct (CDLOD.isChunkWithinLodRange s (buildQuadtree th bb lev) camera (lev - 1))
      eqn:Hw.
  - apply within_band in Hw. lia.
  - exists [], (buildQuadtree th bb lev). split; [now apply selects_here |].
    now rewrite buildQuadtree_boundingBox.
  - pose proof (within_band _ _ _ _ Hw) as Hband.
    destruct (quadrant_cover th bb p Hbox Hy) as (i & box & Hi & Hbox').
    destruct (IH box (lev - 1)%Z ltac:(lia) Hbox' Hy Hin) as (rel & c' & Hs & Hc').
    exists (i :: rel), c'. split; [| exact Hc'].
    eapply selects_below; eauto.
    apply buildQuadtree_nth_child; [lia | exact Hi].
  - exists [], (buildQuadtree th bb lev). split; [now apply selects_here |].
    now rewrite buildQuadtree_boundingBox.
Qed.

(** Along a path from the root to a childless node, all of whose nodes
    pass the frustum test, some node is selected. *)
Lemma buildQuadtree_path (a : Addr) :
  forall (bb : BoundingBox.t) (lev : Z) (leaf : Chunk),
    chunkAt (buildQuadtree th bb lev) a = Some leaf ->
    children leaf = [] ->
    (forall q c, q `prefix_of` a -> chunkAt (buildQuadtree th bb lev) q = Some c ->
                 frustumIntersect c (frustumPlanes camera) = true) ->
    exists rel c',
      Selects s camera (buildQuadtree th bb lev) (lev - 1) rel c'
      /\ rel `prefix_of` a.
Proof.
  induction a as [| i a IH]; intros bb lev leaf Hat Hleaf Hall;
    pose proof (Hall [] _ (prefix_nil _) eq_refl) as Hf;
    destruct (CDLOD.isChunkWithinLodRange s (buildQuadtree th bb lev) camera (lev - 1))
      eqn:Hw.
  - apply within_band in Hw. simpl in Hat. injection Hat as Heq. subst leaf.
    apply buildQuadtree_childless in Hleaf. lia.
  - exists [], (buildQuadtree th bb lev). split; [now apply selects_here | apply prefix_nil].
  - pose proof Hat as Hat0.
    apply chunkAt_child in Hat as (child & Hi & Hat).
    pose proof Hi as Hi0.
    apply buildQuadtree_child in Hi as (_ & box & Hbox & ->).
    destruct (IH box (lev - 1)%Z leaf Hat Hleaf) as (rel & c' & Hs & Hpre).
    { intros q c Hq Hc. apply (Hall (i :: q) c).
      - now apply prefix_cons.
      - simpl. now rewrite Hi0. }
    exists (i :: rel), c'. split; [| now apply prefix_cons].
    eapply selects_below; eauto.
  - exists [], (buildQuadtree th bb lev). split; [now apply selects_here | apply prefix_nil].
Qed.
End DisjointCover.

(** C1, as the code has it.  For any camera, the chunks returned by
    [selectLods] are pairwise distinct; the footprints of two different
    ones have no interior point in common (their boxes may share a face);
    no selected chunk lies on the path from the root to another one, and
    on a path from the root to a childless node all of whose nodes pass
    the frustum test exactly one node is selected; and every point of the
    root box at a height in [0, terrainHeight] that is inside the frustum
    lies in the box of a selected chunk. *)
Theorem selection_disjoint_cover (options : ICDLODOptions) (s : CDLOD.t)
        (camera : FreeCamera) :
  Reachable (CDLOD.constructor options) s ->
  NoDup (map fst (CDLOD.selectLods s camera))
  /\ (forall (r1 r2 : ChunkRef) (x z : Q),
        r1 ∈ CDLOD.selectLods s camera -> r2 ∈ CDLOD.selectLods s camera ->
        r1.1 <> r2.1 ->
        ~ (footprintInterior (boundingBox r1.2) x z
           /\ footprintInterior (boundingBox r2.2) x z))
  /\ (forall r1 r2 : ChunkRef,
        r1 ∈ CDLOD.selectLods s camera -> r2 ∈ CDLOD.selectLods s camera ->
        r1.1 `prefix_of` r2.1 -> r1 = r2)
  /\ (forall (a : Addr) (leaf : Chunk),
        chunkAt (CDLOD.root s) a = Some leaf ->
        children leaf = [] ->
        (forall q c, q `prefix_of` a -> chunkAt (CDLOD.root s) q = Some c ->
                     frustumIntersect c (frustumPlanes camera) = true) ->
        exists r : ChunkRef,
          r ∈ CDLOD.selectLods s camera /\ r.1 `prefix_of` a
          /\ forall r' : ChunkRef,
               r' ∈ CDLOD.selectLods s camera -> r'.1 `prefix_of` a -> r' = r)
  /\ (forall p : Vector3.t,
        boxContains (boundingBox (CDLOD.root s)) p ->
        0 <= Vector3.y p <= CDLOD.terrainHeight s ->
        inFrustum (frustumPlanes camera) p ->
        exists r : ChunkRef,
          r ∈ CDLOD.selectLods s camera /\ boxContains (boundingBox r.2) p).
Proof.
  intros Hreach. pose proof (Reachable_root options s Hreach) as Hroot.
  rewrite selectLods_selection.
  set (sel := selection s camera (CDLOD.root s) (CDLOD.lodLevels s - 1)).
  assert (Hsel : forall r : ChunkRef,
             r ∈ sel <-> Selects s camera (CDLOD.root s) (CDLOD.lodLevels s - 1) r.1 r.2).
  { intros [rel c]. apply selection_Selects. }
  assert (Hcomparable : forall r1 r2 : ChunkRef,
             r1 ∈ sel -> r2 ∈ sel -> r1.1 `prefix_of` r2.1 -> r1 = r2).
  { intros [a1 c1] [a2 c2] H1 H2 Hpre. apply Hsel in H1, H2. simpl in *.
    destruct (Selects_prefix_unique s camera _ _ _ _ H1 _ _ H2 Hpre) as [-> ->].
    reflexivity. }
  split; [apply NoDup_selection |].
  split; [| split; [exact Hcomparable | split]].
  - intros r1 r2 x z H1 H2 Hne. apply Hsel in H1, H2.
    exact (Selects_interiors_disjoint s camera (CDLOD.terrainHeight s) x z
             _ _ _ _ H1 _ _ _ _ Hroot H2 Hne).
  - intros a leaf Hat Hleaf Hall. rewrite Hroot in Hat.
    destruct (buildQuadtree_path s camera (CDLOD.terrainHeight s) a _ _ leaf Hat Hleaf)
      as (rel & c' & Hs & Hpre).
    { intros q c Hq Hc. apply (Hall q c Hq). now rewrite Hroot. }
    rewrite <- Hroot in Hs.
    exists (rel, c'). split; [now apply Hsel |]. split; [exact Hpre |].
    intros r' Hr' Hpre'.
    destruct (prefix_weak_total _ _ _ Hpre' Hpre) as [Hle | Hle].
    + apply Hcomparable; [exact Hr' | now apply Hsel | exact Hle].
    + symmetry. apply Hcomparable; [now apply Hsel | exact Hr' | exact Hle].
  - intros p Hbox Hy Hin. rewrite Hroot in Hbox.
    rewrite buildQuadtree_boundingBox in Hbox.
    destruct (buildQuadtree_cover s camera (CDLOD.terrainHeight s) p _ _
                (CDLOD.lodLevels s) eq_refl Hbox Hy Hin) as (rel & c' & Hs & Hc').
    rewrite <- Hroot in Hs.
    exists (rel, c'). split; [now apply Hsel | exact Hc'].
Qed.

Lemma selection_disjoint_cover_witness :
  NoDup (map fst (CDLOD.selectLods (CDLOD.constructor smallOptions) (cameraAt 0 50 0)))
  /\ exists r : ChunkRef,
       r ∈ CDLOD.selectLods (CDLOD.constructor smallOptions) (cameraAt 0 50 0)
       /\ boxContains (boundingBox r.2) (Vector3.mk 0 100 (-500)).
Proof.
  destruct (selection_disjoint_cover smallOptions (CDLOD.constructor smallOptions)
              (cameraAt 0 50 0) (reach_init _)) as (Hnodup & _ & _ & _ & Hcover).
  split; [exact Hnodup |].
  apply Hcover.
  - rewrite root_boundingBox. unfold boxContains. vm_compute.
    repeat split; discriminate.
  - vm_compute. split; discriminate.
  - unfold inFrustum, cameraAt, cubeFrustum. cbn [frustumPlanes].
    repeat constructor; vm_compute; discriminate.
Defined.

Lemma not_boxesDisjoint (drawList : list ChunkRef) (i j : nat) (r1 r2 : ChunkRef)
      (p : Vector3.t) :
  drawList !! i = Some r1 -> drawList !! j = Some r2 ->
  r1.1 <> r2.1 ->
  boxContains (boundingBox r1.2) p -> boxContains (boundingBox r2.2) p ->
  ~ boxesDisjoint drawList.
Proof.
  intros Hi Hj Hne H1 H2 Hdis.
  apply (Hdis r1 r2 p); [eapply list_elem_of_lookup_2, Hi
                        | eapply list_elem_of_lookup_2, Hj | exact Hne | now split].
Qed.

(** C1 as stated fails: with the camera above the centre of the terrain
    the four children of the root are selected, and the boxes of the first
    two share the face [x = 0]; the point (0, 100, -500) lies in both. *)
Lemma selected_boxes_share_face_counterexample :
  ~ boxesDisjoint (CDLOD.selectLods (CDLOD.constructor smallOptions) (cameraAt 0 50 0)).
Proof.
  eapply (not_boxesDisjoint _ 0 1 _ _ (Vector3.mk 0 100 (-500))).
  - vm_compute. reflexivity.
  - vm_compute. reflexivity.
  - vm_compute. discriminate.
  - vm_compute. repeat split; discriminate.
  - vm_compute. repeat split; discriminate.
Qed.

(** The selection of the counterexample: the four children of the root. *)
Lemma smallOptions_selection :
  map fst (CDLOD.selectLods (CDLOD.constructor smallOptions) (cameraAt 0 50 0))
  = [[0%nat]; [1%nat]; [2%nat]; [3%nat]].
Proof. vm_compute. reflexivity. Qed.

(** Why the cover is stated for points of the root box: the root box is
    the cube of side [terrainSize] around the origin, and a terrain taller
    than [terrainSize / 2] sticks out of it.  With [terrainSize = 100] and
    [terrainHeight = 200], a view volume above height 60 misses the root
    box, so nothing is selected, although the terrain point (0, 100, 0) is
    inside the view volume. *)
Lemma tall_terrain_root_culled :
  CDLOD.selectLods (CDLOD.constructor tallOptions) highCamera = []
  /\ inFrustum (frustumPlanes highCamera) (Vector3.mk 0 100 0)
  /\ 0 <= 100 <= CDLOD.terrainHeight (CDLOD.constructor tallOptions)
  /\ ~ boxContains (boundingBox (CDLOD.root (CDLOD.constructor tallOptions)))
                   (Vector3.mk 0 100 0).
Proof.
  split; [| split; [| split]].
  - rewrite selectLods_selection, selection_unfold.
    unfold frustumIntersect. rewrite root_boundingBox. reflexivity.
  - unfold inFrustum, highCamera. cbn [frustumPlanes].
    repeat constructor; vm_compute; discriminate.
  - vm_compute. split; discriminate.
  - rewrite root_boundingBox. unfold boxContains. vm_compute.
    intros (_ & [_ H] & _). now apply H.
Qed.

(** * The lifecycle of the meshes *)

Section Lifecycle.
Lemma treeRefs_unfold (c : Chunk) :
  treeRefs c = ([], c) :: belowRefs treeRefs (children c) 0%nat.
Proof. now destruct c. Qed.

Lemma treeRefs_chunkAt (a : Addr) :
  forall c c' : Chunk, chunkAt c a = Some c' -> (a, c') ∈ treeRefs c.
Proof.
  induction a as [| i a IH]; intros c c' Hat; rewrite treeRefs_unfold.
  - simpl in Hat. injection Hat as Heq. subst c'. apply list_elem_of_here.
  - apply chunkAt_child in Hat as (child & Hi & Hat).
    apply list_elem_of_further, elem_of_belowRefs.
    exists i, child, (a, c'). repeat split; [exact Hi | now apply IH].
Qed.

Lemma disposeUnusedMeshes_unfold (chunk : Chunk) (addr : Addr)
      (renderSet : gset (list nat)) (s : CDLOD.t) :
  CDLOD.disposeUnusedMeshes chunk addr renderSet s
  = forChildren
      (fun i child st => CDLOD.disposeUnusedMeshes child (addr ++ [i]) renderSet st)
      (children chunk) 0%nat (CDLOD.disposeIfUnused renderSet s addr).
Proof. now destruct chunk. Qed.

Lemma forChildren_dispose (renderSet : gset (list nat)) (addr : Addr) (cs : list Chunk) :
  Forall (fun child =>
            forall addr' st,
              CDLOD.disposeUnusedMeshes child addr' renderSet st
              = fold_left (CDLOD.disposeIfUnused renderSet)
                          (map (fun r : ChunkRef => addr' ++ r.1) (treeRefs child)) st) cs ->
  forall i st,
    forChildren
      (fun i child st' => CDLOD.disposeUnusedMeshes child (addr ++ [i]) renderSet st')
      cs i st
    = fold_left (CDLOD.disposeIfUnused renderSet)
                (map (fun r : ChunkRef => addr ++ r.1) (belowRefs treeRefs cs i)) st.
Proof.
  induction 1 as [| child rest Hc _ IH]; intros i st.
  - reflexivity.
  - change (belowRefs treeRefs (child :: rest) i)
      with (map (shift [i]) (treeRefs child) ++ belowRefs treeRefs rest (S i)).
    rewrite map_app, fold_left_app, map_map. simpl forChildren.
    rewrite IH, Hc. f_equal. f_equal. apply map_ext.
    intros r. unfold shift. simpl. now rewrite <- app_assoc.
Qed.

(** The walk of [disposeUnusedMeshes] visits the nodes of the tree one
    after the other. *)
Lemma disposeUnusedMeshes_fold (renderSet : gset (list nat)) (chunk : Chunk) :
  forall addr s,
    CDLOD.disposeUnusedMeshes chunk addr renderSet s
    = fold_left (CDLOD.disposeIfUnused renderSet)
                (map (fun r : ChunkRef => addr ++ r.1) (treeRefs chunk)) s.
Proof.
  induction chunk as [bb lv mn mx cs IH] using Chunk_ind. intros addr s.
  rewrite disposeUnusedMeshes_unfold, treeRefs_unfold. cbn [children].
  rewrite (forChildren_dispose renderSet addr cs IH).
  simpl. now rewrite app_nil_r.
Qed.

Lemma disposeIfUnused_lookup (renderSet : gset (list nat)) (s : CDLOD.t) (b a : Addr) :
  CDLOD.meshes (CDLOD.disposeIfUnused renderSet s b) !! a
  = if decide (a = b /\ a ∉ renderSet) then None else CDLOD.meshes s !! a.
Proof.
  unfold CDLOD.disposeIfUnused.
  destruct (decide (b ∈ renderSet)) as [Hb | Hb].
  - destruct (decide (a = b /\ a ∉ renderSet)) as [[-> Hn] | _]; [contradiction | reflexivity].
  - destruct (CDLOD.meshes s !! b) as [m |] eqn:Hm; simpl.
    + destruct (decide (a = b /\ a ∉ renderSet)) as [[-> _] | Hn].
      * apply lookup_delete_eq.
      * apply lookup_delete_ne. intros ->. apply Hn. now split.
    + destruct (decide (a = b /\ a ∉ renderSet)) as [[-> _] | _]; [exact Hm | reflexivity].
Qed.

Lemma fold_dispose_lookup (renderSet : gset (list nat)) (addrs : list Addr) :
  forall (s : CDLOD.t) (a : Addr),
    CDLOD.meshes (fold_left (CDLOD.disposeIfUnused renderSet) addrs s) !! a
    = if decide (a ∈ addrs /\ a ∉ renderSet) then None else CDLOD.meshes s !! a.
Proof.
  induction addrs as [| b addrs IH]; intros s a; simpl.
  - destruct (decide (a ∈ [] /\ a ∉ renderSet)) as [[H _] | _]; [inversion H | reflexivity].
  - rewrite IH, disposeIfUnused_lookup.
    destruct (decide (a ∈ addrs /\ a ∉ renderSet)) as [[Hin Hn] | H1].
    + rewrite decide_True; [reflexivity | split; [now right | exact Hn]].
    + destruct (decide (a = b /\ a ∉ renderSet)) as [[-> Hn] | H2].
      * rewrite decide_True; [reflexivity | split; [now left | exact Hn]].
      * rewrite decide_False; [reflexivity |].
        intros [Hin Hn]. apply elem_of_cons in Hin as [-> | Hin]; tauto.
Qed.

Lemma disposeIfUnused_noop (renderSet : gset (list nat)) (s : CDLOD.t) (a : Addr) :
  a ∈ renderSet \/ CDLOD.meshes s !! a = None ->
  CDLOD.disposeIfUnused renderSet s a = s.
Proof.
  intros H. unfold CDLOD.disposeIfUnused.
  destruct (decide (a ∈ renderSet)); [reflexivity |].
  destruct H as [H | H]; [contradiction | now rewrite H].
Qed.

Lemma fold_dispose_noop (renderSet : gset (list nat)) (addrs : list Addr) (s : CDLOD.t) :
  (forall a, a ∈ addrs -> a ∈ renderSet \/ CDLOD.meshes s !! a = None) ->
  fold_left (CDLOD.disposeIfUnused renderSet) addrs s = s.
Proof.
  induction addrs as [| b addrs IH]; intros H; simpl; [reflexivity |].
  rewrite disposeIfUnused_noop by (apply H; now left).
  apply IH. intros a Ha. apply H. now right.
Qed.
End Lifecycle.

Section Reconciliation.
Variable camera : FreeCamera.

Lemma forChildren_ext {St : Type} (body1 body2 : nat -> Chunk -> St -> St)
      (cs : list Chunk) :
  Forall (fun child => forall i st, body1 i child st = body2 i child st) cs ->
  forall i st, forChildren body1 cs i st = forChildren body2 cs i st.
Proof.
  induction 1 as [| child rest Hc _ IH]; intros i st; simpl; [reflexivity |].
  now rewrite Hc, IH.
Qed.

Lemma isChunkWithinLodRange_static (s s' : CDLOD.t) (c : Chunk) (l : Z) :
  CDLOD.lodRanges s = CDLOD.lodRanges s' ->
  CDLOD.isChunkWithinLodRange s c camera l = CDLOD.isChunkWithinLodRange s' c camera l.
Proof. intros H. unfold CDLOD.isChunkWithinLodRange. now rewrite H. Qed.

Lemma traverse_static (s s' : CDLOD.t) (c : Chunk) :
  CDLOD.lodRanges s = CDLOD.lodRanges s' ->
  forall addr l dl,
    CDLOD.traverseAndSelect s c addr l camera dl
    = CDLOD.traverseAndSelect s' c addr l camera dl.
Proof.
  intros Hr. induction c as [bb lv mn mx cs IH] using Chunk_ind.
  intros addr l dl. rewrite !traverse_unfold. cbn [children].
  rewrite (isChunkWithinLodRange_static s s' _ l Hr).
  destruct (negb (frustumIntersect _ _)); [reflexivity |].
  destruct (negb (CDLOD.isChunkWithinLodRange _ _ _ _)); [reflexivity |].
  apply forChildren_ext. eapply Forall_impl; [exact IH |].
  intros child Hc i st. apply Hc.
Qed.

(** The selection is a function of the static part and the camera. *)
Lemma selectLods_static (s s' : CDLOD.t) :
  staticPart s = staticPart s' ->
  CDLOD.selectLods s camera = CDLOD.selectLods s' camera.
Proof.
  intros H. apply staticPart_fields in H as (Hroot & Hr & Hl & _).
  unfold CDLOD.selectLods. rewrite Hroot, Hl. now apply traverse_static.
Qed.

Lemma updateChunkMesh_is_Some (s : CDLOD.t) (r : ChunkRef) :
  is_Some (CDLOD.meshes (CDLOD.updateChunkMesh s r camera) !! r.1).
Proof.
  unfold CDLOD.updateChunkMesh.
  destruct (CDLOD.meshes s !! r.1) as [m |] eqn:Hm.
  - rewrite Hm. now exists m.
  - simpl. rewrite lookup_insert_eq. eauto.
Qed.

Lemma updateChunkMesh_noop (s : CDLOD.t) (r : ChunkRef) :
  is_Some (CDLOD.meshes s !! r.1) -> CDLOD.updateChunkMesh s r camera = s.
Proof. intros [m Hm]. unfold CDLOD.updateChunkMesh. now rewrite Hm. Qed.

Lemma updateChunkMesh_other (s : CDLOD.t) (r : ChunkRef) (a : Addr) :
  a <> r.1 ->
  CDLOD.meshes (CDLOD.updateChunkMesh s r camera) !! a = CDLOD.meshes s !! a.
Proof.
  intros Hne. unfold CDLOD.updateChunkMesh.
  destruct (CDLOD.meshes s !! r.1); [reflexivity |].
  simpl. now rewrite lookup_insert_ne.
Qed.

(** A chunk that has a mesh keeps it, unchanged. *)
Lemma updateChunkMesh_retains (s : CDLOD.t) (r : ChunkRef) (a : Addr) :
  is_Some (CDLOD.meshes s !! a) ->
  CDLOD.meshes (CDLOD.updateChunkMesh s r camera) !! a = CDLOD.meshes s !! a.
Proof.
  intros Ha. destruct (decide (a = r.1)) as [-> | Hne].
  - now rewrite updateChunkMesh_noop.
  - now apply updateChunkMesh_other.
Qed.

Lemma fold_updateChunkMesh_retains (l : list ChunkRef) :
  forall (s : CDLOD.t) (a : Addr),
    is_Some (CDLOD.meshes s !! a) ->
    CDLOD.meshes (fold_left (fun st chunk => CDLOD.updateChunkMesh st chunk camera) l s)
      !! a
    = CDLOD.meshes s !! a.
Proof.
  induction l as [| r l IH]; intros s a Ha; simpl; [reflexivity |].
  rewrite IH; [now apply updateChunkMesh_retains |].
  now rewrite updateChunkMesh_retains.
Qed.

Lemma fold_updateChunkMesh_is_Some (l : list ChunkRef) :
  forall (s : CDLOD.t) (r : ChunkRef),
    r ∈ l ->
    is_Some (CDLOD.meshes
               (fold_left (fun st chunk => CDLOD.updateChunkMesh st chunk camera) l s)
               !! r.1).
Proof.
  induction l as [| r0 l IH]; intros s r Hr; simpl.
  - inversion Hr.
  - apply elem_of_cons in Hr as [-> | Hr]; [| now apply IH].
    rewrite fold_updateChunkMesh_retains; apply updateChunkMesh_is_Some.
Qed.

Lemma fold_updateChunkMesh_noop (l : list ChunkRef) (s : CDLOD.t) :
  (forall r, r ∈ l -> is_Some (CDLOD.meshes s !! r.1)) ->
  fold_left (fun st chunk => CDLOD.updateChunkMesh st chunk camera) l s = s.
Proof.
  induction l as [| r0 l IH]; intros H; simpl; [reflexivity |].
  rewrite updateChunkMesh_noop by (apply H; now left).
  apply IH. intros r Hr. apply H. now right.
Qed.

(** The meshes after [update]: what [update] leaves at an address. *)
Lemma update_lookup (s : CDLOD.t) (a : Addr) :
  CDLOD.meshes (CDLOD.update s camera) !! a
  = if decide (a ∈ map fst (treeRefs (CDLOD.root s))
               /\ a ∉ map fst (CDLOD.selectLods s camera))
    then None
    else CDLOD.meshes
           (fold_left (fun st chunk => CDLOD.updateChunkMesh st chunk camera)
                      (CDLOD.selectLods s camera) s) !! a.
Proof.
  unfold CDLOD.update. rewrite disposeUnusedMeshes_fold.
  change (map (fun r : list nat * Chunk => [] ++ r.1) (treeRefs (CDLOD.root s)))
    with (map fst (treeRefs (CDLOD.root s))).
  rewrite fold_dispose_lookup.
  destruct (decide (a ∈ map fst (treeRefs (CDLOD.root s))
                    /\ a ∉ map fst (CDLOD.selectLods s camera))) as [[H1 H2] | H].
  - rewrite decide_True; [reflexivity |].
    split; [exact H1 | now rewrite elem_of_list_to_set].
  - rewrite decide_False; [reflexivity |].
    intros [H1 H2]. apply H. split; [exact H1 | now rewrite elem_of_list_to_set in H2].
Qed.
End Reconciliation.

(** C9.  When [update] is invoked twice in succession with the same
    camera, the second call selects the same chunks as the first, makes no
    engine call (no instance is created, none is destroyed) and leaves the
    object as it is: every chunk selected by the second call already holds
    a mesh, so [updateChunkMesh] does nothing for it, and no chunk of the
    tree outside the selection holds a mesh. *)
Theorem update_twice (s : CDLOD.t) (camera : FreeCamera) :
  CDLOD.selectLods (CDLOD.update s camera) camera = CDLOD.selectLods s camera
  /\ CDLOD.engineLog (CDLOD.update (CDLOD.update s camera) camera)
     = CDLOD.engineLog (CDLOD.update s camera)
  /\ (forall r : ChunkRef,
        r ∈ CDLOD.selectLods (CDLOD.update s camera) camera ->
        is_Some (CDLOD.meshes (CDLOD.update s camera) !! r.1)
        /\ CDLOD.updateChunkMesh (CDLOD.update s camera) r camera = CDLOD.update s camera)
  /\ (forall (a : Addr) (c : Chunk),
        chunkAt (CDLOD.root (CDLOD.update s camera)) a = Some c ->
        a ∉ map fst (CDLOD.selectLods (CDLOD.update s camera) camera) ->
        CDLOD.meshes (CDLOD.update s camera) !! a = None)
  /\ CDLOD.update (CDLOD.update s camera) camera = CDLOD.update s camera.
Proof.
  pose proof (update_staticPart s camera) as Hstatic.
  pose proof (selectLods_static camera _ _ Hstatic) as Hsel.
  pose proof (staticPart_fields _ _ Hstatic) as (Hroot & _).
  assert (Hsome : forall r : ChunkRef,
             r ∈ CDLOD.selectLods s camera ->
             is_Some (CDLOD.meshes (CDLOD.update s camera) !! r.1)).
  { intros r Hr. rewrite update_lookup, decide_False.
    - now apply fold_updateChunkMesh_is_Some.
    - intros [_ Hn]. apply Hn. now apply (list_elem_of_fmap_2 fst). }
  assert (Hnone : forall a : Addr,
             a ∈ map fst (treeRefs (CDLOD.root s)) ->
             a ∉ map fst (CDLOD.selectLods s camera) ->
             CDLOD.meshes (CDLOD.update s camera) !! a = None).
  { intros a Ha Hn. rewrite update_lookup, decide_True; [reflexivity | now split]. }
  assert (Hidem : CDLOD.update (CDLOD.update s camera) camera = CDLOD.update s camera).
  { unfold CDLOD.update at 1. rewrite Hsel, Hroot.
    rewrite (fold_updateChunkMesh_noop camera _ _ Hsome).
    rewrite disposeUnusedMeshes_fold. apply fold_dispose_noop.
    intros a Ha.
    destruct (decide (a ∈ map fst (CDLOD.selectLods s camera))) as [Hin | Hout].
    - left. now apply elem_of_list_to_set.
    - right. now apply Hnone. }
  split; [exact Hsel |].
  split; [now rewrite Hidem |].
  split; [| split; [| exact Hidem]].
  - intros r Hr. rewrite Hsel in Hr. split; [now apply Hsome |].
    apply updateChunkMesh_noop. now apply Hsome.
  - intros a c Hat Hn. rewrite Hroot in Hat. rewrite Hsel in Hn.
    apply Hnone; [| exact Hn].
    apply (list_elem_of_fmap_2 fst _ (a, c)). now apply treeRefs_chunkAt.
Qed.

Lemma update_twice_witness :
  CDLOD.engineLog
    (CDLOD.update (CDLOD.update (CDLOD.constructor smallOptions) (cameraAt 0 50 0))
                  (cameraAt 0 50 0))
  = CDLOD.engineLog (CDLOD.update (CDLOD.constructor smallOptions) (cameraAt 0 50 0))
  /\ exists r : ChunkRef,
       CDLOD.selectLods (CDLOD.update (CDLOD.constructor smallOptions) (cameraAt 0 50 0))
                        (cameraAt 0 50 0) !! 0%nat = Some r
       /\ is_Some (CDLOD.meshes
                     (CDLOD.update (CDLOD.constructor smallOptions) (cameraAt 0 50 0))
                     !! r.1).
Proof.
  destruct (update_twice (CDLOD.constructor smallOptions) (cameraAt 0 50 0))
    as (_ & Hlog & Hheld & _).
  split; [exact Hlog |].
  eexists. split; [vm_compute; reflexivity |].
  apply Hheld. eapply list_elem_of_lookup_2 with (i := 0%nat).
  vm_compute. reflexivity.
Defined.

(** * Uniforms bound to the meshes *)

Section Uniforms.
Lemma constructor_lodRanges (options : ICDLODOptions) :
  CDLOD.lodRanges (CDLOD.constructor options)
  = CDLOD.computeLodRanges (CDLOD.configMinLodDistance options)
                           (default 7%Z (opt_lodLevels options)).
Proof. reflexivity. Qed.

Lemma buildQuadtree_lodLevel (th : Q) (bb : BoundingBox.t) (l : Z) :
  (0 <= l)%Z -> lodLevel (buildQuadtree th bb l) = l.
Proof. intros Hl. now rewrite buildQuadtree_node. Qed.

(** With the root kept by the frustum test and out of the range of the
    first band, the root alone is selected. *)
Lemma selectLods_root (s : CDLOD.t) (camera : FreeCamera) :
  frustumIntersect (CDLOD.root s) (frustumPlanes camera) = true ->
  CDLOD.isChunkWithinLodRange s (CDLOD.root s) camera (CDLOD.lodLevels s - 1) = false ->
  CDLOD.selectLods s camera = [([], CDLOD.root s)].
Proof.
  intros Hf Hw. rewrite selectLods_selection, selection_unfold, Hf, Hw. reflexivity.
Qed.

(** A mesh that exists when [update] runs and whose chunk is selected
    again is kept as it is, uniforms included. *)
Lemma update_retains_mesh (s : CDLOD.t) (camera : FreeCamera) (r : ChunkRef) (m : Mesh) :
  r ∈ CDLOD.selectLods s camera ->
  CDLOD.meshes s !! r.1 = Some m ->
  CDLOD.meshes (CDLOD.update s camera) !! r.1 = Some m.
Proof.
  intros Hr Hm. rewrite update_lookup, decide_False.
  - rewrite fold_updateChunkMesh_retains; [exact Hm | now rewrite Hm].
  - intros [_ Hn]. apply Hn. now apply (list_elem_of_fmap_2 fst).
Qed.

(** The mesh [update] creates for a selected chunk that had none. *)
Lemma update_creates_root_mesh (s : CDLOD.t) (camera : FreeCamera) :
  CDLOD.selectLods s camera = [([], CDLOD.root s)] ->
  CDLOD.meshes s !! [] = None ->
  CDLOD.meshes (CDLOD.update s camera) !! []
  = Some (CDLOD.createChunkMesh s (CDLOD.root s) camera).
Proof.
  intros Hsel Hnone. rewrite update_lookup, decide_False.
  - rewrite Hsel. simpl. unfold CDLOD.updateChunkMesh. simpl. rewrite Hnone.
    simpl. apply lookup_insert_eq.
  - rewrite Hsel. simpl. intros [_ Hn]. apply Hn. apply list_elem_of_here.
Qed.
End Uniforms.

Section FarCamera.
(** The configuration of [main.ts], seen from 9000 or 9500 above the
    centre of the terrain: the root is at least [range[6]] away, so it is
    the one chunk selected. *)
Lemma mainOptions_far_selection (h : Q) :
  h = 9000 \/ h = 9500 ->
  CDLOD.selectLods (CDLOD.constructor mainOptions) (cameraAt 0 h 0)
  = [([], CDLOD.root (CDLOD.constructor mainOptions))].
Proof.
  intros [-> | ->]; apply selectLods_root.
  - unfold frustumIntersect. rewrite root_boundingBox. lazy. reflexivity.
  - unfold CDLOD.isChunkWithinLodRange. rewrite root_boundingBox, constructor_lodRanges.
    lazy. reflexivity.
  - unfold frustumIntersect. rewrite root_boundingBox. lazy. reflexivity.
  - unfold CDLOD.isChunkWithinLodRange. rewrite root_boundingBox, constructor_lodRanges.
    lazy. reflexivity.
Qed.

(** The same for a camera whose position is any object: the selection
    reads the content of the position, not its address. *)
Lemma mainOptions_far_selection_object (r : nat) (h : Q) :
  h = 9000 \/ h = 9500 ->
  CDLOD.selectLods (CDLOD.constructor mainOptions) (cameraAtObject r 0 h 0)
  = [([], CDLOD.root (CDLOD.constructor mainOptions))].
Proof.
  intros [-> | ->]; apply selectLods_root.
  - unfold frustumIntersect. rewrite root_boundingBox. lazy. reflexivity.
  - unfold CDLOD.isChunkWithinLodRange. rewrite root_boundingBox, constructor_lodRanges.
    lazy. reflexivity.
  - unfold frustumIntersect. rewrite root_boundingBox. lazy. reflexivity.
  - unfold CDLOD.isChunkWithinLodRange. rewrite root_boundingBox, constructor_lodRanges.
    lazy. reflexivity.
Qed.

Lemma mainOptions_root_lodLevel :
  lodLevel (CDLOD.root (CDLOD.constructor mainOptions)) = 7%Z.
Proof.
  unfold CDLOD.constructor, CDLOD.root. now rewrite buildQuadtree_lodLevel.
Qed.

Lemma getMorphValue_level_7 (lut : list Q) (dist : Q) :
  TerrainVertexShader.getMorphValue lut dist (inject_Z 7) = None.
Proof. reflexivity. Qed.
End FarCamera.

(** C2 fails on the code.  Under the default [lodLevels = 7] (the
    configuration of [main.ts]) the table pushed as [lodRangesLUT] has 7
    entries while the shader declares [lodRangesLUT[NUM_LOD_LEVELS]] with
    6; and with the camera 9000 above the terrain the root is selected,
    its mesh is bound with [lodLevel = 7], and [getMorphValue] then reads
    the indices 6 and 7, both outside the declared array. *)
Theorem default_levels_overrun_range_table :
  CDLOD.lodLevels (CDLOD.constructor mainOptions) = 7%Z
  /\ length (CDLOD.lodRanges (CDLOD.constructor mainOptions)) = 7%nat
  /\ TerrainVertexShader.NUM_LOD_LEVELS = 6%Z
  /\ CDLOD.selectLods (CDLOD.constructor mainOptions) (cameraAt 0 9000 0)
     = [([], CDLOD.root (CDLOD.constructor mainOptions))]
  /\ (exists (mesh : Mesh) (mat : ShaderMaterial),
        CDLOD.meshes (CDLOD.update (CDLOD.constructor mainOptions) (cameraAt 0 9000 0)) !! []
        = Some mesh
        /\ material mesh = Some mat
        /\ u_lodLevel mat = Some (inject_Z 7)
        /\ u_lodRangesLUT mat = Some (CDLOD.lodRanges (CDLOD.constructor mainOptions)))
  /\ TerrainVertexShader.lutRead (CDLOD.lodRanges (CDLOD.constructor mainOptions)) 7 = None
  /\ TerrainVertexShader.lutRead (CDLOD.lodRanges (CDLOD.constructor mainOptions)) 6 = None
  /\ (forall dist : Q,
        TerrainVertexShader.getMorphValue
          (CDLOD.lodRanges (CDLOD.constructor mainOptions)) dist (inject_Z 7) = None).
Proof.
  pose proof (mainOptions_far_selection 9000 (or_introl eq_refl)) as Hsel.
  split; [reflexivity |].
  split; [rewrite constructor_lodRanges; reflexivity |].
  split; [reflexivity |].
  split; [exact Hsel |].
  split; [| split; [reflexivity | split; [reflexivity | intros dist; apply getMorphValue_level_7]]].
  eexists _, _. split; [apply (update_creates_root_mesh _ _ Hsel); reflexivity |].
  unfold CDLOD.createChunkMesh. cbn [material u_lodLevel u_lodRangesLUT].
  rewrite mainOptions_root_lodLevel. repeat split.
Qed.

(** C10 fails on the code.  [updateChunkMesh] sets the uniforms only when
    it creates the mesh, and [cameraPosition] is set to the object that
    [camera.position] is at that time.  With the configuration of
    [main.ts], a first [update] with the camera at height 9000 creates the
    root's mesh.  The camera is then given a new position vector, at
    height 9500, and [update] is called again: the root is still the
    selected chunk, its mesh is the one of the first call, and its
    [cameraPosition] uniform is still the first vector, so the shader
    receives (0, 9000, 0).  Had the camera moved to the same place by
    changing its vector in place, the retained mesh would read the
    current position. *)
Theorem retained_mesh_keeps_first_camera :
  (CDLOD.selectLods
     (CDLOD.update (CDLOD.update (CDLOD.constructor mainOptions) (cameraAtObject 0 0 9000 0))
                   (cameraAtObject 1 0 9500 0))
     (cameraAtObject 1 0 9500 0)
   = [([], CDLOD.root (CDLOD.constructor mainOptions))]
   /\ exists (mesh : Mesh) (mat : ShaderMaterial),
        CDLOD.meshes
          (CDLOD.update (CDLOD.update (CDLOD.constructor mainOptions)
                                      (cameraAtObject 0 0 9000 0))
                        (cameraAtObject 1 0 9500 0)) !! []
        = Some mesh
        /\ material mesh = Some mat
        /\ u_cameraPosition mat = Some (positionRef (cameraAtObject 0 0 9000 0))
        /\ cameraInHeap heapAfterReplacement (cameraAtObject 1 0 9500 0)
        /\ cameraPositionRead heapAfterReplacement mat = Some (Vector3.mk 0 9000 0)
        /\ forall heap : gmap nat Vector3.t,
             cameraInHeap heap (cameraAtObject 0 0 9000 0) ->
             cameraInHeap heap (cameraAtObject 1 0 9500 0) ->
             cameraPositionRead heap mat = Some (Vector3.mk 0 9000 0)
             /\ cameraPositionRead heap mat <> Some (position (cameraAtObject 1 0 9500 0)))
  /\ exists (mesh : Mesh) (mat : ShaderMaterial),
       CDLOD.meshes
         (CDLOD.update (CDLOD.update (CDLOD.constructor mainOptions)
                                     (cameraAtObject 0 0 9000 0))
                       (cameraAtObject 0 0 9500 0)) !! []
       = Some mesh
       /\ material mesh = Some mat
       /\ forall heap : gmap nat Vector3.t,
            cameraInHeap heap (cameraAtObject 0 0 9500 0) ->
            cameraPositionRead heap mat = Some (position (cameraAtObject 0 0 9500 0)).
Proof.
  pose proof (mainOptions_far_selection_object 0 9000 (or_introl eq_refl)) as Hsel1.
  pose proof (update_staticPart (CDLOD.constructor mainOptions) (cameraAtObject 0 0 9000 0))
    as Hst1.
  assert (Hkept : forall r : nat,
             CDLOD.selectLods
               (CDLOD.update (CDLOD.constructor mainOptions) (cameraAtObject 0 0 9000 0))
               (cameraAtObject r 0 9500 0)
             = [([], CDLOD.root (CDLOD.constructor mainOptions))]
             /\ CDLOD.meshes
                  (CDLOD.update
                     (CDLOD.update (CDLOD.constructor mainOptions) (cameraAtObject 0 0 9000 0))
                     (cameraAtObject r 0 9500 0)) !! []
                = Some (CDLOD.createChunkMesh (CDLOD.constructor mainOptions)
                          (CDLOD.root (CDLOD.constructor mainOptions))
                          (cameraAtObject 0 0 9000 0))).
  { intros r.
    pose proof (mainOptions_far_selection_object r 9500 (or_intror eq_refl)) as Hsel2.
    rewrite (selectLods_static (cameraAtObject r 0 9500 0) _ _ Hst1). split; [exact Hsel2 |].
    apply (update_retains_mesh _ (cameraAtObject r 0 9500 0)
             ([], CDLOD.root (CDLOD.constructor mainOptions))).
    - rewrite (selectLods_static (cameraAtObject r 0 9500 0) _ _ Hst1), Hsel2.
      apply list_elem_of_here.
    - apply (update_creates_root_mesh _ _ Hsel1). reflexivity. }
  split; [split |].
  - pose proof (update_staticPart
                  (CDLOD.update (CDLOD.constructor mainOptions) (cameraAtObject 0 0 9000 0))
                  (cameraAtObject 1 0 9500 0)) as Hst2.
    rewrite (selectLods_static (cameraAtObject 1 0 9500 0) _ _ Hst2).
    exact (proj1 (Hkept 1%nat)).
  - eexists _, _. split; [exact (proj2 (Hkept 1%nat)) |].
    unfold CDLOD.createChunkMesh. cbn [material].
    split; [reflexivity |]. split; [reflexivity |].
    split; [reflexivity |]. split; [reflexivity |].
    intros heap Hold _. unfold cameraPositionRead. cbn [u_cameraPosition].
    unfold cameraInHeap in Hold. rewrite Hold. split; [reflexivity | discriminate].
  - eexists _, _. split; [exact (proj2 (Hkept 0%nat)) |].
    unfold CDLOD.createChunkMesh. cbn [material].
    split; [reflexivity |].
    intros heap Hnow. unfold cameraPositionRead. cbn [u_cameraPosition]. exact Hnow.
Qed.

(** * The vertex and fragment programs *)

Section VertexProgram.
Import TerrainVertexMain.

#[export] Instance fract_comp : Proper (Qeq ==> Qeq) fract.
Proof.
  intros x y H. unfold fract.
  assert (E : Qfloor x = Qfloor y) by (apply Qfloor_comp; exact H).
  rewrite E, H. reflexivity.
Qed.

Lemma Qfloor_half (k : Z) : Qfloor (inject_Z k * (1 # 2)) = (k / 2)%Z.
Proof. unfold Qfloor, Qmult, inject_Z. simpl. now rewrite Z.mul_1_r. Qed.

Lemma fract_half_integer (k : Z) :
  fract (inject_Z k * (1 # 2)) == inject_Z (k mod 2) * (1 # 2).
Proof.
  unfold fract. rewrite Qfloor_half.
  rewrite (Z.div_mod k 2) at 1 by discriminate.
  rewrite inject_Z_plus, inject_Z_mult. change (inject_Z 2) with 2. lra.
Qed.

(** The fraction that [morphVertex] computes and the one [main] computes
    hold the same number. *)
Lemma frac_forms_agree (D c : Q) :
  ~ D == 0 ->
  fract (c * D * (1 # 2)) * 2 / D == fract (c * (D * (1 # 2))) / (D * (1 # 2)).
Proof.
  intros HD.
  assert (E : c * D * (1 # 2) == c * (D * (1 # 2))) by ring.
  rewrite E. field. intuition lra.
Qed.

Lemma frac_on_grid (D : Q) (k : Z) :
  ~ D == 0 ->
  fract (inject_Z k / D * D * (1 # 2)) * 2 / D == inject_Z (k mod 2) / D.
Proof.
  intros HD.
  assert (E : inject_Z k / D * D * (1 # 2) == inject_Z k * (1 # 2)) by (field; exact HD).
  rewrite E, fract_half_integer. field. exact HD.
Qed.

Lemma mix_between (x y t : Q) :
  0 <= t <= 1 -> Qmin x y <= mix x y t <= Qmax x y.
Proof.
  intros [H0 H1]. unfold mix.
  destruct (Q.min_spec x y) as [[Hlt Hmin] | [Hle Hmin]];
    destruct (Q.max_spec x y) as [[Hlt' Hmax] | [Hle' Hmax]];
    rewrite Hmin, Hmax; split; nra.
Qed.

Lemma mulMat4_eq (m : Mat4) (v v' : Vector4) :
  Vector4_eq v v' -> Vector4_eq (mulMat4 m v) (mulMat4 m v').
Proof.
  intros (Hx & Hy & Hz & Hw). unfold Vector4_eq, mulMat4. simpl.
  rewrite Hx, Hy, Hz, Hw. repeat split; reflexivity.
Qed.

(** [main] with the morph value made explicit. *)
Lemma main_with_morph (distance : Vector3.t -> Vector3.t -> Q) (u : Uniforms)
      (a : Attributes) (t : Q) :
  TerrainVertexShader.getMorphValue (lodRangesLUT u) (vertexDistance distance u a) (lodLevel u)
  = Some t ->
  exists out : Outputs,
    main distance u a = Some out
    /\ vFraction out
       = mkVector2 (fract (v2x (uv a) * (mesh_dim u * (1 # 2))) / (mesh_dim u * (1 # 2)))
                   (fract (v2y (uv a) * (mesh_dim u * (1 # 2))) / (mesh_dim u * (1 # 2)))
    /\ vUV out
       = mkVector2
           (mix (v2x (patchUV u (uv a)))
                (v2x (patchUV u (mkVector2 (v2x (uv a) - v2x (vFraction out))
                                           (v2y (uv a) - v2y (vFraction out))))) t)
           (mix (v2y (patchUV u (uv a)))
                (v2y (patchUV u (mkVector2 (v2x (uv a) - v2x (vFraction out))
                                           (v2y (uv a) - v2y (vFraction out))))) t)
    /\ gl_Position out
       = mulMat4 (worldViewProjection u)
           (mkVector4
              (v2x (morphVertex (mesh_dim u)
                      (mkVector2 (Vector3.x (position a)) (Vector3.z (position a))) (uv a) t))
              (mix (sampledHeight u (uv a))
                   (sampledHeight u (mkVector2 (v2x (uv a) - v2x (vFraction out))
                                               (v2y (uv a) - v2y (vFraction out)))) t)
              (v2y (morphVertex (mesh_dim u)
                      (mkVector2 (Vector3.x (position a)) (Vector3.z (position a))) (uv a) t))
              1).
Proof.
  intros Hm. unfold vertexDistance, sampledHeight, patchUV in Hm. cbv zeta in Hm.
  unfold main. cbv zeta. cbn [Vector3.x Vector3.y Vector3.z v2x v2y] in *.
  rewrite Hm. eexists. split; [reflexivity |].
  cbn [vFraction vUV gl_Position]. repeat split.
Qed.
End VertexProgram.

(** X1.  On a vertex of the patch grid, [uv = (k1 / D, k2 / D)] with
    [D = mesh_dim], [morphVertex] moves each coordinate by
    [(k mod 2) / D * morph]: a vertex with even grid index stays where it
    is for every morph value, one with odd index travels one grid step at
    full morph. *)
Theorem morphVertex_on_grid (D : Q) (k1 k2 : Z) (v : Vector2) (t : Q) :
  ~ D == 0 ->
  Vector2_eq
    (TerrainVertexMain.morphVertex D v (mkVector2 (inject_Z k1 / D) (inject_Z k2 / D)) t)
    (mkVector2 (v2x v - inject_Z (k1 mod 2) / D * t) (v2y v - inject_Z (k2 mod 2) / D * t)).
Proof.
  intros HD. unfold Vector2_eq, TerrainVertexMain.morphVertex. cbn [v2x v2y].
  now rewrite !(frac_on_grid D _ HD).
Qed.

Lemma morphVertex_on_grid_witness :
  Vector2_eq
    (TerrainVertexMain.morphVertex 16 (mkVector2 0 0)
       (mkVector2 (inject_Z 3 / 16) (inject_Z 4 / 16)) 1)
    (mkVector2 (0 - inject_Z (3 mod 2) / 16 * 1) (0 - inject_Z (4 mod 2) / 16 * 1)).
Proof. apply morphVertex_on_grid. discriminate. Defined.

(** X2.  Whenever the band of the bound level lies within the declared
    range table, [main] produces a vertex: with [t] the morph value in
    [0, 1] and [f] the fraction it writes to [vFraction], the outgoing
    texture coordinate is the patch-to-terrain map applied to [uv - f t],
    and the position is the transform of
    [(x - f.x t, h, z - f.y t)] where [h] lies between the heights sampled
    at [uv] and at [uv - f].  The position and the texture coordinate move
    by the same fraction. *)
Theorem vertex_main_consistent (distance : Vector3.t -> Vector3.t -> Q)
        (u : TerrainVertexMain.Uniforms) (a : TerrainVertexMain.Attributes)
        (L : Z) (low high : Q) :
  bandOf (TerrainVertexMain.lodRangesLUT u) L = Some (low, high) ->
  TerrainVertexMain.lodLevel u = inject_Z L ->
  ~ TerrainVertexMain.mesh_dim u == 0 ->
  exists (out : TerrainVertexMain.Outputs) (t h : Q),
    TerrainVertexMain.main distance u a = Some out
    /\ 0 <= t <= 1
    /\ Vector2_eq
         (TerrainVertexMain.vUV out)
         (patchUV u
            (mkVector2
               (v2x (TerrainVertexMain.uv a) - v2x (TerrainVertexMain.vFraction out) * t)
               (v2y (TerrainVertexMain.uv a) - v2y (TerrainVertexMain.vFraction out) * t)))
    /\ Vector4_eq
         (TerrainVertexMain.gl_Position out)
         (mulMat4 (TerrainVertexMain.worldViewProjection u)
            (mkVector4
               (Vector3.x (TerrainVertexMain.position a)
                - v2x (TerrainVertexMain.vFraction out) * t)
               h
               (Vector3.z (TerrainVertexMain.position a)
                - v2y (TerrainVertexMain.vFraction out) * t)
               1))
    /\ Qmin (sampledHeight u (TerrainVertexMain.uv a))
            (sampledHeight u
               (mkVector2
                  (v2x (TerrainVertexMain.uv a) - v2x (TerrainVertexMain.vFraction out))
                  (v2y (TerrainVertexMain.uv a) - v2y (TerrainVertexMain.vFraction out))))
       <= h
       <= Qmax (sampledHeight u (TerrainVertexMain.uv a))
               (sampledHeight u
                  (mkVector2
                     (v2x (TerrainVertexMain.uv a) - v2x (TerrainVertexMain.vFraction out))
                     (v2y (TerrainVertexMain.uv a) - v2y (TerrainVertexMain.vFraction out)))).
Proof.
  intros Hband Hlevel HD.
  pose proof (getMorphValue_band (TerrainVertexMain.lodRangesLUT u)
                (vertexDistance distance u a) L low high Hband) as Hm.
  rewrite <- Hlevel in Hm.
  destruct (main_with_morph distance u a _ Hm) as (out & Hout & Hfrac & Huv & Hpos).
  set (t := TerrainVertexShader.clamp
              ((vertexDistance distance u a - low) / (high - low) / (3 # 10) - 1) 0 1) in *.
  exists out, t. eexists. split; [exact Hout |].
  split; [apply clamp_bounds |].
  split; [| split; [| apply mix_between, clamp_bounds]].
  - rewrite Huv. unfold Vector2_eq, patchUV, mix. cbn [v2x v2y]. split; ring.
  - rewrite Hpos. apply mulMat4_eq. unfold Vector4_eq. cbn [v4x v4y v4z v4w].
    rewrite Hfrac. unfold TerrainVertexMain.morphVertex. cbn [v2x v2y].
    rewrite !(frac_forms_agree _ _ HD). repeat split; reflexivity.
Qed.

Lemma vertex_main_consistent_witness :
  exists (out : TerrainVertexMain.Outputs) (t : Q),
    TerrainVertexMain.main axisDistance sampleUniforms
      (TerrainVertexMain.mkAttributes (Vector3.mk 0 0 15) (mkVector2 (3 # 16) (1 # 2)))
    = Some out
    /\ 0 <= t <= 1
    /\ Vector2_eq
         (TerrainVertexMain.vUV out)
         (patchUV sampleUniforms
            (mkVector2 ((3 # 16) - v2x (TerrainVertexMain.vFraction out) * t)
                       ((1 # 2) - v2y (TerrainVertexMain.vFraction out) * t))).
Proof.
  destruct (vertex_main_consistent axisDistance sampleUniforms
              (TerrainVertexMain.mkAttributes (Vector3.mk 0 0 15) (mkVector2 (3 # 16) (1 # 2)))
              1 10 20 eq_refl eq_refl)
    as (out & t & h & Hout & Ht & Huv & _).
  - discriminate.
  - exists out, t. split; [exact Hout |]. split; [exact Ht | exact Huv].
Defined.

Section CoarseGrid.
Import TerrainVertexMain.

Lemma fract_integer (k : Z) : fract (inject_Z k) == 0.
Proof. unfold fract. rewrite Qfloor_Z. ring. Qed.

Lemma frac_on_coarse_grid (D : Q) (k : Z) :
  ~ D == 0 ->
  fract (inject_Z (2 * k) / D * (D * (1 # 2))) / (D * (1 # 2)) == 0.
Proof.
  intros HD.
  assert (E : inject_Z (2 * k) / D * (D * (1 # 2)) == inject_Z k).
  { rewrite inject_Z_mult. change (inject_Z 2) with 2. field. exact HD. }
  rewrite E, fract_integer. unfold Qdiv. ring.
Qed.

Lemma mix_same (x y t : Q) : y == x -> mix x y t == x.
Proof. intros H. unfold mix. rewrite H. ring. Qed.

Lemma mix_at_0 (x y t : Q) : t == 0 -> mix x y t == x.
Proof. intros H. unfold mix. rewrite H. ring. Qed.

Lemma mix_at_1 (x y t : Q) : t == 1 -> mix x y t == y.
Proof. intros H. unfold mix. rewrite H. ring. Qed.
End CoarseGrid.

(** X3.  A vertex on the coarse grid, [uv = (2 k1 / D, 2 k2 / D)] with
    [D = mesh_dim], is not touched by the morph: whatever the distance to
    the camera, [main] writes a zero fraction, the fine texture coordinate
    and the transform of the vertex at its fine height. *)
Theorem coarse_grid_vertex_fixed (distance : Vector3.t -> Vector3.t -> Q)
        (u : TerrainVertexMain.Uniforms) (a : TerrainVertexMain.Attributes)
        (L k1 k2 : Z) (low high : Q) :
  bandOf (TerrainVertexMain.lodRangesLUT u) L = Some (low, high) ->
  TerrainVertexMain.lodLevel u = inject_Z L ->
  ~ TerrainVertexMain.mesh_dim u == 0 ->
  samplerRespectsEq u ->
  TerrainVertexMain.uv a
  = mkVector2 (inject_Z (2 * k1) / TerrainVertexMain.mesh_dim u)
              (inject_Z (2 * k2) / TerrainVertexMain.mesh_dim u) ->
  exists out : TerrainVertexMain.Outputs,
    TerrainVertexMain.main distance u a = Some out
    /\ Vector2_eq (TerrainVertexMain.vFraction out) (mkVector2 0 0)
    /\ Vector2_eq (TerrainVertexMain.vUV out) (patchUV u (TerrainVertexMain.uv a))
    /\ Vector4_eq
         (TerrainVertexMain.gl_Position out)
         (mulMat4 (TerrainVertexMain.worldViewProjection u)
            (mkVector4 (Vector3.x (TerrainVertexMain.position a))
                       (sampledHeight u (TerrainVertexMain.uv a))
                       (Vector3.z (TerrainVertexMain.position a)) 1)).
Proof.
  intros Hband Hlevel HD Hsampler Huv.
  pose proof (getMorphValue_band (TerrainVertexMain.lodRangesLUT u)
                (vertexDistance distance u a) L low high Hband) as Hm.
  rewrite <- Hlevel in Hm.
  destruct (main_with_morph distance u a _ Hm) as (out & Hout & Hfrac & Hvuv & Hpos).
  assert (Hf : Vector2_eq (TerrainVertexMain.vFraction out) (mkVector2 0 0)).
  { rewrite Hfrac, Huv. unfold Vector2_eq. cbn [v2x v2y].
    split; apply frac_on_coarse_grid, HD. }
  destruct Hf as [Hfx Hfy]. cbn [v2x v2y] in Hfx, Hfy.
  assert (Hcoarse : Vector2_eq
            (patchUV u (mkVector2
               (v2x (TerrainVertexMain.uv a) - v2x (TerrainVertexMain.vFraction out))
               (v2y (TerrainVertexMain.uv a) - v2y (TerrainVertexMain.vFraction out))))
            (patchUV u (TerrainVertexMain.uv a))).
  { unfold Vector2_eq, patchUV. cbn [v2x v2y]. rewrite Hfx, Hfy. split; ring. }
  exists out. split; [exact Hout |]. split; [now split |]. split.
  - rewrite Hvuv. destruct Hcoarse as [Hcx Hcy].
    unfold Vector2_eq. cbn [v2x v2y]. split; now apply mix_same.
  - rewrite Hpos. apply mulMat4_eq. unfold Vector4_eq. cbn [v4x v4y v4z v4w].
    unfold TerrainVertexMain.morphVertex. cbn [v2x v2y].
    rewrite !(frac_forms_agree _ _ HD). rewrite Hfrac in Hfx, Hfy. cbn [v2x v2y] in Hfx, Hfy.
    rewrite Hfx, Hfy. repeat split; try ring.
    apply mix_same. unfold sampledHeight. now rewrite (Hsampler _ _ Hcoarse).
Qed.

Lemma coarse_grid_vertex_fixed_witness :
  exists out : TerrainVertexMain.Outputs,
    TerrainVertexMain.main axisDistance sampleUniforms
      (TerrainVertexMain.mkAttributes
         (Vector3.mk 0 0 15) (mkVector2 (inject_Z (2 * 3) / 16) (inject_Z (2 * 4) / 16)))
    = Some out
    /\ Vector2_eq (TerrainVertexMain.vFraction out) (mkVector2 0 0).
Proof.
  destruct (coarse_grid_vertex_fixed axisDistance sampleUniforms
              (TerrainVertexMain.mkAttributes
                 (Vector3.mk 0 0 15) (mkVector2 (inject_Z (2 * 3) / 16) (inject_Z (2 * 4) / 16)))
              1 3 4 10 20 eq_refl eq_refl)
    as (out & Hout & Hf & _).
  - discriminate.
  - intros p q _. reflexivity.
  - reflexivity.
  - exists out. split; [exact Hout | exact Hf].
Defined.

(** X4.  The morph value splits a band [low < high] in three zones.  A
    vertex whose distance to the camera is at most
    [low + 0.3 (high - low)] is rendered at full detail: fine texture
    coordinate, fine height, its own position.  One at a distance of at
    least [low + 0.6 (high - low)] is rendered on the coarser grid: the
    texture coordinate, the height and the position are those of
    [uv - f], with [f] the fraction written to [vFraction]. *)
Theorem vertex_main_zones (distance : Vector3.t -> Vector3.t -> Q)
        (u : TerrainVertexMain.Uniforms) (a : TerrainVertexMain.Attributes)
        (L : Z) (low high : Q) :
  bandOf (TerrainVertexMain.lodRangesLUT u) L = Some (low, high) ->
  TerrainVertexMain.lodLevel u = inject_Z L ->
  ~ TerrainVertexMain.mesh_dim u == 0 ->
  low < high ->
  exists out : TerrainVertexMain.Outputs,
    TerrainVertexMain.main distance u a = Some out
    /\ (vertexDistance distance u a <= low + (3 # 10) * (high - low) ->
        Vector2_eq (TerrainVertexMain.vUV out) (patchUV u (TerrainVertexMain.uv a))
        /\ Vector4_eq
             (TerrainVertexMain.gl_Position out)
             (mulMat4 (TerrainVertexMain.worldViewProjection u)
                (mkVector4 (Vector3.x (TerrainVertexMain.position a))
                           (sampledHeight u (TerrainVertexMain.uv a))
                           (Vector3.z (TerrainVertexMain.position a)) 1)))
    /\ (low + (6 # 10) * (high - low) <= vertexDistance distance u a ->
        Vector2_eq
          (TerrainVertexMain.vUV out)
          (patchUV u
             (mkVector2
                (v2x (TerrainVertexMain.uv a) - v2x (TerrainVertexMain.vFraction out))
                (v2y (TerrainVertexMain.uv a) - v2y (TerrainVertexMain.vFraction out))))
        /\ Vector4_eq
             (TerrainVertexMain.gl_Position out)
             (mulMat4 (TerrainVertexMain.worldViewProjection u)
                (mkVector4
                   (Vector3.x (TerrainVertexMain.position a)
                    - v2x (TerrainVertexMain.vFraction out))
                   (sampledHeight u
                      (mkVector2
                         (v2x (TerrainVertexMain.uv a) - v2x (TerrainVertexMain.vFraction out))
                         (v2y (TerrainVertexMain.uv a) - v2y (TerrainVertexMain.vFraction out))))
                   (Vector3.z (TerrainVertexMain.position a)
                    - v2y (TerrainVertexMain.vFraction out))
                   1))).
Proof.
  intros Hband Hlevel HD Hlt.
  pose proof (getMorphValue_band (TerrainVertexMain.lodRangesLUT u)
                (vertexDistance distance u a) L low high Hband) as Hm.
  rewrite <- Hlevel in Hm.
  destruct (main_with_morph distance u a _ Hm) as (out & Hout & Hfrac & Hvuv & Hpos).
  set (d := vertexDistance distance u a) in *.
  set (t := TerrainVertexShader.clamp ((d - low) / (high - low) / (3 # 10) - 1) 0 1) in *.
  exists out. split; [exact Hout |]. split.
  - intros Hd.
    assert (Ht : t == 0).
    { apply clamp_low. rewrite div_three_tenths.
      apply (factor_le d low high (3 # 10) Hlt) in Hd. lra. }
    clearbody t. split.
    + rewrite Hvuv. unfold Vector2_eq. cbn [v2x v2y]. split; now apply mix_at_0.
    + rewrite Hpos. apply mulMat4_eq. unfold Vector4_eq. cbn [v4x v4y v4z v4w].
      unfold TerrainVertexMain.morphVertex. cbn [v2x v2y].
      repeat split; first [now apply mix_at_0 | rewrite Ht; ring | reflexivity].
  - intros Hd.
    assert (Ht : t == 1).
    { apply clamp_high. rewrite div_three_tenths.
      apply (factor_ge d low high (6 # 10) Hlt) in Hd. lra. }
    clearbody t. split.
    + rewrite Hvuv. unfold Vector2_eq. cbn [v2x v2y]. split; now apply mix_at_1.
    + pose proof (f_equal v2x Hfrac) as Hfx. pose proof (f_equal v2y Hfrac) as Hfy.
      cbn [v2x v2y] in Hfx, Hfy.
      rewrite Hpos. apply mulMat4_eq. unfold Vector4_eq. cbn [v4x v4y v4z v4w].
      unfold TerrainVertexMain.morphVertex. cbn [v2x v2y].
      rewrite !(frac_forms_agree _ _ HD), <- Hfx, <- Hfy.
      repeat split; first [now apply mix_at_1 | rewrite Ht; ring | reflexivity].
Qed.

Lemma vertex_main_zones_witness :
  exists out : TerrainVertexMain.Outputs,
    TerrainVertexMain.main axisDistance sampleUniforms
      (TerrainVertexMain.mkAttributes (Vector3.mk 0 0 12) (mkVector2 (3 # 16) (1 # 2)))
    = Some out
    /\ Vector2_eq (TerrainVertexMain.vUV out)
                  (patchUV sampleUniforms (mkVector2 (3 # 16) (1 # 2))).
Proof.
  destruct (vertex_main_zones axisDistance sampleUniforms
              (TerrainVertexMain.mkAttributes (Vector3.mk 0 0 12) (mkVector2 (3 # 16) (1 # 2)))
              1 10 20 eq_refl eq_refl)
    as (out & Hout & Hnear & _).
  - discriminate.
  - reflexivity.
  - exists out. split; [exact Hout |].
    apply Hnear. vm_compute. discriminate.
Defined.

(** * Layout of the constructed tree *)

Section TreeLayout.
Lemma pow2_S (k : nat) : pow2 (S k) == 2 * pow2 k.
Proof.
  unfold pow2. rewrite Nat2Z.inj_succ, Z.pow_succ_r by lia.
  rewrite inject_Z_mult. reflexivity.
Qed.

Lemma pow2_pos (k : nat) : 0 < pow2 k.
Proof.
  unfold pow2. change 0 with (inject_Z 0). rewrite <- Zlt_Qlt.
  apply Z.pow_pos_nonneg; lia.
Qed.

Lemma quadrant_extent (th : Q) (bb : BoundingBox.t) (i : nat) (box : BoundingBox.t) :
  nth_error (quadrantBoxes th bb) i = Some box ->
  widthX box * 2 == widthX bb /\ depthZ box * 2 == depthZ bb.
Proof.
  intros Hi. apply quadrantBoxes_nth in Hi as (_ & Ex0 & Ex1 & Ez0 & Ez1 & _).
  unfold widthX, depthZ. rewrite Ex0, Ex1, Ez0, Ez1.
  pose proof (center_x bb) as Hcx. pose proof (center_z bb) as Hcz.
  destruct (Nat.even i), (i <? 2)%nat; split; lra.
Qed.

Lemma quadrant_within (th : Q) (bb : BoundingBox.t) (i : nat) (box : BoundingBox.t) :
  nth_error (quadrantBoxes th bb) i = Some box ->
  Vector3.x (BoundingBox.minimum bb) <= Vector3.x (BoundingBox.maximum bb) ->
  Vector3.z (BoundingBox.minimum bb) <= Vector3.z (BoundingBox.maximum bb) ->
  footprintWithin bb box.
Proof.
  intros Hi Hx Hz. apply quadrantBoxes_nth in Hi as (_ & Ex0 & Ex1 & Ez0 & Ez1 & _).
  unfold footprintWithin. rewrite Ex0, Ex1, Ez0, Ez1.
  pose proof (center_x bb) as Hcx. pose proof (center_z bb) as Hcz.
  destruct (Nat.even i), (i <? 2)%nat; repeat split; lra.
Qed.

(** The node found at an address of a constructed tree: the level it was
    built with and the extent of its box. *)
Lemma chunkAt_built (th : Q) (a : Addr) :
  forall (bb : BoundingBox.t) (lev : Z) (c : Chunk),
    chunkAt (buildQuadtree th bb lev) a = Some c ->
    exists box : BoundingBox.t,
      c = buildQuadtree th box (lev - Z.of_nat (length a))
      /\ (a <> [] -> (0 <= lev - Z.of_nat (length a) + 1)%Z)
      /\ widthX box * pow2 (length a) == widthX bb
      /\ depthZ box * pow2 (length a) == depthZ bb
      /\ (Vector3.x (BoundingBox.minimum bb) <= Vector3.x (BoundingBox.maximum bb) ->
          Vector3.z (BoundingBox.minimum bb) <= Vector3.z (BoundingBox.maximum bb) ->
          footprintWithin bb box).
Proof.
  induction a as [| i a IH]; intros bb lev c Hat.
  - simpl in Hat. injection Hat as Heq. subst c. exists bb.
    split; [simpl; f_equal; lia |]. split; [congruence |].
    simpl length. change (pow2 0) with 1. split; [ring | split; [ring |]].
    intros Hx Hz. unfold footprintWithin. repeat split; lra.
  - apply chunkAt_child in Hat as (child & Hi & Hat).
    apply buildQuadtree_child in Hi as (Hlev & box1 & Hbox1 & ->).
    destruct (IH box1 (lev - 1)%Z c Hat) as (box & Hc & Hdepth & Hw & Hd & Hin).
    destruct (quadrant_extent th bb i box1 Hbox1) as [Hw1 Hd1].
    exists box. split; [rewrite Hc; f_equal; simpl length; lia |].
    split.
    { intros _. destruct a as [| j a]; [simpl; lia |].
      specialize (Hdepth ltac:(discriminate)). simpl length in *. lia. }
    simpl length. rewrite pow2_S.
    split; [rewrite <- Hw1, <- Hw; ring |].
    split; [rewrite <- Hd1, <- Hd; ring |].
    intros Hx Hz.
    pose proof (quadrant_within th bb i box1 Hbox1 Hx Hz) as (H1 & H2 & H3 & H4 & H5 & H6).
    specialize (Hin H2 H5). destruct Hin as (G1 & G2 & G3 & G4 & G5 & G6).
    unfold footprintWithin. repeat split; lra.
Qed.

Lemma buildQuadtree_fields (th : Q) (bb : BoundingBox.t) (l : Z) :
  minHeight (buildQuadtree th bb l) = 0
  /\ maxHeight (buildQuadtree th bb l) = th
  /\ lodLevel (buildQuadtree th bb l) = Z.max l 0.
Proof.
  destruct (Z_lt_dec l 0) as [Hl | Hl].
  - rewrite buildQuadtree_leaf by exact Hl. simpl. repeat split. lia.
  - rewrite buildQuadtree_node by lia. simpl. repeat split. lia.
Qed.
End TreeLayout.

(** X5.  In every state of a constructed object, the node at an address
    [a] of the tree stores the heights [0] and [terrainHeight], carries
    the level [lodLevels - |a|] (0 for the childless nodes of the last
    layer), lies no deeper than [lodLevels + 1], and has a footprint of
    side [terrainSize / 2^|a|] that lies within the root's footprint when
    [terrainSize] is not negative. *)
Theorem tree_node_layout (options : ICDLODOptions) (s : CDLOD.t) (a : Addr) (c : Chunk) :
  Reachable (CDLOD.constructor options) s ->
  chunkAt (CDLOD.root s) a = Some c ->
  minHeight c = 0
  /\ maxHeight c = CDLOD.terrainHeight s
  /\ lodLevel c = Z.max (CDLOD.lodLevels s - Z.of_nat (length a)) 0
  /\ (Z.of_nat (length a) <= Z.max (CDLOD.lodLevels s + 1) 0)%Z
  /\ widthX (boundingBox c) * pow2 (length a) == CDLOD.terrainSize s
  /\ depthZ (boundingBox c) * pow2 (length a) == CDLOD.terrainSize s
  /\ (0 <= CDLOD.terrainSize s ->
      footprintWithin (CDLOD.terrainBoundingBox (CDLOD.terrainSize s)) (boundingBox c)).
Proof.
  intros Hreach Hat. rewrite (Reachable_root options s Hreach) in Hat.
  destruct (chunkAt_built _ a _ _ c Hat) as (box & -> & Hdepth & Hw & Hd & Hin).
  destruct (buildQuadtree_fields (CDLOD.terrainHeight s) box
              (CDLOD.lodLevels s - Z.of_nat (length a))) as (Hmin & Hmax & Hlev).
  rewrite buildQuadtree_boundingBox.
  split; [exact Hmin |]. split; [exact Hmax |]. split; [exact Hlev |].
  split.
  { destruct a as [| i a]; [simpl; lia |]. specialize (Hdepth ltac:(discriminate)). lia. }
  split; [rewrite Hw; unfold widthX, CDLOD.terrainBoundingBox; simpl; ring |].
  split; [rewrite Hd; unfold depthZ, CDLOD.terrainBoundingBox; simpl; ring |].
  intros Hts. apply Hin; unfold CDLOD.terrainBoundingBox; simpl; lra.
Qed.

Lemma tree_node_layout_witness :
  exists c : Chunk,
    chunkAt (CDLOD.root (CDLOD.constructor smallOptions)) [1%nat; 2%nat] = Some c
    /\ lodLevel c = Z.max (3 - 2) 0
    /\ widthX (boundingBox c) * pow2 2 == 2000.
Proof.
  eexists. split; [vm_compute; reflexivity |].
  destruct (tree_node_layout smallOptions (CDLOD.constructor smallOptions) [1%nat; 2%nat] _
              (reach_init _) ltac:(vm_compute; reflexivity))
    as (_ & _ & Hlev & _ & Hw & _).
  split; [exact Hlev | exact Hw].
Defined.

(** * The meshes that are created *)

Section Resources.
Lemma updateChunkMesh_resourcePart s chunk camera :
  resourcePart (CDLOD.updateChunkMesh s chunk camera) = resourcePart s.
Proof. unfold CDLOD.updateChunkMesh. now destruct (CDLOD.meshes s !! chunk.1). Qed.

Lemma disposeIfUnused_resourcePart renderSet s addr :
  resourcePart (CDLOD.disposeIfUnused renderSet s addr) = resourcePart s.
Proof.
  unfold CDLOD.disposeIfUnused.
  destruct (decide (addr ∈ renderSet)); [reflexivity |].
  now destruct (CDLOD.meshes s !! addr).
Qed.

Lemma fold_preserves {St X A : Type} (proj : St -> A) (f : St -> X -> St) (l : list X) :
  (forall st x, proj (f st x) = proj st) ->
  forall st, proj (fold_left f l st) = proj st.
Proof.
  intros Hf. induction l as [| x l IH]; intros st; simpl; [reflexivity |].
  now rewrite IH, Hf.
Qed.

Lemma update_resourcePart s camera :
  resourcePart (CDLOD.update s camera) = resourcePart s.
Proof.
  unfold CDLOD.update. rewrite disposeUnusedMeshes_fold.
  rewrite (fold_preserves resourcePart) by (intros; apply disposeIfUnused_resourcePart).
  now rewrite (fold_preserves resourcePart) by (intros; apply updateChunkMesh_resourcePart).
Qed.

Lemma Reachable_resourcePart s0 s :
  Reachable s0 s -> resourcePart s = resourcePart s0.
Proof.
  induction 1 as [| s s' _ IH Hstep]; [reflexivity |].
  rewrite <- IH. destruct Hstep;
    [apply update_resourcePart | apply updateChunkMesh_resourcePart | | |]; reflexivity.
Qed.

Lemma Reachable_resources (options : ICDLODOptions) (s : CDLOD.t) :
  Reachable (CDLOD.constructor options) s ->
  CDLOD.baseGrid s = CDLOD.createBaseGrid
  /\ wireframe (CDLOD.terrainShader s) = false
  /\ u_mixFactor (CDLOD.terrainShader s) = None.
Proof.
  intros H. apply Reachable_resourcePart in H. unfold resourcePart in H.
  injection H as -> _ ->. repeat split.
Qed.

Lemma scale_of_extent (w p ts : Q) :
  ~ ts == 0 -> w * p == ts -> w / ts * p == 1.
Proof.
  intros Hne Hw.
  assert (E : w / ts * p == w * p / ts) by (field; exact Hne).
  rewrite E, Hw. field. exact Hne.
Qed.

Lemma sum_div_le_1 (x y ts : Q) : 0 < ts -> x + y <= ts -> x / ts + y / ts <= 1.
Proof.
  intros Hts Hle.
  assert (E : x / ts + y / ts == (x + y) / ts) by (field; lra).
  rewrite E. apply Qle_shift_div_r; [exact Hts | lra].
Qed.

Lemma lodColor_defined (l : Z) : (0 <= l)%Z -> is_Some (CDLOD.lodColor l).
Proof.
  intros Hl. unfold CDLOD.lodColor.
  change (Z.of_nat (length CDLOD.lodColors)) with 8%Z.
  pose proof (Z.rem_bound_pos l 8 Hl ltac:(lia)) as [H0 H8].
  destruct (Z.ltb_spec (Z.rem l 8) 0); [lia |].
  apply lookup_lt_is_Some. change (length CDLOD.lodColors) with 8%nat. lia.
Qed.
End Resources.

(** X6.  For the node at an address [a] of the tree of a constructed
    object with [terrainSize > 0], the mesh that [updateChunkMesh] creates
    carries a material whose [uvScale] is [1 / 2^|a|] in both directions
    and whose [uvOffset] keeps the patch inside the unit square of texture
    space ([0 <= uvOffset] and [uvOffset + uvScale <= 1]); its debug
    colour is defined and its [lodLevel] uniform is the node's level
    [max (lodLevels - |a|) 0]. *)
Theorem chunk_uniforms_in_texture_space (options : ICDLODOptions) (s : CDLOD.t)
        (camera : FreeCamera) (a : Addr) (c : Chunk) :
  Reachable (CDLOD.constructor options) s ->
  0 < CDLOD.terrainSize s ->
  chunkAt (CDLOD.root s) a = Some c ->
  exists (mat : ShaderMaterial) (uvOffset uvScale : Vector2),
    material (CDLOD.createChunkMesh s c camera) = Some mat
    /\ u_uvOffset mat = Some uvOffset
    /\ u_uvScale mat = Some uvScale
    /\ v2x uvScale * pow2 (length a) == 1
    /\ v2y uvScale * pow2 (length a) == 1
    /\ 0 <= v2x uvOffset /\ v2x uvOffset + v2x uvScale <= 1
    /\ 0 <= v2y uvOffset /\ v2y uvOffset + v2y uvScale <= 1
    /\ is_Some (u_chunkColor mat)
    /\ u_lodLevel mat
       = Some (inject_Z (Z.max (CDLOD.lodLevels s - Z.of_nat (length a)) 0)).
Proof.
  intros Hreach Hts Hat.
  pose proof Hat as Hat0. rewrite (Reachable_root options s Hreach) in Hat.
  destruct (chunkAt_built _ a _ _ c Hat) as (box & Hc & _ & Hw & Hd & Hin).
  assert (Hbb : boundingBox c = box) by (rewrite Hc; apply buildQuadtree_boundingBox).
  assert (Hlev : lodLevel c = Z.max (CDLOD.lodLevels s - Z.of_nat (length a)) 0)
    by (rewrite Hc; apply buildQuadtree_fields).
  specialize (Hin ltac:(unfold CDLOD.terrainBoundingBox; simpl; lra)
                  ltac:(unfold CDLOD.terrainBoundingBox; simpl; lra)).
  destruct Hin as (G1 & G2 & G3 & G4 & G5 & G6).
  unfold CDLOD.terrainBoundingBox in G1, G3, G4, G6. simpl in G1, G3, G4, G6.
  assert (Ew : widthX (CDLOD.terrainBoundingBox (CDLOD.terrainSize s)) == CDLOD.terrainSize s)
    by (unfold widthX, CDLOD.terrainBoundingBox; simpl; ring).
  assert (Ed : depthZ (CDLOD.terrainBoundingBox (CDLOD.terrainSize s)) == CDLOD.terrainSize s)
    by (unfold depthZ, CDLOD.terrainBoundingBox; simpl; ring).
  rewrite Ew in Hw. rewrite Ed in Hd. unfold widthX in Hw. unfold depthZ in Hd.
  assert (Hne : ~ CDLOD.terrainSize s == 0) by lra.
  unfold CDLOD.createChunkMesh. cbn [material]. rewrite Hbb.
  eexists _, _, _. split; [reflexivity |].
  cbn [u_uvOffset u_uvScale u_chunkColor u_lodLevel].
  split; [reflexivity |]. split; [reflexivity |].
  cbn [v2x v2y].
  split; [now apply scale_of_extent |].
  split; [now apply scale_of_extent |].
  split; [apply Qle_shift_div_l; lra |].
  split; [apply sum_div_le_1; lra |].
  split; [apply Qle_shift_div_l; lra |].
  split; [apply sum_div_le_1; lra |].
  split; [apply lodColor_defined; rewrite Hlev; lia |].
  now rewrite Hlev.
Qed.

Lemma chunk_uniforms_in_texture_space_witness :
  exists (c : Chunk) (mat : ShaderMaterial) (uvScale : Vector2),
    chunkAt (CDLOD.root (CDLOD.constructor smallOptions)) [1%nat; 2%nat] = Some c
    /\ material (CDLOD.createChunkMesh (CDLOD.constructor smallOptions) c (cameraAt 0 50 0))
       = Some mat
    /\ u_uvScale mat = Some uvScale
    /\ v2x uvScale * pow2 2 == 1.
Proof.
  eexists.
  destruct (chunk_uniforms_in_texture_space smallOptions (CDLOD.constructor smallOptions)
              (cameraAt 0 50 0) [1%nat; 2%nat] _
              (reach_init _) eq_refl ltac:(vm_compute; reflexivity))
    as (mat & uvOffset & uvScale & Hmat & _ & Hscale & Hx & _).
  exists mat, uvScale. split; [vm_compute; reflexivity |].
  split; [exact Hmat |]. split; [exact Hscale | exact Hx].
Defined.

(** X7.  The mesh [updateChunkMesh] creates for a chunk is enabled, takes
    part in collisions, and is placed on the chunk: scaling and position
    carry the corners of its local bounding box to the corners of the
    chunk's footprint, and to the heights [0] and [terrainHeight]. *)
Theorem created_mesh_covers_chunk (options : ICDLODOptions) (s : CDLOD.t)
        (c : Chunk) (camera : FreeCamera) :
  Reachable (CDLOD.constructor options) s ->
  isEnabled (CDLOD.createChunkMesh s c camera) = true
  /\ checkCollisions (CDLOD.createChunkMesh s c camera) = true
  /\ Vector3.x (meshPosition (CDLOD.createChunkMesh s c camera))
     + Vector3.x (scaling (CDLOD.createChunkMesh s c camera))
       * Vector3.x (BoundingBox.minimum (boundingInfo (CDLOD.createChunkMesh s c camera)))
     == Vector3.x (BoundingBox.minimum (boundingBox c))
  /\ Vector3.x (meshPosition (CDLOD.createChunkMesh s c camera))
     + Vector3.x (scaling (CDLOD.createChunkMesh s c camera))
       * Vector3.x (BoundingBox.maximum (boundingInfo (CDLOD.createChunkMesh s c camera)))
     == Vector3.x (BoundingBox.maximum (boundingBox c))
  /\ Vector3.z (meshPosition (CDLOD.createChunkMesh s c camera))
     + Vector3.z (scaling (CDLOD.createChunkMesh s c camera))
       * Vector3.z (BoundingBox.minimum (boundingInfo (CDLOD.createChunkMesh s c camera)))
     == Vector3.z (BoundingBox.minimum (boundingBox c))
  /\ Vector3.z (meshPosition (CDLOD.createChunkMesh s c camera))
     + Vector3.z (scaling (CDLOD.createChunkMesh s c camera))
       * Vector3.z (BoundingBox.maximum (boundingInfo (CDLOD.createChunkMesh s c camera)))
     == Vector3.z (BoundingBox.maximum (boundingBox c))
  /\ Vector3.y (meshPosition (CDLOD.createChunkMesh s c camera))
     + Vector3.y (scaling (CDLOD.createChunkMesh s c camera))
       * Vector3.y (BoundingBox.minimum (boundingInfo (CDLOD.createChunkMesh s c camera)))
     == 0
  /\ Vector3.y (meshPosition (CDLOD.createChunkMesh s c camera))
     + Vector3.y (scaling (CDLOD.createChunkMesh s c camera))
       * Vector3.y (BoundingBox.maximum (boundingInfo (CDLOD.createChunkMesh s c camera)))
     == CDLOD.terrainHeight s.
Proof.
  intros Hreach. destruct (Reachable_resources options s Hreach) as (Hgrid & _).
  unfold CDLOD.createChunkMesh. rewrite Hgrid.
  cbn [isEnabled checkCollisions meshPosition scaling boundingInfo CDLOD.createBaseGrid
       BoundingBox.minimum BoundingBox.maximum Vector3.x Vector3.y Vector3.z].
  repeat split; ring.
Qed.

Lemma created_mesh_covers_chunk_witness :
  isEnabled (CDLOD.createChunkMesh (CDLOD.constructor smallOptions)
               (CDLOD.root (CDLOD.constructor smallOptions)) (cameraAt 0 50 0)) = true.
Proof.
  destruct (created_mesh_covers_chunk smallOptions (CDLOD.constructor smallOptions)
              (CDLOD.root (CDLOD.constructor smallOptions)) (cameraAt 0 50 0)
              (reach_init _)) as (H & _).
  exact H.
Defined.

(** * Engine calls of a frame *)

Section EngineCalls.
Variable camera : FreeCamera.

Lemma NoDup_treeRefs (c : Chunk) : NoDup (map fst (treeRefs c)).
Proof.
  induction c as [bb lv mn mx cs IH] using Chunk_ind.
  rewrite treeRefs_unfold. cbn [children map fst]. apply NoDup_cons. split.
  - intros Hin. apply belowRefs_head in Hin as (k & t & Heq). discriminate Heq.
  - now apply NoDup_belowRefs.
Qed.

Lemma filter_ext_elem {A : Type} (P1 P2 : A -> Prop)
      `{!forall x, Decision (P1 x)} `{!forall x, Decision (P2 x)} (l : list A) :
  (forall x, x ∈ l -> P1 x <-> P2 x) -> filter P1 l = filter P2 l.
Proof.
  induction l as [| x l IH]; intros Hext; [reflexivity |].
  rewrite !filter_cons, IH by (intros y Hy; apply Hext; now right).
  pose proof (Hext x ltac:(now left)) as Hx.
  destruct (decide (P1 x)), (decide (P2 x)); try reflexivity; tauto.
Qed.

Lemma updateChunkMesh_log (s : CDLOD.t) (r : ChunkRef) :
  CDLOD.engineLog (CDLOD.updateChunkMesh s r camera)
  = CDLOD.engineLog s
    ++ flat_map creationCalls (filter (fun a => ~ is_Some (CDLOD.meshes s !! a)) [r.1]).
Proof.
  unfold CDLOD.updateChunkMesh. rewrite filter_cons, filter_nil.
  destruct (CDLOD.meshes s !! r.1) as [m |] eqn:Hm.
  - rewrite decide_False by (intros H; apply H; eauto). simpl. now rewrite app_nil_r.
  - rewrite decide_True by (intros [m Hm']; discriminate). reflexivity.
Qed.

Lemma fold_updateChunkMesh_log (l : list ChunkRef) :
  NoDup (map fst l) ->
  forall s : CDLOD.t,
    CDLOD.engineLog (fold_left (fun st chunk => CDLOD.updateChunkMesh st chunk camera) l s)
    = CDLOD.engineLog s
      ++ flat_map creationCalls
           (filter (fun a => ~ is_Some (CDLOD.meshes s !! a)) (map fst l)).
Proof.
  induction l as [| r l IH]; intros Hnd s.
  - simpl. now rewrite app_nil_r.
  - cbn [map] in Hnd. apply NoDup_cons in Hnd as [Hr Hnd]. cbn [fold_left map].
    rewrite (IH Hnd), updateChunkMesh_log, <- app_assoc, <- flat_map_app. f_equal. f_equal.
    change (r.1 :: map fst l) with ([r.1] ++ map fst l). rewrite filter_app. f_equal.
    apply filter_ext_elem. intros a Ha.
    rewrite updateChunkMesh_other; [reflexivity |]. intros ->. contradiction.
Qed.

Lemma fold_updateChunkMesh_other (l : list ChunkRef) :
  forall (s : CDLOD.t) (a : Addr),
    a ∉ map fst l ->
    CDLOD.meshes (fold_left (fun st chunk => CDLOD.updateChunkMesh st chunk camera) l s) !! a
    = CDLOD.meshes s !! a.
Proof.
  induction l as [| r l IH]; intros s a Ha; [reflexivity |].
  cbn [map] in Ha. apply not_elem_of_cons in Ha as [Hne Ha]. cbn [fold_left].
  rewrite (IH _ _ Ha). now apply updateChunkMesh_other.
Qed.

Lemma disposeIfUnused_log (renderSet : gset (list nat)) (s : CDLOD.t) (b : Addr) :
  CDLOD.engineLog (CDLOD.disposeIfUnused renderSet s b)
  = CDLOD.engineLog s
    ++ map Disposed
         (filter (fun a => (a ∉ renderSet) /\ is_Some (CDLOD.meshes s !! a)) [b]).
Proof.
  unfold CDLOD.disposeIfUnused. rewrite filter_cons, filter_nil.
  destruct (decide (b ∈ renderSet)) as [Hb | Hb].
  - rewrite decide_False by tauto. simpl. now rewrite app_nil_r.
  - destruct (CDLOD.meshes s !! b) as [m |] eqn:Hm.
    + rewrite decide_True by (split; [exact Hb | eauto]). reflexivity.
    + rewrite decide_False by (intros [_ [m Hm']]; discriminate). simpl.
      now rewrite app_nil_r.
Qed.

Lemma fold_dispose_log (renderSet : gset (list nat)) (addrs : list Addr) :
  NoDup addrs ->
  forall s : CDLOD.t,
    CDLOD.engineLog (fold_left (CDLOD.disposeIfUnused renderSet) addrs s)
    = CDLOD.engineLog s
      ++ map Disposed
           (filter (fun a => (a ∉ renderSet) /\ is_Some (CDLOD.meshes s !! a)) addrs).
Proof.
  induction addrs as [| b addrs IH]; intros Hnd s.
  - simpl. now rewrite app_nil_r.
  - apply NoDup_cons in Hnd as [Hb Hnd]. cbn [fold_left].
    rewrite (IH Hnd), disposeIfUnused_log, <- app_assoc, <- map_app. f_equal. f_equal.
    change (b :: addrs) with ([b] ++ addrs). rewrite filter_app. f_equal.
    apply filter_ext_elem. intros a Ha.
    rewrite disposeIfUnused_lookup, decide_False; [reflexivity |].
    intros [-> _]. contradiction.
Qed.

Lemma createChunkMesh_updateChunkMesh (s : CDLOD.t) (r : ChunkRef) (c : Chunk) :
  CDLOD.createChunkMesh (CDLOD.updateChunkMesh s r camera) c camera
  = CDLOD.createChunkMesh s c camera.
Proof. unfold CDLOD.updateChunkMesh. now destruct (CDLOD.meshes s !! r.1). Qed.

Lemma fold_updateChunkMesh_created (l : list ChunkRef) :
  NoDup (map fst l) ->
  forall (s : CDLOD.t) (a : Addr) (c : Chunk),
    (a, c) ∈ l ->
    CDLOD.meshes s !! a = None ->
    CDLOD.meshes (fold_left (fun st chunk => CDLOD.updateChunkMesh st chunk camera) l s) !! a
    = Some (CDLOD.createChunkMesh s c camera).
Proof.
  induction l as [| r l IH]; intros Hnd s a c Hin Hnone; [inversion Hin |].
  cbn [map] in Hnd. apply NoDup_cons in Hnd as [Hr Hnd]. cbn [fold_left].
  apply elem_of_cons in Hin as [<- | Hin].
  - assert (Hnew : CDLOD.meshes (CDLOD.updateChunkMesh s (a, c) camera) !! a
                   = Some (CDLOD.createChunkMesh s c camera)).
    { unfold CDLOD.updateChunkMesh. cbn [fst snd]. rewrite Hnone. simpl.
      apply lookup_insert_eq. }
    rewrite fold_updateChunkMesh_retains; [exact Hnew | now rewrite Hnew].
  - assert (Hne : a <> r.1).
    { intros ->. apply Hr. now apply (list_elem_of_fmap_2 fst _ (r.1, c)). }
    rewrite (IH Hnd _ a c Hin).
    + apply f_equal, createChunkMesh_updateChunkMesh.
    + now rewrite updateChunkMesh_other.
Qed.
End EngineCalls.

(** X8.  The [clone] and [dispose] calls of a call of [update] are
    exactly these, in this order: for each selected chunk that has no
    mesh, in the order of the draw list, [baseGrid.clone] and then
    [terrainShader.clone]; then, in the order of the tree walk, one
    [mesh.dispose] for each chunk of the tree that has a mesh and is not
    selected.  No chunk gets two meshes or is disposed of twice in a
    call. *)
Theorem update_engine_calls (s : CDLOD.t) (camera : FreeCamera) :
  CDLOD.engineLog (CDLOD.update s camera)
  = CDLOD.engineLog s ++ flat_map creationCalls (createdBy s camera)
    ++ map Disposed (disposedBy s camera)
  /\ NoDup (createdBy s camera)
  /\ NoDup (disposedBy s camera).
Proof.
  assert (Hsel : NoDup (map fst (CDLOD.selectLods s camera)))
    by (rewrite selectLods_selection; apply NoDup_selection).
  split; [| split; apply NoDup_filter; [exact Hsel | apply NoDup_treeRefs]].
  unfold CDLOD.update. rewrite disposeUnusedMeshes_fold.
  change (map (fun r : list nat * Chunk => [] ++ r.1) (treeRefs (CDLOD.root s)))
    with (map fst (treeRefs (CDLOD.root s))).
  rewrite (fold_dispose_log _ _ (NoDup_treeRefs _)).
  rewrite (fold_updateChunkMesh_log camera _ Hsel), <- app_assoc.
  f_equal. f_equal. f_equal. unfold disposedBy.
  apply list_filter_iff. intros a. rewrite elem_of_list_to_set. split.
  - intros [Hn Hm]. split; [exact Hn |].
    now rewrite fold_updateChunkMesh_other in Hm.
  - intros [Hn Hm]. split; [exact Hn |].
    now rewrite fold_updateChunkMesh_other.
Qed.

(** X9.  What [update] leaves in the [mesh] field of a chunk of the tree:
    nothing if the chunk is not selected; the mesh it had if it is
    selected and had one; a mesh newly created for it, with the camera of
    this call, if it is selected and had none. *)
Theorem update_meshes (s : CDLOD.t) (camera : FreeCamera) (a : Addr) (c : Chunk) :
  chunkAt (CDLOD.root s) a = Some c ->
  CDLOD.meshes (CDLOD.update s camera) !! a
  = if decide (a ∈ map fst (CDLOD.selectLods s camera))
    then Some (default (CDLOD.createChunkMesh s c camera) (CDLOD.meshes s !! a))
    else None.
Proof.
  intros Hat. rewrite update_lookup.
  assert (Htree : a ∈ map fst (treeRefs (CDLOD.root s)))
    by (apply (list_elem_of_fmap_2 fst _ (a, c)); now apply treeRefs_chunkAt).
  destruct (decide (a ∈ map fst (CDLOD.selectLods s camera))) as [Hin | Hout].
  - rewrite decide_False by tauto.
    destruct (CDLOD.meshes s !! a) as [m |] eqn:Hm.
    + rewrite fold_updateChunkMesh_retains; [exact Hm | now rewrite Hm].
    + apply list_elem_of_fmap in Hin as ([a' c'] & -> & Hin). cbn [fst] in *.
      assert (Hc : c' = c).
      { rewrite selectLods_selection in Hin. apply selection_Selects in Hin.
        apply Selects_chunkAt in Hin. congruence. }
      subst c'. apply fold_updateChunkMesh_created; [| exact Hin | exact Hm].
      rewrite selectLods_selection. apply NoDup_selection.
  - now rewrite decide_True.
Qed.

Lemma update_meshes_witness :
  CDLOD.meshes (CDLOD.update (CDLOD.constructor smallOptions) (cameraAt 0 50 0))
    !! [1%nat; 2%nat]
  = None.
Proof.
  eapply eq_trans.
  - eapply (update_meshes (CDLOD.constructor smallOptions) (cameraAt 0 50 0) [1%nat; 2%nat]).
    vm_compute. reflexivity.
  - rewrite decide_False; [reflexivity |].
    rewrite smallOptions_selection. intros H. repeat (apply elem_of_cons in H as [H | H]; [discriminate H |]).
    inversion H.
Defined.

(** * The debug setters *)

Section Setters.
Lemma forEachMesh_unfold (f : Mesh -> Mesh) (chunk : Chunk) (addr : Addr)
      (m : gmap (list nat) Mesh) :
  CDLOD.forEachMesh f chunk addr m
  = forChildren (fun i child m' => CDLOD.forEachMesh f child (addr ++ [i]) m')
                (children chunk) 0%nat (alter f addr m).
Proof. now destruct chunk. Qed.

Lemma forChildren_forEachMesh (f : Mesh -> Mesh) (addr : Addr) (cs : list Chunk) :
  Forall (fun child =>
            forall addr' m,
              CDLOD.forEachMesh f child addr' m
              = fold_left (fun m' a => alter f a m')
                          (map (fun r : list nat * Chunk => addr' ++ r.1) (treeRefs child)) m) cs ->
  forall i m,
    forChildren (fun i child m' => CDLOD.forEachMesh f child (addr ++ [i]) m') cs i m
    = fold_left (fun m' a => alter f a m')
                (map (fun r : list nat * Chunk => addr ++ r.1) (belowRefs treeRefs cs i)) m.
Proof.
  induction 1 as [| child rest Hc _ IH]; intros i m.
  - reflexivity.
  - change (belowRefs treeRefs (child :: rest) i)
      with (map (shift [i]) (treeRefs child) ++ belowRefs treeRefs rest (S i)).
    rewrite map_app, fold_left_app, map_map. simpl forChildren.
    rewrite IH, Hc. f_equal. f_equal. apply map_ext.
    intros r. unfold shift. simpl. now rewrite <- app_assoc.
Qed.

(** The walk of the setters applies [f] at the nodes of the tree one
    after the other. *)
Lemma forEachMesh_fold (f : Mesh -> Mesh) (chunk : Chunk) :
  forall addr m,
    CDLOD.forEachMesh f chunk addr m
    = fold_left (fun m' a => alter f a m')
                (map (fun r : list nat * Chunk => addr ++ r.1) (treeRefs chunk)) m.
Proof.
  induction chunk as [bb lv mn mx cs IH] using Chunk_ind. intros addr m.
  rewrite forEachMesh_unfold, treeRefs_unfold. cbn [children].
  rewrite (forChildren_forEachMesh f addr cs IH).
  simpl. now rewrite app_nil_r.
Qed.

Lemma fold_alter_lookup (f : Mesh -> Mesh) (addrs : list Addr) :
  NoDup addrs ->
  forall (m : gmap (list nat) Mesh) (a : Addr),
    fold_left (fun m' b => alter f b m') addrs m !! a
    = if decide (a ∈ addrs) then f <$> m !! a else m !! a.
Proof.
  induction addrs as [| b addrs IH]; intros Hnd m a.
  - cbn [fold_left]. rewrite decide_False; [reflexivity | intros H; inversion H].
  - apply NoDup_cons in Hnd as [Hb Hnd]. cbn [fold_left]. rewrite (IH Hnd).
    destruct (decide (a ∈ addrs)) as [Hin | Hout].
    + rewrite decide_True by (now right).
      rewrite lookup_alter_ne; [reflexivity | intros ->; contradiction].
    + destruct (decide (a = b)) as [-> | Hne].
      * rewrite decide_True by (now left). apply lookup_alter_eq.
      * rewrite decide_False by (intros H; apply elem_of_cons in H as [? | ?]; contradiction).
        now apply lookup_alter_ne.
Qed.

(** The meshes after a setter: [f] has been applied once to the mesh of
    every chunk of the tree; nothing else is touched. *)
Lemma forEachMesh_lookup (f : Mesh -> Mesh) (root : Chunk) (m : gmap (list nat) Mesh)
      (a : Addr) :
  CDLOD.forEachMesh f root [] m !! a
  = if decide (a ∈ map fst (treeRefs root)) then f <$> m !! a else m !! a.
Proof.
  rewrite forEachMesh_fold.
  change (map (fun r : list nat * Chunk => [] ++ r.1) (treeRefs root))
    with (map fst (treeRefs root)).
  apply fold_alter_lookup, NoDup_treeRefs.
Qed.

Lemma forEachMesh_compose (f g : Mesh -> Mesh) (root : Chunk) (m : gmap (list nat) Mesh) :
  CDLOD.forEachMesh f root [] (CDLOD.forEachMesh g root [] m)
  = CDLOD.forEachMesh (fun mesh => f (g mesh)) root [] m.
Proof.
  apply map_eq. intros a. rewrite !forEachMesh_lookup.
  destruct (decide (a ∈ map fst (treeRefs root))); [| reflexivity].
  now destruct (m !! a).
Qed.

Lemma forEachMesh_ext (f g : Mesh -> Mesh) (root : Chunk) (m : gmap (list nat) Mesh) :
  (forall mesh, f mesh = g mesh) ->
  CDLOD.forEachMesh f root [] m = CDLOD.forEachMesh g root [] m.
Proof.
  intros H. apply map_eq. intros a. rewrite !forEachMesh_lookup.
  destruct (decide (a ∈ map fst (treeRefs root))); [| reflexivity].
  destruct (m !! a); simpl; [now rewrite H | reflexivity].
Qed.
End Setters.

(** X10.  The debug setters compose as assignments do.  Setting a flag or
    the mix factor twice keeps the last value, and the three setters
    commute with one another: the order in which wireframe, bounding box
    and mix factor are set does not matter. *)
Theorem setters_compose (s : CDLOD.t) (b b' : bool) (f f' : Q) :
  CDLOD.setWireframe (CDLOD.setWireframe s b') b = CDLOD.setWireframe s b
  /\ CDLOD.setBoundingBox (CDLOD.setBoundingBox s b') b = CDLOD.setBoundingBox s b
  /\ CDLOD.setMixFactor (CDLOD.setMixFactor s f') f = CDLOD.setMixFactor s f
  /\ CDLOD.setWireframe (CDLOD.setBoundingBox s b') b
     = CDLOD.setBoundingBox (CDLOD.setWireframe s b) b'
  /\ CDLOD.setWireframe (CDLOD.setMixFactor s f) b
     = CDLOD.setMixFactor (CDLOD.setWireframe s b) f
  /\ CDLOD.setBoundingBox (CDLOD.setMixFactor s f) b
     = CDLOD.setMixFactor (CDLOD.setBoundingBox s b) f.
Proof.
  unfold CDLOD.setWireframe, CDLOD.setBoundingBox, CDLOD.setMixFactor,
    CDLOD.setMeshes, CDLOD.setShowChunk, CDLOD.setShowBoundingBox.
  cbn [CDLOD.showChunk CDLOD.showBoundingBox CDLOD.root CDLOD.lodRanges CDLOD.lodLevels
       CDLOD.terrainSize CDLOD.terrainHeight CDLOD.terrainShader CDLOD.subdivisions
       CDLOD.baseGrid CDLOD.meshes CDLOD.engineLog].
  repeat split; f_equal; rewrite !forEachMesh_compose; apply forEachMesh_ext;
    intros mesh; unfold CDLOD.withMaterial;
    cbn [isEnabled checkCollisions scaling meshPosition material meshShowBoundingBox
         boundingInfo];
    try reflexivity; now destruct (material mesh).
Qed.

Section DebugFlags.
Lemma createChunkMesh_flags (s : CDLOD.t) (c : Chunk) (camera : FreeCamera) :
  wireframe (CDLOD.terrainShader s) = false ->
  meshShowBoundingBox (CDLOD.baseGrid s) = false ->
  flagsInForce s (CDLOD.createChunkMesh s c camera).
Proof.
  intros Hw Hb. unfold flagsInForce, CDLOD.createChunkMesh.
  cbn [meshShowBoundingBox material]. rewrite Hw, Hb. split.
  - now destruct (CDLOD.showBoundingBox s).
  - eexists. split; [reflexivity |]. cbn [wireframe]. now destruct (CDLOD.showChunk s).
Qed.

Lemma updateChunkMesh_flagsInvariant (s : CDLOD.t) (r : ChunkRef) (camera : FreeCamera) :
  flagsInvariant s -> flagsInvariant (CDLOD.updateChunkMesh s r camera).
Proof.
  intros (Hw & Hb & Hall). unfold CDLOD.updateChunkMesh.
  destruct (CDLOD.meshes s !! r.1) as [m0 |] eqn:Hm; [exact (conj Hw (conj Hb Hall)) |].
  split; [exact Hw |]. split; [exact Hb |].
  intros a m Ha. cbn [CDLOD.setMeshes CDLOD.meshes CDLOD.root].
  destruct (decide (a = r.1)) as [-> | Hne].
  - rewrite lookup_insert_eq. intros [= <-].
    now apply (createChunkMesh_flags s r.2 camera).
  - rewrite lookup_insert_ne by congruence. intros Hlook.
    exact (Hall a m Ha Hlook).
Qed.

Lemma disposeIfUnused_flagsInvariant (renderSet : gset (list nat)) (s : CDLOD.t) (b : Addr) :
  flagsInvariant s -> flagsInvariant (CDLOD.disposeIfUnused renderSet s b).
Proof.
  intros (Hw & Hb & Hall). unfold CDLOD.disposeIfUnused.
  destruct (decide (b ∈ renderSet)); [exact (conj Hw (conj Hb Hall)) |].
  destruct (CDLOD.meshes s !! b) as [m0 |] eqn:Hm; [| exact (conj Hw (conj Hb Hall))].
  split; [exact Hw |]. split; [exact Hb |].
  intros a m Ha. cbn [CDLOD.setMeshes CDLOD.meshes CDLOD.root].
  intros Hlook. apply lookup_delete_Some in Hlook as [_ Hlook].
  exact (Hall a m Ha Hlook).
Qed.

Lemma fold_invariant {St X : Type} (P : St -> Prop) (f : St -> X -> St) (l : list X) :
  (forall st x, P st -> P (f st x)) -> forall st, P st -> P (fold_left f l st).
Proof.
  intros Hf. induction l as [| x l IH]; intros st Hst; simpl; [exact Hst |].
  apply IH, Hf, Hst.
Qed.

Lemma update_invariant (P : CDLOD.t -> Prop) (s : CDLOD.t) (camera : FreeCamera) :
  (forall st r, P st -> P (CDLOD.updateChunkMesh st r camera)) ->
  (forall rs st b, P st -> P (CDLOD.disposeIfUnused rs st b)) ->
  P s -> P (CDLOD.update s camera).
Proof.
  intros HU HD Hs. unfold CDLOD.update. rewrite disposeUnusedMeshes_fold.
  apply fold_invariant; [intros st b; apply HD |].
  apply (fold_invariant P (fun st chunk => CDLOD.updateChunkMesh st chunk camera));
    [intros st r; apply HU | exact Hs].
Qed.

Lemma forEachMesh_Some (f : Mesh -> Mesh) (root : Chunk) (m : gmap (list nat) Mesh)
      (a : Addr) (mesh : Mesh) :
  a ∈ map fst (treeRefs root) ->
  CDLOD.forEachMesh f root [] m !! a = Some mesh ->
  exists mesh0 : Mesh, m !! a = Some mesh0 /\ mesh = f mesh0.
Proof.
  intros Ha. rewrite forEachMesh_lookup, decide_True by exact Ha.
  destruct (m !! a) as [mesh0 |]; [| discriminate].
  intros [= <-]. now exists mesh0.
Qed.

Lemma Step_flagsInvariant (s s' : CDLOD.t) :
  Step s s' -> flagsInvariant s -> flagsInvariant s'.
Proof.
  intros Hstep Hinv. destruct Hstep as [s camera | s r camera | s f | s b | s b].
  - apply update_invariant; [| | exact Hinv].
    + intros st r. apply updateChunkMesh_flagsInvariant.
    + intros rs st b. apply disposeIfUnused_flagsInvariant.
  - now apply updateChunkMesh_flagsInvariant.
  - destruct Hinv as (Hw & Hb & Hall). split; [exact Hw |]. split; [exact Hb |].
    intros a m Ha Hlook. cbn [CDLOD.setMixFactor CDLOD.setMeshes CDLOD.meshes CDLOD.root] in *.
    apply (forEachMesh_Some _ _ _ _ _ Ha) in Hlook as (m0 & Hm0 & ->).
    destruct (Hall a m0 Ha Hm0) as (Hbox & mat & Hmat & Hwire).
    unfold flagsInForce, CDLOD.withMaterial. cbn [meshShowBoundingBox material].
    split; [exact Hbox |]. rewrite Hmat. eexists. split; [reflexivity | exact Hwire].
  - destruct Hinv as (Hw & Hb & Hall). split; [exact Hw |]. split; [exact Hb |].
    intros a m Ha Hlook.
    cbn [CDLOD.setWireframe CDLOD.setMeshes CDLOD.setShowChunk CDLOD.meshes CDLOD.root] in *.
    apply (forEachMesh_Some _ _ _ _ _ Ha) in Hlook as (m0 & Hm0 & ->).
    destruct (Hall a m0 Ha Hm0) as (Hbox & mat & Hmat & Hwire).
    unfold flagsInForce, CDLOD.withMaterial. cbn [meshShowBoundingBox material].
    split; [exact Hbox |]. rewrite Hmat. eexists. split; reflexivity.
  - destruct Hinv as (Hw & Hb & Hall). split; [exact Hw |]. split; [exact Hb |].
    intros a m Ha Hlook.
    cbn [CDLOD.setBoundingBox CDLOD.setMeshes CDLOD.setShowBoundingBox CDLOD.meshes
         CDLOD.root] in *.
    apply (forEachMesh_Some _ _ _ _ _ Ha) in Hlook as (m0 & Hm0 & ->).
    destruct (Hall a m0 Ha Hm0) as (Hbox & mat & Hmat & Hwire).
    unfold flagsInForce. cbn [meshShowBoundingBox material].
    split; [reflexivity |]. exists mat. split; [exact Hmat | exact Hwire].
Qed.

Lemma Reachable_flagsInvariant (options : ICDLODOptions) (s : CDLOD.t) :
  Reachable (CDLOD.constructor options) s -> flagsInvariant s.
Proof.
  induction 1 as [| s s' _ IH Hstep].
  - split; [reflexivity |]. split; [reflexivity |].
    intros a m _ Hlook. cbn [CDLOD.constructor CDLOD.meshes] in Hlook.
    rewrite lookup_empty in Hlook. discriminate.
  - exact (Step_flagsInvariant s s' Hstep IH).
Qed.
End DebugFlags.

(** X11.  In every state of a constructed object, the mesh of every chunk
    of the tree shows its bounding box exactly when [showBoundingBox] is
    set and is drawn in wireframe exactly when [showChunk] is set: the
    setters reach the meshes that exist, and meshes created later pick
    the flags up. *)
Theorem debug_flags_in_force (options : ICDLODOptions) (s : CDLOD.t)
        (a : Addr) (c : Chunk) (m : Mesh) :
  Reachable (CDLOD.constructor options) s ->
  chunkAt (CDLOD.root s) a = Some c ->
  CDLOD.meshes s !! a = Some m ->
  meshShowBoundingBox m = CDLOD.showBoundingBox s
  /\ exists mat : ShaderMaterial, material m = Some mat /\ wireframe mat = CDLOD.showChunk s.
Proof.
  intros Hreach Hat Hm.
  destruct (Reachable_flagsInvariant options s Hreach) as (_ & _ & Hall).
  apply (Hall a m); [| exact Hm].
  apply (list_elem_of_fmap_2 fst _ (a, c)). now apply treeRefs_chunkAt.
Qed.

Lemma debug_flags_in_force_witness :
  exists m : Mesh,
    CDLOD.meshes
      (CDLOD.setWireframe (CDLOD.update (CDLOD.constructor smallOptions) (cameraAt 0 50 0)) true)
      !! [0%nat] = Some m
    /\ meshShowBoundingBox m = false
    /\ exists mat : ShaderMaterial, material m = Some mat /\ wireframe mat = true.
Proof.
  set (s := CDLOD.setWireframe
              (CDLOD.update (CDLOD.constructor smallOptions) (cameraAt 0 50 0)) true).
  destruct (chunkAt (CDLOD.root s) [0%nat]) as [c |] eqn:Hc;
    [| vm_compute in Hc; discriminate Hc].
  destruct (CDLOD.meshes s !! [0%nat]) as [m |] eqn:Hm;
    [| vm_compute in Hm; discriminate Hm].
  exists m. split; [reflexivity |].
  apply (debug_flags_in_force smallOptions s [0%nat] c m); [| exact Hc | exact Hm].
  eapply reach_step; [eapply reach_step; [apply reach_init | apply step_update] |].
  apply step_setWireframe.
Defined.

(** X12.  [setMixFactor] reaches the meshes that exist when it is called:
    afterwards the mesh of every chunk of the tree has the factor as its
    [mixFactor] uniform.  It is not remembered: a mesh created after the
    call has no [mixFactor] uniform set. *)
Theorem mix_factor_not_remembered (options : ICDLODOptions) (s : CDLOD.t) (f : Q) :
  Reachable (CDLOD.constructor options) s ->
  (forall (a : Addr) (c : Chunk) (m : Mesh),
      chunkAt (CDLOD.root s) a = Some c ->
      CDLOD.meshes (CDLOD.setMixFactor s f) !! a = Some m ->
      exists mat : ShaderMaterial, material m = Some mat /\ u_mixFactor mat = Some f)
  /\ (forall (c : Chunk) (camera : FreeCamera),
        exists mat : ShaderMaterial,
          material (CDLOD.createChunkMesh (CDLOD.setMixFactor s f) c camera) = Some mat
          /\ u_mixFactor mat = None).
Proof.
  intros Hreach. split.
  - intros a c m Hat Hm.
    assert (Ha : a ∈ map fst (treeRefs (CDLOD.root s)))
      by (apply (list_elem_of_fmap_2 fst _ (a, c)); now apply treeRefs_chunkAt).
    cbn [CDLOD.setMixFactor CDLOD.setMeshes CDLOD.meshes] in Hm.
    apply (forEachMesh_Some _ _ _ _ _ Ha) in Hm as (m0 & Hm0 & ->).
    destruct (Reachable_flagsInvariant options s Hreach) as (_ & _ & Hall).
    destruct (Hall a m0 Ha Hm0) as (_ & mat & Hmat & _).
    unfold CDLOD.withMaterial. cbn [material]. rewrite Hmat. eexists. split; reflexivity.
  - intros c camera. destruct (Reachable_resources options s Hreach) as (_ & _ & Hmix).
    unfold CDLOD.createChunkMesh. cbn [material]. eexists. split; [reflexivity |].
    cbn [u_mixFactor CDLOD.setMixFactor CDLOD.setMeshes CDLOD.terrainShader]. exact Hmix.
Qed.

Lemma mix_factor_not_remembered_witness :
  (forall (a : Addr) (c : Chunk) (m : Mesh),
      chunkAt (CDLOD.root (CDLOD.update (CDLOD.constructor smallOptions) (cameraAt 0 50 0))) a
      = Some c ->
      CDLOD.meshes
        (CDLOD.setMixFactor (CDLOD.update (CDLOD.constructor smallOptions) (cameraAt 0 50 0))
                            (1 # 2)) !! a = Some m ->
      exists mat : ShaderMaterial, material m = Some mat /\ u_mixFactor mat = Some (1 # 2))
  /\ (forall (c : Chunk) (camera : FreeCamera),
        exists mat : ShaderMaterial,
          material
            (CDLOD.createChunkMesh
               (CDLOD.setMixFactor
                  (CDLOD.update (CDLOD.constructor smallOptions) (cameraAt 0 50 0)) (1 # 2))
               c camera) = Some mat
          /\ u_mixFactor mat = None).
Proof.
  apply (mix_factor_not_remembered smallOptions).
  eapply reach_step; [apply reach_init | apply step_update].
Defined.

(** * The life cycle of a chunk's mesh *)

Section Lifecycle.
Lemma timesCloned_snoc (a : Addr) (log : list EngineCall) (e : EngineCall) :
  timesCloned a (log ++ [e])
  = (timesCloned a log + if decide (e = Cloned a) then 1 else 0)%nat.
Proof.
  unfold timesCloned. rewrite filter_app, length_app, filter_cons, filter_nil.
  now destruct (decide (e = Cloned a)).
Qed.

Lemma timesDisposed_snoc (a : Addr) (log : list EngineCall) (e : EngineCall) :
  timesDisposed a (log ++ [e])
  = (timesDisposed a log + if decide (e = Disposed a) then 1 else 0)%nat.
Proof.
  unfold timesDisposed. rewrite filter_app, length_app, filter_cons, filter_nil.
  now destruct (decide (e = Disposed a)).
Qed.

Lemma updateChunkMesh_balanced (a : Addr) (s : CDLOD.t) (r : ChunkRef) (camera : FreeCamera) :
  lifecycleBalanced s a -> lifecycleBalanced (CDLOD.updateChunkMesh s r camera) a.
Proof.
  unfold lifecycleBalanced, CDLOD.updateChunkMesh. intros Hbal.
  destruct (CDLOD.meshes s !! r.1) as [m0 |] eqn:Hm; [exact Hbal |].
  cbn [CDLOD.setMeshes CDLOD.meshes CDLOD.engineLog].
  replace (CDLOD.engineLog s ++ [Cloned r.1; ClonedShader r.1])
    with ((CDLOD.engineLog s ++ [Cloned r.1]) ++ [ClonedShader r.1])
    by (now rewrite <- app_assoc).
  rewrite !timesCloned_snoc, !timesDisposed_snoc, Hbal.
  rewrite (decide_False (P := Cloned r.1 = Disposed a)) by discriminate.
  rewrite (decide_False (P := ClonedShader r.1 = Disposed a)) by discriminate.
  rewrite (decide_False (P := ClonedShader r.1 = Cloned a)) by discriminate.
  destruct (decide (a = r.1)) as [-> | Hne].
  - rewrite lookup_insert_eq, Hm.
    rewrite (decide_True (P := Cloned r.1 = Cloned r.1)) by reflexivity.
    rewrite (decide_False (P := is_Some None)) by (intros [x Hx]; discriminate).
    rewrite (decide_True (P := is_Some (Some _))) by eauto. lia.
  - rewrite lookup_insert_ne by congruence.
    rewrite (decide_False (P := Cloned r.1 = Cloned a)) by congruence. lia.
Qed.

Lemma disposeIfUnused_balanced (a : Addr) (renderSet : gset (list nat)) (s : CDLOD.t)
      (b : Addr) :
  lifecycleBalanced s a -> lifecycleBalanced (CDLOD.disposeIfUnused renderSet s b) a.
Proof.
  unfold lifecycleBalanced, CDLOD.disposeIfUnused. intros Hbal.
  destruct (decide (b ∈ renderSet)); [exact Hbal |].
  destruct (CDLOD.meshes s !! b) as [m0 |] eqn:Hm; [| exact Hbal].
  cbn [CDLOD.setMeshes CDLOD.meshes CDLOD.engineLog].
  rewrite timesCloned_snoc, timesDisposed_snoc, Hbal.
  rewrite (decide_False (P := Disposed b = Cloned a)) by discriminate.
  destruct (decide (a = b)) as [-> | Hne].
  - rewrite lookup_delete_eq, Hm.
    rewrite (decide_True (P := Disposed b = Disposed b)) by reflexivity.
    rewrite (decide_False (P := is_Some None)) by (intros [x Hx]; discriminate).
    rewrite (decide_True (P := is_Some (Some _))) by eauto. lia.
  - rewrite lookup_delete_ne by congruence.
    rewrite (decide_False (P := Disposed b = Disposed a)) by congruence. lia.
Qed.

Lemma forEachMesh_is_Some (f : Mesh -> Mesh) (root : Chunk) (m : gmap (list nat) Mesh)
      (a : Addr) :
  is_Some (CDLOD.forEachMesh f root [] m !! a) <-> is_Some (m !! a).
Proof.
  rewrite forEachMesh_lookup.
  destruct (decide (a ∈ map fst (treeRefs root))); [| reflexivity].
  apply fmap_is_Some.
Qed.

Lemma Step_balanced (a : Addr) (s s' : CDLOD.t) :
  Step s s' -> lifecycleBalanced s a -> lifecycleBalanced s' a.
Proof.
  intros Hstep Hbal. destruct Hstep as [s camera | s r camera | s f | s b | s b].
  - apply (update_invariant (fun st => lifecycleBalanced st a)); [| | exact Hbal].
    + intros st r. apply updateChunkMesh_balanced.
    + intros rs st b. apply disposeIfUnused_balanced.
  - now apply updateChunkMesh_balanced.
  - unfold lifecycleBalanced in *.
    cbn [CDLOD.setMixFactor CDLOD.setMeshes CDLOD.meshes CDLOD.engineLog].
    rewrite Hbal. f_equal. symmetry. apply decide_ext, forEachMesh_is_Some.
  - unfold lifecycleBalanced in *.
    cbn [CDLOD.setWireframe CDLOD.setShowChunk CDLOD.setMeshes CDLOD.meshes CDLOD.engineLog
         CDLOD.root].
    rewrite Hbal. f_equal. symmetry. apply decide_ext, forEachMesh_is_Some.
  - unfold lifecycleBalanced in *.
    cbn [CDLOD.setBoundingBox CDLOD.setShowBoundingBox CDLOD.setMeshes CDLOD.meshes
         CDLOD.engineLog CDLOD.root].
    rewrite Hbal. f_equal. symmetry. apply decide_ext, forEachMesh_is_Some.
Qed.
End Lifecycle.

(** X13.  In every state of a constructed object and for every chunk,
    the engine has been asked to create the chunk's mesh exactly as often
    as it has been asked to dispose of it, plus once if the chunk has a
    mesh now: no mesh is dropped without [dispose], none is disposed of
    twice, and none is created over an existing one. *)
Theorem mesh_lifecycle_balanced (options : ICDLODOptions) (s : CDLOD.t) (a : Addr) :
  Reachable (CDLOD.constructor options) s ->
  timesCloned a (CDLOD.engineLog s)
  = (timesDisposed a (CDLOD.engineLog s)
     + if decide (is_Some (CDLOD.meshes s !! a)) then 1 else 0)%nat.
Proof.
  induction 1 as [| s s' _ IH Hstep].
  - cbn [CDLOD.constructor CDLOD.meshes CDLOD.engineLog]. rewrite lookup_empty.
    now rewrite decide_False by (intros [x Hx]; discriminate).
  - exact (Step_balanced a s s' Hstep IH).
Qed.

Lemma mesh_lifecycle_balanced_witness :
  timesCloned [0%nat]
    (CDLOD.engineLog
       (CDLOD.update (CDLOD.update (CDLOD.constructor smallOptions) (cameraAt 0 50 0))
                     (cameraAt 900 50 900)))
  = (timesDisposed [0%nat]
       (CDLOD.engineLog
          (CDLOD.update (CDLOD.update (CDLOD.constructor smallOptions) (cameraAt 0 50 0))
                        (cameraAt 900 50 900)))
     + if decide
            (is_Some
               (CDLOD.meshes
                  (CDLOD.update (CDLOD.update (CDLOD.constructor smallOptions)
                                              (cameraAt 0 50 0))
                                (cameraAt 900 50 900)) !! [0%nat]))
       then 1 else 0)%nat.
Proof.
  apply (mesh_lifecycle_balanced smallOptions).
  eapply reach_step; [eapply reach_step; [apply reach_init | apply step_update] |].
  apply step_update.
Defined.

(** * What the traversal selects *)

Section SelectedChunks.
Variable s : CDLOD.t.
Variable camera : FreeCamera.

Lemma Selects_tests (c : Chunk) (l : Z) (rel : Addr) (c' : Chunk) :
  Selects s camera c l rel c' ->
  frustumIntersect c' (frustumPlanes camera) = true
  /\ CDLOD.isChunkWithinLodRange s c' camera (l - Z.of_nat (length rel)) = false.
Proof.
  induction 1 as [c l Hf Hw | c l i child rel c' Hf Hw Hi _ IH].
  - split; [exact Hf |]. simpl length. now rewrite Z.sub_0_r.
  - destruct IH as [Hf' Hw']. split; [exact Hf' |].
    replace (l - Z.of_nat (length (i :: rel)))%Z with (l - 1 - Z.of_nat (length rel))%Z
      by (simpl length; lia).
    exact Hw'.
Qed.

Lemma Selects_ancestors (c : Chunk) (l : Z) (rel : Addr) (c' : Chunk) :
  Selects s camera c l rel c' ->
  forall (b rest : Addr) (cb : Chunk),
    rel = b ++ rest -> rest <> [] -> chunkAt c b = Some cb ->
    frustumIntersect cb (frustumPlanes camera) = true
    /\ CDLOD.isChunkWithinLodRange s cb camera (l - Z.of_nat (length b)) = true.
Proof.
  induction 1 as [c l Hf Hw | c l i child rel c' Hf Hw Hi _ IH]; intros b rest cb Hrel Hrest Hat.
  - symmetry in Hrel. apply app_eq_nil in Hrel as [_ ->]. contradiction.
  - destruct b as [| j b].
    + simpl in Hat. injection Hat as <-. simpl length. rewrite Z.sub_0_r. now split.
    + simpl in Hrel. injection Hrel as <- Hrel. simpl in Hat. rewrite Hi in Hat.
      destruct (IH b rest cb Hrel Hrest Hat) as [Hfb Hwb]. split; [exact Hfb |].
      replace (l - Z.of_nat (length (i :: b)))%Z with (l - 1 - Z.of_nat (length b))%Z
        by (simpl length; lia).
      exact Hwb.
Qed.

Lemma Selects_depth (th : Q) (c : Chunk) (l : Z) (rel : Addr) (c' : Chunk) :
  Selects s camera c l rel c' ->
  forall (bb : BoundingBox.t) (lev : Z),
    c = buildQuadtree th bb lev -> l = (lev - 1)%Z ->
    (Z.of_nat (length rel) <= Z.max lev 0)%Z.
Proof.
  induction 1 as [c l Hf Hw | c l i child rel c' Hf Hw Hi _ IH]; intros bb lev Hc Hl.
  - simpl length. lia.
  - subst c. apply within_band in Hw.
    apply buildQuadtree_child in Hi as (_ & box & _ & Hchild).
    specialize (IH box (lev - 1)%Z Hchild ltac:(lia)). simpl length. lia.
Qed.

Lemma length_belowRefs (f : Chunk -> list ChunkRef) (cs : list Chunk) :
  forall i : nat, length (belowRefs f cs i) = list_sum (map (fun c => length (f c)) cs).
Proof.
  induction cs as [| c cs IH]; intros i; simpl; [reflexivity |].
  now rewrite length_app, length_map, IH.
Qed.

Lemma selection_length (th : Q) (n : nat) :
  forall (bb : BoundingBox.t) (lev : Z),
    Z.to_nat lev = n ->
    (length (selection s camera (buildQuadtree th bb lev) (lev - 1)) <= 4 ^ n)%nat.
Proof.
  induction n as [| n IH]; intros bb lev Hn; rewrite selection_unfold.
  - destruct (negb (frustumIntersect _ _)); [simpl; lia |].
    rewrite within_negative by lia. simpl. lia.
  - destruct (negb (frustumIntersect _ _)); [simpl; lia |].
    destruct (negb (CDLOD.isChunkWithinLodRange _ _ _ _));
      [simpl length; pose proof (Nat.pow_nonzero 4 (S n)); lia |].
    rewrite (buildQuadtree_node th bb lev) by lia. cbn [children].
    rewrite length_belowRefs. unfold quadrantBoxes. cbn [map list_sum].
    rewrite Nat.pow_succ_r'.
    repeat match goal with
           | |- context [length (selection s camera (buildQuadtree th ?box (lev - 1))
                                           (lev - 1 - 1))] =>
               let H := fresh "Hbox" in
               let k := fresh "k" in
               pose proof (IH box (lev - 1)%Z ltac:(lia)) as H;
               set (k := length (selection s camera (buildQuadtree th box (lev - 1))
                                           (lev - 1 - 1))) in *;
               clearbody k
           end.
    set (p := (4 ^ n)%nat) in *. clearbody p. simpl. lia.
Qed.
End SelectedChunks.

(** X14.  What [selectLods] puts on the draw list, in every state of a
    constructed object with [lodLevels = N].  A listed chunk is the node
    at its address; it passed the frustum test and failed the range test
    of its band [N - 1 - depth]; every ancestor passed both tests; it lies
    no deeper than [N], so that, for [N >= 0], it has four children: the
    childless nodes of the last layer of the tree are never drawn. *)
Theorem selected_chunk_profile (options : ICDLODOptions) (s : CDLOD.t)
        (camera : FreeCamera) (a : Addr) (c : Chunk) :
  Reachable (CDLOD.constructor options) s ->
  (a, c) ∈ CDLOD.selectLods s camera ->
  chunkAt (CDLOD.root s) a = Some c
  /\ frustumIntersect c (frustumPlanes camera) = true
  /\ CDLOD.isChunkWithinLodRange s c camera (CDLOD.lodLevels s - 1 - Z.of_nat (length a))
     = false
  /\ (forall (b rest : Addr) (cb : Chunk),
        a = b ++ rest -> rest <> [] -> chunkAt (CDLOD.root s) b = Some cb ->
        frustumIntersect cb (frustumPlanes camera) = true
        /\ CDLOD.isChunkWithinLodRange s cb camera
             (CDLOD.lodLevels s - 1 - Z.of_nat (length b)) = true)
  /\ (Z.of_nat (length a) <= Z.max (CDLOD.lodLevels s) 0)%Z
  /\ ((0 <= CDLOD.lodLevels s)%Z -> length (children c) = 4%nat).
Proof.
  intros Hreach Hin. rewrite selectLods_selection in Hin.
  apply selection_Selects in Hin.
  pose proof (Selects_chunkAt s camera _ _ _ _ Hin) as Hat.
  destruct (Selects_tests s camera _ _ _ _ Hin) as [Hf Hw].
  pose proof (Selects_depth s camera (CDLOD.terrainHeight s) _ _ _ _ Hin
                (CDLOD.terrainBoundingBox (CDLOD.terrainSize s)) (CDLOD.lodLevels s)
                (Reachable_root options s Hreach) eq_refl) as Hdepth.
  split; [exact Hat |]. split; [exact Hf |]. split; [exact Hw |].
  split; [exact (Selects_ancestors s camera _ _ _ _ Hin) |].
  split; [exact Hdepth |].
  intros HN. rewrite (Reachable_root options s Hreach) in Hat.
  destruct (chunkAt_built _ a _ _ c Hat) as (box & -> & _).
  rewrite buildQuadtree_node by lia. cbn [children]. now rewrite length_map.
Qed.

Lemma selected_chunk_profile_witness :
  exists c : Chunk,
    CDLOD.selectLods (CDLOD.constructor smallOptions) (cameraAt 0 50 0) !! 2%nat
    = Some ([2%nat], c)
    /\ chunkAt (CDLOD.root (CDLOD.constructor smallOptions)) [2%nat] = Some c
    /\ length (children c) = 4%nat.
Proof.
  destruct (CDLOD.selectLods (CDLOD.constructor smallOptions) (cameraAt 0 50 0) !! 2%nat)
    as [[a c] |] eqn:Hsel; [| vm_compute in Hsel; discriminate Hsel].
  pose proof (list_lookup_fmap fst
                (CDLOD.selectLods (CDLOD.constructor smallOptions) (cameraAt 0 50 0)) 2) as Hmap.
  rewrite Hsel in Hmap.
  change (fst <$> CDLOD.selectLods (CDLOD.constructor smallOptions) (cameraAt 0 50 0))
    with (map fst (CDLOD.selectLods (CDLOD.constructor smallOptions) (cameraAt 0 50 0)))
    in Hmap.
  rewrite smallOptions_selection in Hmap. injection Hmap as <-.
  exists c. split; [reflexivity |].
  destruct (selected_chunk_profile smallOptions (CDLOD.constructor smallOptions)
              (cameraAt 0 50 0) [2%nat] c (reach_init _)
              (list_elem_of_lookup_2 _ _ _ Hsel))
    as (Hat & _ & _ & _ & _ & Hfour).
  split; [exact Hat |]. apply Hfour. discriminate.
Defined.

(** X15.  In every state of a constructed object the draw list of
    [selectLods] has at most [4 ^ lodLevels] entries (at most one when
    [lodLevels] is negative), whatever the camera. *)
Theorem draw_list_bound (options : ICDLODOptions) (s : CDLOD.t) (camera : FreeCamera) :
  Reachable (CDLOD.constructor options) s ->
  (length (CDLOD.selectLods s camera) <= 4 ^ Z.to_nat (CDLOD.lodLevels s))%nat.
Proof.
  intros Hreach. rewrite selectLods_selection, (Reachable_root options s Hreach).
  now apply selection_length.
Qed.

Lemma draw_list_bound_witness :
  (length (CDLOD.selectLods (CDLOD.update (CDLOD.constructor smallOptions) (cameraAt 0 50 0))
                            (cameraAt 0 50 0))
   <= 64)%nat.
Proof.
  apply (draw_list_bound smallOptions
           (CDLOD.update (CDLOD.constructor smallOptions) (cameraAt 0 50 0)) (cameraAt 0 50 0)).
  eapply reach_step; [apply reach_init | apply step_update].
Defined.

(** * The range test at its edges *)

Section RangeEdges.
Lemma DistanceLt_nonpositive (a b : Vector3.t) (r : Q) :
  r <= 0 -> Vector3.DistanceLt a b r = false.
Proof.
  intros Hr. unfold Vector3.DistanceLt.
  now rewrite (proj2 (Qltb_ge 0 r) Hr).
Qed.

Lemma DistanceLt_mono (a b : Vector3.t) (r r' : Q) :
  r <= r' -> Vector3.DistanceLt a b r = true -> Vector3.DistanceLt a b r' = true.
Proof.
  unfold Vector3.DistanceLt. intros Hle H.
  apply andb_true_iff in H as [Hpos Hlt].
  apply Qltb_lt in Hpos. apply Qltb_lt in Hlt.
  apply andb_true_iff. split; apply Qltb_lt; [lra | nra].
Qed.

Lemma configMinLodDistance_zero (options : ICDLODOptions) (m : Q) :
  opt_minLodDistance options = Some m -> m == 0 ->
  CDLOD.configMinLodDistance options = opt_terrainSize options / 15.
Proof.
  intros Hm Hz. unfold CDLOD.configMinLodDistance, CDLOD.falsy. rewrite Hm.
  now rewrite (proj2 (Qeq_bool_iff m 0) Hz).
Qed.

Lemma configMinLodDistance_negative (options : ICDLODOptions) (m : Q) :
  opt_minLodDistance options = Some m -> m < 0 ->
  CDLOD.configMinLodDistance options = m.
Proof.
  intros Hm Hneg. unfold CDLOD.configMinLodDistance, CDLOD.falsy. rewrite Hm.
  destruct (Qeq_bool m 0) eqn:E; [| reflexivity].
  apply Qeq_bool_iff in E. lra.
Qed.

Lemma within_nonpositive_table (s : CDLOD.t) (camera : FreeCamera) (c : Chunk) (l : Z) :
  (forall (i : nat) (r : Q), CDLOD.lodRanges s !! i = Some r -> r <= 0) ->
  CDLOD.isChunkWithinLodRange s c camera l = false.
Proof.
  intros Htable. unfold CDLOD.isChunkWithinLodRange.
  destruct (l <? 0)%Z; [reflexivity |].
  destruct (CDLOD.lodRanges s !! Z.to_nat l) as [r |] eqn:Hr; [| reflexivity].
  apply DistanceLt_nonpositive. exact (Htable _ _ Hr).
Qed.
End RangeEdges.

(** X16.  A [minLodDistance] option that is not positive.  The value 0 is
    taken as absent: the table is the one of [terrainSize / 15].  A
    negative value is used as it is, every range of the table is then
    negative, no node is ever within range, and in every state
    [selectLods] returns the root alone if the root passes the frustum
    test and nothing otherwise. *)
Theorem nonpositive_minLodDistance (options : ICDLODOptions) (m : Q) (s : CDLOD.t)
        (camera : FreeCamera) :
  opt_minLodDistance options = Some m ->
  Reachable (CDLOD.constructor options) s ->
  (m == 0 ->
   forall i : nat, (Z.of_nat i < CDLOD.lodLevels s)%Z ->
     CDLOD.lodRanges s !! i = Some (opt_terrainSize options / 15 * pow2 i))
  /\ (m < 0 ->
      (forall i : nat, (Z.of_nat i < CDLOD.lodLevels s)%Z ->
         CDLOD.lodRanges s !! i = Some (m * pow2 i))
      /\ CDLOD.selectLods s camera
         = if frustumIntersect (CDLOD.root s) (frustumPlanes camera)
           then [([], CDLOD.root s)] else []).
Proof.
  intros Hm Hreach.
  pose proof (Reachable_staticPart _ _ Hreach) as Hstatic.
  apply staticPart_fields in Hstatic as (_ & Hranges & Hlevels & _).
  rewrite Hranges, Hlevels, constructor_lodRanges.
  change (CDLOD.lodLevels (CDLOD.constructor options))
    with (default 7%Z (opt_lodLevels options)).
  split.
  - intros Hz i Hi. rewrite (configMinLodDistance_zero options m Hm Hz).
    apply computeLodRanges_lookup. lia.
  - intros Hneg. rewrite (configMinLodDistance_negative options m Hm Hneg).
    split; [intros i Hi; apply computeLodRanges_lookup; lia |].
    assert (Hw : CDLOD.isChunkWithinLodRange s (CDLOD.root s) camera (CDLOD.lodLevels s - 1)
                 = false).
    { apply within_nonpositive_table. intros i r Hr.
      rewrite Hranges, constructor_lodRanges,
        (configMinLodDistance_negative options m Hm Hneg) in Hr.
      apply computeLodRanges_lookup_inv in Hr as [_ ->].
      pose proof (pow2_pos i). nra. }
    rewrite selectLods_selection, selection_unfold, Hw.
    now destruct (frustumIntersect (CDLOD.root s) (frustumPlanes camera)).
Qed.

Lemma nonpositive_minLodDistance_witness :
  CDLOD.selectLods (CDLOD.constructor negativeRangeOptions) (cameraAt 0 50 0)
  = if frustumIntersect (CDLOD.root (CDLOD.constructor negativeRangeOptions))
                        (frustumPlanes (cameraAt 0 50 0))
    then [([], CDLOD.root (CDLOD.constructor negativeRangeOptions))] else [].
Proof.
  destruct (nonpositive_minLodDistance negativeRangeOptions (-5)
              (CDLOD.constructor negativeRangeOptions) (cameraAt 0 50 0)
              eq_refl (reach_init _)) as [_ Hneg].
  apply Hneg. reflexivity.
Defined.

(** X17.  [Chunk.sphereIntersect] and the range test.  The test
    [isChunkWithinLodRange] of the traversal succeeds exactly when the
    band has an entry in the range table and [sphereIntersect] holds for
    that entry and the camera position; [sphereIntersect] never holds for
    a distance that is not positive, and once it holds it holds for every
    larger distance. *)
Theorem sphereIntersect_range_test (s : CDLOD.t) (c : Chunk) (camera : FreeCamera) (l : Z)
        (p : Vector3.t) (d d' : Q) :
  (CDLOD.isChunkWithinLodRange s c camera l = true
   <-> (0 <= l)%Z
       /\ exists r : Q, CDLOD.lodRanges s !! Z.to_nat l = Some r
                        /\ sphereIntersect c r (position camera) = true)
  /\ (d <= 0 -> sphereIntersect c d p = false)
  /\ (d <= d' -> sphereIntersect c d p = true -> sphereIntersect c d' p = true).
Proof.
  split; [| split].
  - unfold CDLOD.isChunkWithinLodRange, sphereIntersect.
    destruct (Z.ltb_spec l 0) as [Hl | Hl].
    + split; [discriminate | intros [H _]; lia].
    + destruct (CDLOD.lodRanges s !! Z.to_nat l) as [r |].
      * split.
        -- intros H. split; [exact Hl |]. now exists r.
        -- intros (_ & r' & [= <-] & H). exact H.
      * split; [discriminate | intros (_ & r' & Hr & _); discriminate].
  - apply DistanceLt_nonpositive.
  - apply DistanceLt_mono.
Qed.

(** * The render loop *)

Section Frames.
Lemma runFrames_snoc (s : CDLOD.t) (cameras : list FreeCamera) (camera : FreeCamera) :
  runFrames s (cameras ++ [camera]) = CDLOD.update (runFrames s cameras) camera.
Proof. unfold runFrames. now rewrite fold_left_app. Qed.

Lemma runFrames_staticPart (cameras : list FreeCamera) :
  forall s : CDLOD.t, staticPart (runFrames s cameras) = staticPart s.
Proof.
  induction cameras as [| camera cameras IH]; intros s; [reflexivity |].
  unfold runFrames in *. cbn [fold_left]. now rewrite IH, update_staticPart.
Qed.

End Frames.

(** X18.  The render loop of [main.ts] calls [update] once per frame.
    After any sequence of frames the chunks of the tree that have a mesh
    are exactly those that [selectLods] selects for the camera of the
    last frame: which meshes exist does not depend on the earlier frames. *)
Theorem frames_keep_last_selection (s : CDLOD.t) (cameras : list FreeCamera)
        (camera : FreeCamera) (a : Addr) (c : Chunk) :
  chunkAt (CDLOD.root s) a = Some c ->
  is_Some (CDLOD.meshes (runFrames s (cameras ++ [camera])) !! a)
  <-> a ∈ map fst (CDLOD.selectLods s camera).
Proof.
  intros Hat. rewrite runFrames_snoc, update_lookup.
  pose proof (runFrames_staticPart cameras s) as Hstatic.
  rewrite (selectLods_static camera _ _ Hstatic).
  apply staticPart_fields in Hstatic as (-> & _).
  assert (Htree : a ∈ map fst (treeRefs (CDLOD.root s)))
    by (apply (list_elem_of_fmap_2 fst _ (a, c)); now apply treeRefs_chunkAt).
  destruct (decide (a ∈ map fst (CDLOD.selectLods s camera))) as [Hin | Hout].
  - rewrite decide_False by tauto. split; [intros _; exact Hin | intros _].
    apply list_elem_of_fmap in Hin as (r & -> & Hr).
    now apply fold_updateChunkMesh_is_Some.
  - rewrite decide_True by tauto. split; [intros [m Hm]; discriminate | contradiction].
Qed.

Lemma frames_keep_last_selection_witness :
  is_Some (CDLOD.meshes
             (runFrames (CDLOD.constructor smallOptions)
                        ([cameraAt 900 50 900] ++ [cameraAt 0 50 0])) !! [2%nat]).
Proof.
  destruct (chunkAt (CDLOD.root (CDLOD.constructor smallOptions)) [2%nat]) as [c |] eqn:Hc;
    [| vm_compute in Hc; discriminate Hc].
  apply (frames_keep_last_selection (CDLOD.constructor smallOptions) [cameraAt 900 50 900]
           (cameraAt 0 50 0) [2%nat] c Hc).
  rewrite smallOptions_selection. apply elem_of_cons. right. apply elem_of_cons. right.
  apply elem_of_cons. now left.
Defined.

(** * The fragment shader *)

(** X19.  The colour written by the fragment shader.  With
    [mixFactor = 1] it is [chunkColor], whatever the textures hold; with
    [mixFactor = 0] it does not depend on [chunkColor]; with
    [mixFactor = 0] and [detailStrength = 0] it is the sample of the
    diffuse texture at [vUV]; and for [0 <= mixFactor <= 1] the red
    channel lies between that of the textured colour ([mixFactor = 0])
    and that of [chunkColor]. *)
Theorem fragment_colour_blend (u : TerrainFragmentShader.Uniforms) (vUV : Vector2) :
  (TerrainFragmentShader.mixFactor u == 1 ->
   Vector4_eq (TerrainFragmentShader.main u vUV) (TerrainFragmentShader.chunkColor u))
  /\ (TerrainFragmentShader.mixFactor u == 0 ->
      forall color : Vector4,
        Vector4_eq (TerrainFragmentShader.main u vUV)
                   (TerrainFragmentShader.main
                      (TerrainFragmentShader.mkUniforms
                         (TerrainFragmentShader.diffuseTexture u)
                         (TerrainFragmentShader.detailTexture u)
                         color
                         (TerrainFragmentShader.mixFactor u)
                         (TerrainFragmentShader.detailStrength u)
                         (TerrainFragmentShader.detailScale u))
                      vUV))
  /\ (TerrainFragmentShader.mixFactor u == 0 ->
      TerrainFragmentShader.detailStrength u == 0 ->
      Vector4_eq (TerrainFragmentShader.main u vUV)
                 (TerrainFragmentShader.diffuseTexture u vUV))
  /\ (0 <= TerrainFragmentShader.mixFactor u <= 1 ->
      forall textured : Vector4,
        textured
        = TerrainFragmentShader.main
            (TerrainFragmentShader.mkUniforms
               (TerrainFragmentShader.diffuseTexture u)
               (TerrainFragmentShader.detailTexture u)
               (TerrainFragmentShader.chunkColor u)
               0
               (TerrainFragmentShader.detailStrength u)
               (TerrainFragmentShader.detailScale u))
            vUV ->
        Qmin (v4x textured) (v4x (TerrainFragmentShader.chunkColor u))
        <= v4x (TerrainFragmentShader.main u vUV)
        <= Qmax (v4x textured) (v4x (TerrainFragmentShader.chunkColor u))).
Proof.
  split; [| split; [| split]].
  - intros H1. unfold TerrainFragmentShader.main, Vector4_eq. cbn [v4x v4y v4z v4w].
    repeat split; now apply mix_at_1.
  - intros H0 color. unfold TerrainFragmentShader.main, Vector4_eq.
    cbn [v4x v4y v4z v4w TerrainFragmentShader.diffuseTexture
         TerrainFragmentShader.detailTexture TerrainFragmentShader.chunkColor
         TerrainFragmentShader.mixFactor TerrainFragmentShader.detailStrength
         TerrainFragmentShader.detailScale].
    repeat split;
      (etransitivity; [apply mix_at_0; exact H0 | symmetry; apply mix_at_0; exact H0]).
  - intros H0 Hd. unfold TerrainFragmentShader.main, Vector4_eq. cbn [v4x v4y v4z v4w].
    repeat split; rewrite (mix_at_0 _ _ _ H0), (mix_at_0 _ _ _ Hd); ring.
  - intros Hrange textured ->. unfold TerrainFragmentShader.main.
    cbn [v4x TerrainFragmentShader.diffuseTexture
         TerrainFragmentShader.detailTexture TerrainFragmentShader.chunkColor
         TerrainFragmentShader.mixFactor TerrainFragmentShader.detailStrength
         TerrainFragmentShader.detailScale].
    set (tex := v4x (TerrainFragmentShader.diffuseTexture u vUV) * _).
    assert (Htex : mix tex (v4x (TerrainFragmentShader.chunkColor u)) 0 == tex)
      by (now apply mix_at_0).
    pose proof (mix_between tex (v4x (TerrainFragmentShader.chunkColor u))
                  (TerrainFragmentShader.mixFactor u) Hrange) as Hb.
    rewrite Htex. exact Hb.
Qed.
